(** * The goaccessfmt log-line parser ([src/assets/reference.c])

    A shallow embedding of the parser core of [reference.c]: the string
    utilities, the validators, the per-specifier value parser
    ([parse_specifier]), the format-driven tokenizer ([parse_format]) and the
    record assembler ([parse_line]), followed by the properties of these
    functions.

    Conventions of the embedding.
    - A C string is a [string] without the NUL character; a [char *] that walks
      through a buffer is the suffix it points at, and [NULL] is [None].
    - [int] is 32 bits, [long] and [unsigned long long] are 64 bits (LP64);
      a narrowing conversion wraps around, as GCC defines it.
    - The character classes are those of the "C" locale.
    - [xmalloc] and friends are assumed to succeed. *)

From Stdlib Require Import ZArith Lia Bool List.
From Stdlib Require Import Ascii String.
From Stdlib Require Import SpecFloat.
Import ListNotations.
Open Scope string_scope.
Open Scope Z_scope.

(** ** Characters *)

Definition code (c : ascii) : Z := Z.of_N (N_of_ascii c).
Definition chr (n : Z) : ascii := ascii_of_N (Z.to_N (n mod 256)).

Definition NUL : ascii := zero.

Definition isspace (c : ascii) : bool :=
  (code c =? 32) || ((9 <=? code c) && (code c <=? 13)).

Definition isdigit (c : ascii) : bool :=
  (48 <=? code c) && (code c <=? 57).

Definition isxdigit (c : ascii) : bool :=
  isdigit c
  || ((65 <=? code c) && (code c <=? 70))
  || ((97 <=? code c) && (code c <=? 102)).

Definition toupper (c : ascii) : ascii :=
  if (97 <=? code c) && (code c <=? 122) then chr (code c - 32) else c.

Definition tolower (c : ascii) : ascii :=
  if (65 <=? code c) && (code c <=? 90) then chr (code c + 32) else c.

(** [*s] for a cursor [s]. *)
Definition deref (s : string) : ascii :=
  match s with
  | EmptyString => NUL
  | String c _ => c
  end.

(** [s + 1] for a cursor [s] that does not stand on the terminator. *)
Definition next (s : string) : string :=
  match s with
  | EmptyString => EmptyString
  | String _ r => r
  end.

(** ** The C library's string functions *)

(** The C string held by a buffer: its bytes up to the first NUL. *)
Fixpoint cstr (s : string) : string :=
  match s with
  | EmptyString => EmptyString
  | String c r => if (c =? NUL)%char then EmptyString else String c (cstr r)
  end.

Fixpoint mem_char (c : ascii) (s : string) : bool :=
  match s with
  | EmptyString => false
  | String a r => (a =? c)%char || mem_char c r
  end.

Fixpoint strchr (s : string) (c : ascii) : option string :=
  match s with
  | EmptyString => if (c =? NUL)%char then Some EmptyString else None
  | String a r => if (a =? c)%char then Some s else strchr r c
  end.

Fixpoint strrchr (s : string) (c : ascii) : option string :=
  match s with
  | EmptyString => if (c =? NUL)%char then Some EmptyString else None
  | String a r =>
      match strrchr r c with
      | Some t => Some t
      | None => if (a =? c)%char then Some s else None
      end
  end.

Fixpoint strpbrk (s accept : string) : option string :=
  match s with
  | EmptyString => None
  | String a r => if mem_char a accept then Some s else strpbrk r accept
  end.

Fixpoint strcspn (s reject : string) : nat :=
  match s with
  | EmptyString => O
  | String a r => if mem_char a reject then O else S (strcspn r reject)
  end.

Fixpoint strstr (haystack needle : string) : option string :=
  if prefix needle haystack then Some haystack
  else match haystack with
       | EmptyString => None
       | String _ r => strstr r needle
       end.

Fixpoint drop (n : nat) (s : string) : string :=
  match n, s with
  | O, _ => s
  | S _, EmptyString => EmptyString
  | S k, String _ r => drop k r
  end.

Fixpoint take (n : nat) (s : string) : string :=
  match n, s with
  | O, _ => EmptyString
  | S _, EmptyString => EmptyString
  | S k, String c r => String c (take k r)
  end.

(** [strncasecmp (a, b, n) == 0]. *)
Fixpoint strncasecmp_eq (a b : string) (n : nat) : bool :=
  match n with
  | O => true
  | S k =>
      match a, b with
      | EmptyString, EmptyString => true
      | String x a', String y b' =>
          (tolower x =? tolower y)%char && strncasecmp_eq a' b' k
      | _, _ => false
      end
  end.

(** [strcasecmp (a, b) == 0]. *)
Fixpoint strcasecmp_eq (a b : string) : bool :=
  match a, b with
  | EmptyString, EmptyString => true
  | String x a', String y b' =>
      (tolower x =? tolower y)%char && strcasecmp_eq a' b'
  | _, _ => false
  end.

(** ** Integer conversions *)

Definition INT_MIN : Z := - 2 ^ 31.
Definition LONG_MAX : Z := 2 ^ 63 - 1.
Definition LONG_MIN : Z := - 2 ^ 63.
Definition ULLONG_MAX : Z := 2 ^ 64 - 1.

(** Conversion of an integer to [int], [uint32_t] and [uint64_t]. *)
Definition to_int (x : Z) : Z := (x - INT_MIN) mod 2 ^ 32 + INT_MIN.
Definition to_uint32 (x : Z) : Z := x mod 2 ^ 32.
Definition to_uint64 (x : Z) : Z := x mod 2 ^ 64.

(** What [strtol] and [strtoull] report: the value, the end pointer, whether
    any digit was converted ([endptr != nptr]) and whether [errno] was set to
    [ERANGE]. *)
Record strto_result : Type := mk_strto {
  strto_value : Z;
  strto_end : string;
  strto_conv : bool;
  strto_erange : bool
}.

Fixpoint read_digits (s : string) (acc : Z) : Z * string :=
  match s with
  | EmptyString => (acc, s)
  | String c r =>
      if isdigit c then read_digits r (10 * acc + (code c - 48)) else (acc, s)
  end.

(** White space is skipped as [ltrim] skips it. *)
Fixpoint ltrim (s : string) : string :=
  match s with
  | EmptyString => EmptyString
  | String c r => if isspace c then ltrim r else s
  end.

(** The subject sequence of a base-10 conversion: white space, an optional
    sign, then at least one digit. *)
Definition strto_subject (s : string) : option (bool * Z * string) :=
  let s1 := ltrim s in
  let '(neg, s2) :=
    match s1 with
    | String "-"%char r => (true, r)
    | String "+"%char r => (false, r)
    | _ => (false, s1)
    end in
  if isdigit (deref s2)
  then let '(v, rest) := read_digits s2 0 in Some (neg, v, rest)
  else None.

Definition strtol (s : string) : strto_result :=
  match strto_subject s with
  | None => mk_strto 0 s false false
  | Some (neg, v, rest) =>
      let x := if neg then - v else v in
      if LONG_MAX <? x then mk_strto LONG_MAX rest true true
      else if x <? LONG_MIN then mk_strto LONG_MIN rest true true
      else mk_strto x rest true false
  end.

Definition strtoull (s : string) : strto_result :=
  match strto_subject s with
  | None => mk_strto 0 s false false
  | Some (neg, v, rest) =>
      if ULLONG_MAX <? v then mk_strto ULLONG_MAX rest true true
      else mk_strto (if neg then to_uint64 (- v) else v) rest true false
  end.

(** The test [tkn == end || *end != '\0' || errno == ERANGE] that follows
    every numeric conversion of the parser. *)
Definition strto_failed (r : strto_result) : bool :=
  negb (strto_conv r)
  || negb (deref (strto_end r) =? NUL)%char
  || strto_erange r.

(** ** String utilities of the parser *)

Fixpoint count_matches (s1 : string) (c : ascii) : Z :=
  match s1 with
  | EmptyString => if (c =? NUL)%char then 1 else 0
  | String a r => (if (a =? c)%char then 1 else 0) + count_matches r c
  end.

Fixpoint rtrim (s : string) : string :=
  match s with
  | EmptyString => EmptyString
  | String c r =>
      match rtrim r with
      | EmptyString => if isspace c then EmptyString else String c EmptyString
      | t => String c t
      end
  end.

Definition trim_str (str : string) : string := rtrim (ltrim str).

Definition str2int (date : string) : Z :=
  let r := strtol date in
  if strto_failed r then -1 else to_int (strto_value r).

Fixpoint char_replace (str : string) (o n : ascii) : string :=
  match str with
  | EmptyString => EmptyString
  | String c r => String (if (c =? o)%char then n else c) (char_replace r o n)
  end.

Fixpoint strip_newlines (str : string) : string :=
  match str with
  | EmptyString => EmptyString
  | String c r =>
      if (c =? "013")%char || (c =? "010")%char
      then strip_newlines r
      else String c (strip_newlines r)
  end.

Fixpoint strtoupper (str : string) : string :=
  match str with
  | EmptyString => EmptyString
  | String c r => String (toupper c) (strtoupper r)
  end.

(** ** Configuration *)

(** The fields of [GConf] that the parser reads.  The two internal flags
    [bandwidth] and [serve_usecs], which [parse_specifier] raises and never
    reads, are left out. *)
Record GConf : Type := mk_conf {
  tz_name : option string;
  date_format : string;
  date_num_format : string;
  time_format : string;
  log_format : string;
  append_method : bool;
  append_protocol : bool;
  double_decode : bool;
  no_strict_status : bool;
  no_ip_validation : bool;
  is_json_log_format : bool
}.

(** ** URL decoding *)

(** The macro [B16210]: the value of a hexadecimal digit. *)
Definition B16210 (x : ascii) : Z :=
  if (48 <=? code x) && (code x <=? 57)
  then code x - 48
  else code (toupper x) - 65 + 10.

(** The bytes that [decode_hex] writes to [out], before the terminator. *)
Fixpoint decode_hex_bytes (url : string) : string :=
  match url with
  | EmptyString => EmptyString
  | String c r =>
      match r with
      | String h (String l r') =>
          if negb (c =? "%")%char || negb (isxdigit h) || negb (isxdigit l)
          then String c (decode_hex_bytes r)
          else String (chr (B16210 h * 16 + B16210 l)) (decode_hex_bytes r')
      | _ => String c (decode_hex_bytes r)
      end
  end.

(** [decode_hex (url, out)]: the C string left in [out]; a decoded [%00] ends
    it. *)
Definition decode_hex (url : string) : string := cstr (decode_hex_bytes url).

Definition decode_url (conf : GConf) (url : option string) : option string :=
  match url with
  | None => None
  | Some EmptyString => None
  | Some u =>
      let out := decode_hex u in
      let out := if double_decode conf then decode_hex out else out in
      Some (trim_str (strip_newlines out))
  end.

(** ** HTTP status codes *)

Definition STATUS_CODE_0XX : string := "0xx Unofficial Codes".
Definition STATUS_CODE_1XX : string := "1xx Informational".
Definition STATUS_CODE_2XX : string := "2xx Success".
Definition STATUS_CODE_3XX : string := "3xx Redirection".
Definition STATUS_CODE_4XX : string := "4xx Client Errors".
Definition STATUS_CODE_5XX : string := "5xx Server Errors".
Definition STATUS_CODE_0 : string :=
  "0 - Caddy: Unhandled - No configured routes".
Definition STATUS_CODE_100 : string :=
  "100 - Continue: Server received the initial part of the request".
Definition STATUS_CODE_101 : string :=
  "101 - Switching Protocols: Client asked to switch protocols".
Definition STATUS_CODE_200 : string :=
  "200 - OK: The request sent by the client was successful".
Definition STATUS_CODE_201 : string :=
  "201 - Created: The request has been fulfilled and created".
Definition STATUS_CODE_202 : string :=
  "202 - Accepted: The request has been accepted for processing".
Definition STATUS_CODE_203 : string :=
  "203 - Non-authoritative Information: Response from a third party".
Definition STATUS_CODE_204 : string :=
  "204 - No Content: Request did not return any content".
Definition STATUS_CODE_205 : string :=
  "205 - Reset Content: Server asked the client to reset the document".
Definition STATUS_CODE_206 : string :=
  "206 - Partial Content: The partial GET has been successful".
Definition STATUS_CODE_207 : string := "207 - Multi-Status: WebDAV; RFC 4918".
Definition STATUS_CODE_208 : string :=
  "208 - Already Reported: WebDAV; RFC 5842".
Definition STATUS_CODE_218 : string :=
  "218 - This is fine: Apache servers. A catch-all error condition".
Definition STATUS_CODE_300 : string :=
  "300 - Multiple Choices: Multiple options for the resource".
Definition STATUS_CODE_301 : string :=
  "301 - Moved Permanently: Resource has permanently moved".
Definition STATUS_CODE_302 : string := "302 - Moved Temporarily (redirect)".
Definition STATUS_CODE_303 : string :=
  "303 - See Other Document: The response is at a different URI".
Definition STATUS_CODE_304 : string :=
  "304 - Not Modified: Resource has not been modified".
Definition STATUS_CODE_305 : string :=
  "305 - Use Proxy: Can only be accessed through the proxy".
Definition STATUS_CODE_307 : string :=
  "307 - Temporary Redirect: Resource temporarily moved".
Definition STATUS_CODE_308 : string := "308 - Permanent Redirect".
Definition STATUS_CODE_400 : string :=
  "400 - Bad Request: The syntax of the request is invalid".
Definition STATUS_CODE_401 : string :=
  "401 - Unauthorized: Request needs user authentication".
Definition STATUS_CODE_402 : string := "402 - Payment Required".
Definition STATUS_CODE_403 : string :=
  "403 - Forbidden: Server is refusing to respond to it".
Definition STATUS_CODE_404 : string :=
  "404 - Not Found: Requested resource could not be found".
Definition STATUS_CODE_405 : string :=
  "405 - Method Not Allowed: Request method not supported".
Definition STATUS_CODE_406 : string := "406 - Not Acceptable".
Definition STATUS_CODE_407 : string := "407 - Proxy Authentication Required".
Definition STATUS_CODE_408 : string :=
  "408 - Request Timeout: Server timed out waiting for the request".
Definition STATUS_CODE_409 : string :=
  "409 - Conflict: Conflict in the request".
Definition STATUS_CODE_410 : string :=
  "410 - Gone: Resource requested is no longer available".
Definition STATUS_CODE_411 : string :=
  "411 - Length Required: Invalid Content-Length".
Definition STATUS_CODE_412 : string :=
  "412 - Precondition Failed: Server does not meet preconditions".
Definition STATUS_CODE_413 : string := "413 - Payload Too Large".
Definition STATUS_CODE_414 : string := "414 - Request-URI Too Long".
Definition STATUS_CODE_415 : string :=
  "415 - Unsupported Media Type: Media type is not supported".
Definition STATUS_CODE_416 : string :=
  "416 - Requested Range Not Satisfiable: Cannot supply that portion".
Definition STATUS_CODE_417 : string := "417 - Expectation Failed".
Definition STATUS_CODE_418 : string := "418 - I'm a teapot".
Definition STATUS_CODE_419 : string :=
  "419 - Page Expired: Laravel Framework when a CSRF Token is missing".
Definition STATUS_CODE_420 : string :=
  "420 - Method Failure: Spring Framework when a method has failed".
Definition STATUS_CODE_421 : string := "421 - Misdirected Request".
Definition STATUS_CODE_422 : string :=
  "422 - Unprocessable Entity due to semantic errors: WebDAV".
Definition STATUS_CODE_423 : string :=
  "423 - The resource that is being accessed is locked".
Definition STATUS_CODE_424 : string := "424 - Failed Dependency: WebDAV".
Definition STATUS_CODE_426 : string :=
  "426 - Upgrade Required: Client should switch to a different protocol".
Definition STATUS_CODE_428 : string := "428 - Precondition Required".
Definition STATUS_CODE_429 : string :=
  "429 - Too Many Requests: The user has sent too many requests".
Definition STATUS_CODE_430 : string :=
  "430 - Request Header Fields Too Large: Too many URLs are requested within a certain time frame".
Definition STATUS_CODE_431 : string := "431 - Request Header Fields Too Large".
Definition STATUS_CODE_440 : string :=
  "440 - Login Time-out: The client's session has expired".
Definition STATUS_CODE_449 : string :=
  "449 - Retry With: The server cannot honour the request".
Definition STATUS_CODE_450 : string :=
  "450 - Blocked by Windows Parental Controls: The Microsoft extension code indicated".
Definition STATUS_CODE_451 : string := "451 - Unavailable For Legal Reasons".
Definition STATUS_CODE_444 : string :=
  "444 - (Nginx) Connection closed without sending any headers".
Definition STATUS_CODE_460 : string :=
  "460 - AWS Elastic Load Balancing: Client closed the connection ".
Definition STATUS_CODE_463 : string :=
  "463 - AWS Elastic Load Balancing: The load balancer received more than 30 IP addresses".
Definition STATUS_CODE_464 : string :=
  "464 - AWS Elastic Load Balancing: Incompatible protocol versions".
Definition STATUS_CODE_494 : string := "494 - (Nginx) Request Header Too Large".
Definition STATUS_CODE_495 : string :=
  "495 - (Nginx) SSL client certificate error".
Definition STATUS_CODE_496 : string :=
  "496 - (Nginx) Client didn't provide certificate".
Definition STATUS_CODE_497 : string :=
  "497 - (Nginx) HTTP request sent to HTTPS port".
Definition STATUS_CODE_498 : string :=
  "498 - Invalid Token: an expired or otherwise invalid token".
Definition STATUS_CODE_499 : string :=
  "499 - (Nginx) Connection closed by client while processing request".
Definition STATUS_CODE_500 : string := "500 - Internal Server Error".
Definition STATUS_CODE_501 : string := "501 - Not Implemented".
Definition STATUS_CODE_502 : string :=
  "502 - Bad Gateway: Received an invalid response from the upstream".
Definition STATUS_CODE_503 : string :=
  "503 - Service Unavailable: The server is currently unavailable".
Definition STATUS_CODE_504 : string :=
  "504 - Gateway Timeout: The upstream server failed to send request".
Definition STATUS_CODE_505 : string := "505 - HTTP Version Not Supported".
Definition STATUS_CODE_509 : string :=
  "509 - Bandwidth Limit Exceeded: The server has exceeded the bandwidth".
Definition STATUS_CODE_520 : string :=
  "520 - CloudFlare - Web server is returning an unknown error".
Definition STATUS_CODE_521 : string := "521 - CloudFlare - Web server is down".
Definition STATUS_CODE_522 : string :=
  "522 - CloudFlare - Connection timed out".
Definition STATUS_CODE_523 : string :=
  "523 - CloudFlare - Origin is unreachable".
Definition STATUS_CODE_524 : string := "524 - CloudFlare - A timeout occurred".
Definition STATUS_CODE_525 : string :=
  "525 - SSL Handshake Failed: Cloudflare could not negotiate a SSL/TLS handshake".
Definition STATUS_CODE_526 : string :=
  "526 - Invalid SSL Certificate: Cloudflare could not validate the SSL certificate".
Definition STATUS_CODE_527 : string :=
  "527 - Railgun Error: An interrupted connection".
Definition STATUS_CODE_529 : string :=
  "529 - Site is overloaded: A site can not process the request".
Definition STATUS_CODE_530 : string :=
  "530 - Site is frozen: A site has been frozen due to inactivity".
Definition STATUS_CODE_540 : string :=
  "540 - Temporarily Disabled: The requested endpoint has been temporarily disabled".
Definition STATUS_CODE_561 : string :=
  "561 - Unauthorized: An error around authentication".
Definition STATUS_CODE_598 : string :=
  "598 - Network read timeout error: some HTTP proxies to signal a network read timeout".
Definition STATUS_CODE_599 : string :=
  "599 - Network Connect Timeout Error: An error used by some HTTP proxies".
Definition STATUS_CODE_783 : string :=
  "783 - Unexpected Token: The request includes a JSON syntax error".

(** HTTP status codes categories *)
Definition code_type : list (option string) :=
  [ Some STATUS_CODE_0XX; Some STATUS_CODE_1XX; Some STATUS_CODE_2XX;
    Some STATUS_CODE_3XX; Some STATUS_CODE_4XX; Some STATUS_CODE_5XX ].

(** An element of a C array initializer: [[i] = v] or a plain [v], which goes
    to the element after the previous one. *)
Inductive init_item : Type :=
  | At (i : nat) (v : option string)
  | Next (v : option string).

(** The array an initializer describes, on top of [arr]: a later item
    overrides an earlier one for the same element. *)
Fixpoint array_of_init (items : list init_item) (cur : nat)
  (arr : nat -> option string) : nat -> option string :=
  match items with
  | [] => arr
  | At j v :: rest =>
      array_of_init rest (S j) (fun i => if Nat.eqb i j then v else arr i)
  | Next v :: rest =>
      array_of_init rest (S cur) (fun i => if Nat.eqb i cur then v else arr i)
  end.

(** The initializer of [codes[600]], item by item. *)
Definition codes_init : list init_item :=
  [ At 0 (Some STATUS_CODE_0);
    At 100 (Some STATUS_CODE_100);
    Next (Some STATUS_CODE_101);
    At 200 (Some STATUS_CODE_200);
    Next (Some STATUS_CODE_201);
    Next (Some STATUS_CODE_202);
    Next (Some STATUS_CODE_203);
    Next (Some STATUS_CODE_204);
    At 205 (Some STATUS_CODE_205);
    Next (Some STATUS_CODE_206);
    Next (Some STATUS_CODE_207);
    Next (Some STATUS_CODE_208);
    At 218 (Some STATUS_CODE_218);
    At 300 (Some STATUS_CODE_300);
    Next (Some STATUS_CODE_301);
    Next (Some STATUS_CODE_302);
    Next (Some STATUS_CODE_303);
    Next (Some STATUS_CODE_304);
    At 305 (Some STATUS_CODE_305);
    Next None;
    Next (Some STATUS_CODE_307);
    Next (Some STATUS_CODE_308);
    At 400 (Some STATUS_CODE_400);
    Next (Some STATUS_CODE_401);
    Next (Some STATUS_CODE_402);
    Next (Some STATUS_CODE_403);
    Next (Some STATUS_CODE_404);
    At 405 (Some STATUS_CODE_405);
    Next (Some STATUS_CODE_406);
    Next (Some STATUS_CODE_407);
    Next (Some STATUS_CODE_408);
    Next (Some STATUS_CODE_409);
    At 410 (Some STATUS_CODE_410);
    Next (Some STATUS_CODE_411);
    Next (Some STATUS_CODE_412);
    Next (Some STATUS_CODE_413);
    Next (Some STATUS_CODE_414);
    At 415 (Some STATUS_CODE_415);
    Next (Some STATUS_CODE_416);
    Next (Some STATUS_CODE_417);
    Next (Some STATUS_CODE_418);
    Next (Some STATUS_CODE_419);
    At 420 (Some STATUS_CODE_420);
    Next (Some STATUS_CODE_421);
    Next (Some STATUS_CODE_422);
    Next (Some STATUS_CODE_423);
    Next (Some STATUS_CODE_424);
    At 425 None;
    Next (Some STATUS_CODE_426);
    Next None;
    Next (Some STATUS_CODE_428);
    Next (Some STATUS_CODE_429);
    Next (Some STATUS_CODE_430);
    At 431 (Some STATUS_CODE_431);
    At 440 (Some STATUS_CODE_440);
    At 444 (Some STATUS_CODE_444);
    At 449 (Some STATUS_CODE_449);
    At 450 (Some STATUS_CODE_450);
    At 451 (Some STATUS_CODE_451);
    At 460 (Some STATUS_CODE_460);
    Next (Some STATUS_CODE_463);
    Next (Some STATUS_CODE_464);
    At 494 (Some STATUS_CODE_494);
    At 495 (Some STATUS_CODE_495);
    Next (Some STATUS_CODE_496);
    Next (Some STATUS_CODE_497);
    Next (Some STATUS_CODE_498);
    Next (Some STATUS_CODE_499);
    At 500 (Some STATUS_CODE_500);
    Next (Some STATUS_CODE_501);
    Next (Some STATUS_CODE_502);
    Next (Some STATUS_CODE_503);
    Next (Some STATUS_CODE_504);
    At 505 (Some STATUS_CODE_505);
    At 509 (Some STATUS_CODE_509);
    At 520 (Some STATUS_CODE_520);
    Next (Some STATUS_CODE_521);
    Next (Some STATUS_CODE_522);
    Next (Some STATUS_CODE_523);
    Next (Some STATUS_CODE_524);
    Next (Some STATUS_CODE_525);
    Next (Some STATUS_CODE_526);
    Next (Some STATUS_CODE_527);
    Next (Some STATUS_CODE_529);
    At 530 (Some STATUS_CODE_530);
    At 540 (Some STATUS_CODE_540);
    At 561 (Some STATUS_CODE_561);
    At 598 (Some STATUS_CODE_598);
    Next (Some STATUS_CODE_599) ].

Definition codes (i : Z) : option string :=
  if (0 <=? i) && (i <? 600)
  then array_of_init codes_init 0 (fun _ => None) (Z.to_nat i)
  else None.

Definition is_some {A : Type} (o : option A) : bool :=
  match o with Some _ => true | None => false end.

(** [code / 100] is only evaluated for [0 <= code <= 599], where the C
    division agrees with [Z.div]. *)
Definition is_valid_http_status (code : Z) : bool :=
  (0 <=? code) && (code <=? 599)
  && is_some (nth (Z.to_nat (code / 100)) code_type None)
  && is_some (codes code).

(** ** HTTP methods, protocols and cache status *)

Definition http_methods : list (string * nat) :=
  [ ("OPTIONS", 7%nat);
    ("GET", 3%nat);
    ("HEAD", 4%nat);
    ("POST", 4%nat);
    ("PUT", 3%nat);
    ("DELETE", 6%nat);
    ("TRACE", 5%nat);
    ("CONNECT", 7%nat);
    ("PATCH", 5%nat);
    ("SEARCH", 6%nat);
    (* WebDav *)
    ("PROPFIND", 8%nat);
    ("PROPPATCH", 9%nat);
    ("MKCOL", 5%nat);
    ("COPY", 4%nat);
    ("MOVE", 4%nat);
    ("LOCK", 4%nat);
    ("UNLOCK", 6%nat);
    ("VERSION-CONTROL", 15%nat);
    ("REPORT", 6%nat);
    ("CHECKOUT", 8%nat);
    ("CHECKIN", 7%nat);
    ("UNCHECKOUT", 10%nat);
    ("MKWORKSPACE", 11%nat);
    ("UPDATE", 6%nat);
    ("LABEL", 5%nat);
    ("MERGE", 5%nat);
    ("BASELINE-CONTROL", 16%nat);
    ("MKACTIVITY", 10%nat);
    ("ORDERPATCH", 10%nat) ].

Definition http_protocols : list (string * nat) :=
  [ ("HTTP/1.0", 8%nat);
    ("HTTP/1.1", 8%nat);
    ("HTTP/2", 6%nat);
    ("HTTP/3", 6%nat) ].

(** The loop shared by [extract_method] and [extract_protocol]: the first
    entry of the table that [strncasecmp] finds at the head of the token. *)
Fixpoint first_match (table : list (string * nat)) (token : string)
  : option string :=
  match table with
  | [] => None
  | (name, len) :: rest =>
      if strncasecmp_eq token name len then Some name
      else first_match rest token
  end.

Definition extract_method (token : string) : option string :=
  first_match http_methods token.

Definition extract_protocol (token : string) : option string :=
  first_match http_protocols token.

Definition is_cache_hit (tkn : string) : bool :=
  if strcasecmp_eq "MISS" tkn then true
  else if strcasecmp_eq "BYPASS" tkn then true
  else if strcasecmp_eq "EXPIRED" tkn then true
  else if strcasecmp_eq "STALE" tkn then true
  else if strcasecmp_eq "UPDATING" tkn then true
  else if strcasecmp_eq "REVALIDATED" tkn then true
  else if strcasecmp_eq "HIT" tkn then true
  else false.

(** ** The record of a parsed line *)

Record tm : Type := mk_tm {
  tm_sec : Z;
  tm_min : Z;
  tm_hour : Z;
  tm_mday : Z;
  tm_mon : Z;
  tm_year : Z;
  tm_wday : Z;
  tm_yday : Z;
  tm_isdst : Z;
  tm_gmtoff : Z
}.

Inductive GTypeIP : Type := TYPE_IPINV | TYPE_IPV4 | TYPE_IPV6.

(** [GLogItem]: a [char *] member is [None] when it is [NULL]. *)
Record GLogItem : Type := mk_logitem {
  agent : option string;
  date : option string;
  host : option string;
  keyphrase : option string;
  method : option string;
  protocol : option string;
  qstr : option string;
  ref : option string;
  req : option string;
  status : Z;
  time : option string;
  vhost : option string;
  userid : option string;
  cache_status : option string;
  site : string;
  resp_size : Z;
  serve_time : Z;
  numdate : Z;
  ignorelevel : Z;
  type_ip : GTypeIP;
  mime_type : option string;
  tls_type : option string;
  tls_cypher : option string;
  tls_type_cypher : option string;
  errstr : option string;
  dt : tm
}.

(** Assignment to one member, [logitem->f = v]. *)

Definition with_agent (l : GLogItem) (v : option string) : GLogItem :=
    mk_logitem v (date l) (host l) (keyphrase l) (method l) (protocol l) (qstr
    l) (ref l) (req l) (status l) (time l) (vhost l) (userid l) (cache_status
    l) (site l) (resp_size l) (serve_time l) (numdate l) (ignorelevel l)
    (type_ip l) (mime_type l) (tls_type l) (tls_cypher l) (tls_type_cypher l)
    (errstr l) (dt l).

Definition with_date (l : GLogItem) (v : option string) : GLogItem :=
    mk_logitem (agent l) v (host l) (keyphrase l) (method l) (protocol l)
    (qstr l) (ref l) (req l) (status l) (time l) (vhost l) (userid l)
    (cache_status l) (site l) (resp_size l) (serve_time l) (numdate l)
    (ignorelevel l) (type_ip l) (mime_type l) (tls_type l) (tls_cypher l)
    (tls_type_cypher l) (errstr l) (dt l).

Definition with_host (l : GLogItem) (v : option string) : GLogItem :=
    mk_logitem (agent l) (date l) v (keyphrase l) (method l) (protocol l)
    (qstr l) (ref l) (req l) (status l) (time l) (vhost l) (userid l)
    (cache_status l) (site l) (resp_size l) (serve_time l) (numdate l)
    (ignorelevel l) (type_ip l) (mime_type l) (tls_type l) (tls_cypher l)
    (tls_type_cypher l) (errstr l) (dt l).

Definition with_keyphrase (l : GLogItem) (v : option string) : GLogItem :=
    mk_logitem (agent l) (date l) (host l) v (method l) (protocol l) (qstr l)
    (ref l) (req l) (status l) (time l) (vhost l) (userid l) (cache_status l)
    (site l) (resp_size l) (serve_time l) (numdate l) (ignorelevel l) (type_ip
    l) (mime_type l) (tls_type l) (tls_cypher l) (tls_type_cypher l) (errstr
    l) (dt l).

Definition with_method (l : GLogItem) (v : option string) : GLogItem :=
    mk_logitem (agent l) (date l) (host l) (keyphrase l) v (protocol l) (qstr
    l) (ref l) (req l) (status l) (time l) (vhost l) (userid l) (cache_status
    l) (site l) (resp_size l) (serve_time l) (numdate l) (ignorelevel l)
    (type_ip l) (mime_type l) (tls_type l) (tls_cypher l) (tls_type_cypher l)
    (errstr l) (dt l).

Definition with_protocol (l : GLogItem) (v : option string) : GLogItem :=
    mk_logitem (agent l) (date l) (host l) (keyphrase l) (method l) v (qstr l)
    (ref l) (req l) (status l) (time l) (vhost l) (userid l) (cache_status l)
    (site l) (resp_size l) (serve_time l) (numdate l) (ignorelevel l) (type_ip
    l) (mime_type l) (tls_type l) (tls_cypher l) (tls_type_cypher l) (errstr
    l) (dt l).

Definition with_qstr (l : GLogItem) (v : option string) : GLogItem :=
    mk_logitem (agent l) (date l) (host l) (keyphrase l) (method l) (protocol
    l) v (ref l) (req l) (status l) (time l) (vhost l) (userid l)
    (cache_status l) (site l) (resp_size l) (serve_time l) (numdate l)
    (ignorelevel l) (type_ip l) (mime_type l) (tls_type l) (tls_cypher l)
    (tls_type_cypher l) (errstr l) (dt l).

Definition with_ref (l : GLogItem) (v : option string) : GLogItem :=
    mk_logitem (agent l) (date l) (host l) (keyphrase l) (method l) (protocol
    l) (qstr l) v (req l) (status l) (time l) (vhost l) (userid l)
    (cache_status l) (site l) (resp_size l) (serve_time l) (numdate l)
    (ignorelevel l) (type_ip l) (mime_type l) (tls_type l) (tls_cypher l)
    (tls_type_cypher l) (errstr l) (dt l).

Definition with_req (l : GLogItem) (v : option string) : GLogItem :=
    mk_logitem (agent l) (date l) (host l) (keyphrase l) (method l) (protocol
    l) (qstr l) (ref l) v (status l) (time l) (vhost l) (userid l)
    (cache_status l) (site l) (resp_size l) (serve_time l) (numdate l)
    (ignorelevel l) (type_ip l) (mime_type l) (tls_type l) (tls_cypher l)
    (tls_type_cypher l) (errstr l) (dt l).

Definition with_status (l : GLogItem) (v : Z) : GLogItem :=
    mk_logitem (agent l) (date l) (host l) (keyphrase l) (method l) (protocol
    l) (qstr l) (ref l) (req l) v (time l) (vhost l) (userid l) (cache_status
    l) (site l) (resp_size l) (serve_time l) (numdate l) (ignorelevel l)
    (type_ip l) (mime_type l) (tls_type l) (tls_cypher l) (tls_type_cypher l)
    (errstr l) (dt l).

Definition with_time (l : GLogItem) (v : option string) : GLogItem :=
    mk_logitem (agent l) (date l) (host l) (keyphrase l) (method l) (protocol
    l) (qstr l) (ref l) (req l) (status l) v (vhost l) (userid l)
    (cache_status l) (site l) (resp_size l) (serve_time l) (numdate l)
    (ignorelevel l) (type_ip l) (mime_type l) (tls_type l) (tls_cypher l)
    (tls_type_cypher l) (errstr l) (dt l).

Definition with_vhost (l : GLogItem) (v : option string) : GLogItem :=
    mk_logitem (agent l) (date l) (host l) (keyphrase l) (method l) (protocol
    l) (qstr l) (ref l) (req l) (status l) (time l) v (userid l) (cache_status
    l) (site l) (resp_size l) (serve_time l) (numdate l) (ignorelevel l)
    (type_ip l) (mime_type l) (tls_type l) (tls_cypher l) (tls_type_cypher l)
    (errstr l) (dt l).

Definition with_userid (l : GLogItem) (v : option string) : GLogItem :=
    mk_logitem (agent l) (date l) (host l) (keyphrase l) (method l) (protocol
    l) (qstr l) (ref l) (req l) (status l) (time l) (vhost l) v (cache_status
    l) (site l) (resp_size l) (serve_time l) (numdate l) (ignorelevel l)
    (type_ip l) (mime_type l) (tls_type l) (tls_cypher l) (tls_type_cypher l)
    (errstr l) (dt l).

Definition with_cache_status (l : GLogItem) (v : option string) : GLogItem :=
    mk_logitem (agent l) (date l) (host l) (keyphrase l) (method l) (protocol
    l) (qstr l) (ref l) (req l) (status l) (time l) (vhost l) (userid l) v
    (site l) (resp_size l) (serve_time l) (numdate l) (ignorelevel l) (type_ip
    l) (mime_type l) (tls_type l) (tls_cypher l) (tls_type_cypher l) (errstr
    l) (dt l).

Definition with_site (l : GLogItem) (v : string) : GLogItem :=
    mk_logitem (agent l) (date l) (host l) (keyphrase l) (method l) (protocol
    l) (qstr l) (ref l) (req l) (status l) (time l) (vhost l) (userid l)
    (cache_status l) v (resp_size l) (serve_time l) (numdate l) (ignorelevel
    l) (type_ip l) (mime_type l) (tls_type l) (tls_cypher l) (tls_type_cypher
    l) (errstr l) (dt l).

Definition with_resp_size (l : GLogItem) (v : Z) : GLogItem :=
    mk_logitem (agent l) (date l) (host l) (keyphrase l) (method l) (protocol
    l) (qstr l) (ref l) (req l) (status l) (time l) (vhost l) (userid l)
    (cache_status l) (site l) v (serve_time l) (numdate l) (ignorelevel l)
    (type_ip l) (mime_type l) (tls_type l) (tls_cypher l) (tls_type_cypher l)
    (errstr l) (dt l).

Definition with_serve_time (l : GLogItem) (v : Z) : GLogItem :=
    mk_logitem (agent l) (date l) (host l) (keyphrase l) (method l) (protocol
    l) (qstr l) (ref l) (req l) (status l) (time l) (vhost l) (userid l)
    (cache_status l) (site l) (resp_size l) v (numdate l) (ignorelevel l)
    (type_ip l) (mime_type l) (tls_type l) (tls_cypher l) (tls_type_cypher l)
    (errstr l) (dt l).

Definition with_numdate (l : GLogItem) (v : Z) : GLogItem :=
    mk_logitem (agent l) (date l) (host l) (keyphrase l) (method l) (protocol
    l) (qstr l) (ref l) (req l) (status l) (time l) (vhost l) (userid l)
    (cache_status l) (site l) (resp_size l) (serve_time l) v (ignorelevel l)
    (type_ip l) (mime_type l) (tls_type l) (tls_cypher l) (tls_type_cypher l)
    (errstr l) (dt l).

Definition with_type_ip (l : GLogItem) (v : GTypeIP) : GLogItem :=
    mk_logitem (agent l) (date l) (host l) (keyphrase l) (method l) (protocol
    l) (qstr l) (ref l) (req l) (status l) (time l) (vhost l) (userid l)
    (cache_status l) (site l) (resp_size l) (serve_time l) (numdate l)
    (ignorelevel l) v (mime_type l) (tls_type l) (tls_cypher l)
    (tls_type_cypher l) (errstr l) (dt l).

Definition with_mime_type (l : GLogItem) (v : option string) : GLogItem :=
    mk_logitem (agent l) (date l) (host l) (keyphrase l) (method l) (protocol
    l) (qstr l) (ref l) (req l) (status l) (time l) (vhost l) (userid l)
    (cache_status l) (site l) (resp_size l) (serve_time l) (numdate l)
    (ignorelevel l) (type_ip l) v (tls_type l) (tls_cypher l) (tls_type_cypher
    l) (errstr l) (dt l).

Definition with_tls_type (l : GLogItem) (v : option string) : GLogItem :=
    mk_logitem (agent l) (date l) (host l) (keyphrase l) (method l) (protocol
    l) (qstr l) (ref l) (req l) (status l) (time l) (vhost l) (userid l)
    (cache_status l) (site l) (resp_size l) (serve_time l) (numdate l)
    (ignorelevel l) (type_ip l) (mime_type l) v (tls_cypher l)
    (tls_type_cypher l) (errstr l) (dt l).

Definition with_tls_cypher (l : GLogItem) (v : option string) : GLogItem :=
    mk_logitem (agent l) (date l) (host l) (keyphrase l) (method l) (protocol
    l) (qstr l) (ref l) (req l) (status l) (time l) (vhost l) (userid l)
    (cache_status l) (site l) (resp_size l) (serve_time l) (numdate l)
    (ignorelevel l) (type_ip l) (mime_type l) (tls_type l) v (tls_type_cypher
    l) (errstr l) (dt l).

Definition with_errstr (l : GLogItem) (v : option string) : GLogItem :=
    mk_logitem (agent l) (date l) (host l) (keyphrase l) (method l) (protocol
    l) (qstr l) (ref l) (req l) (status l) (time l) (vhost l) (userid l)
    (cache_status l) (site l) (resp_size l) (serve_time l) (numdate l)
    (ignorelevel l) (type_ip l) (mime_type l) (tls_type l) (tls_cypher l)
    (tls_type_cypher l) v (dt l).

Definition with_dt (l : GLogItem) (v : tm) : GLogItem :=
    mk_logitem (agent l) (date l) (host l) (keyphrase l) (method l) (protocol
    l) (qstr l) (ref l) (req l) (status l) (time l) (vhost l) (userid l)
    (cache_status l) (site l) (resp_size l) (serve_time l) (numdate l)
    (ignorelevel l) (type_ip l) (mime_type l) (tls_type l) (tls_cypher l)
    (tls_type_cypher l) (errstr l) v.

(** ** Outcomes

    A call either returns, or ends the process through [FATAL]
    ([exit (EXIT_FAILURE)]), or runs into behaviour that C leaves undefined. *)
Inductive outcome (A : Type) : Type :=
  | Returns (a : A)
  | Exits
  | Undefined.
Arguments Returns {A} a.
Arguments Exits {A}.
Arguments Undefined {A}.

Definition bind {A B : Type} (m : outcome A) (k : A -> outcome B) : outcome B :=
  match m with
  | Returns a => k a
  | Exits => Exits
  | Undefined => Undefined
  end.

Notation "x <- m ;; k" := (bind m (fun x => k))
  (at level 61, m at next level, right associativity).
Notation "' pat <- m ;; k" := (bind m (fun x => let 'pat := x in k))
  (at level 61, pat pattern, m at next level, right associativity).

(** ** [double]

    IEEE 754 binary64 with rounding to nearest, ties to even.  A finite value
    is [(-1)^neg * m * 2^e] with [0 <= m]; the mantissa is not normalised and
    the exponent range is not modelled: the parser only multiplies a
    [double] by a constant and converts the product to [uint64_t], where a
    product that overflows is out of range of [uint64_t] anyway and one that
    underflows is below one. *)
Inductive double : Type :=
  | DFinite (neg : bool) (m : Z) (e : Z)
  | DInfinity (neg : bool)
  | DNaN.

(** [m * 2^e] rounded to 53 significant bits. *)
Definition round53 (m e : Z) : Z * Z :=
  let d := Z.log2 m + 1 in
  if d <=? 53 then (m, e)
  else
    let k := d - 53 in
    let q := m / 2 ^ k in
    let r := m mod 2 ^ k in
    let half := 2 ^ (k - 1) in
    let q' :=
      if r <? half then q
      else if half <? r then q + 1
      else if Z.even q then q else q + 1 in
    (q', e + k).

(** Conversion of an unsigned integer to [double]. *)
Definition double_of_u64 (n : Z) : double :=
  let '(m, e) := round53 n 0 in DFinite false m e.

Definition double_mul (x y : double) : double :=
  match x, y with
  | DNaN, _ | _, DNaN => DNaN
  | DInfinity sx, DInfinity sy => DInfinity (xorb sx sy)
  | DInfinity sx, DFinite sy m _ | DFinite sx m _, DInfinity sy =>
      if m =? 0 then DNaN else DInfinity (xorb sx sy)
  | DFinite sx mx ex, DFinite sy my ey =>
      let '(m, e) := round53 (mx * my) (ex + ey) in DFinite (xorb sx sy) m e
  end.

(** [x > 0]. *)
Definition double_gt0 (x : double) : bool :=
  match x with
  | DFinite false m _ => 0 <? m
  | DInfinity false => true
  | _ => false
  end.

(** Conversion of a [double] to [uint64_t]: the value truncated toward zero,
    undefined ([None]) when that is not a value of [uint64_t]. *)
Definition double_to_u64 (x : double) : option Z :=
  match x with
  | DFinite neg m e =>
      let v := if 0 <=? e then m * 2 ^ e else m / 2 ^ (- e) in
      if neg && (0 <? v) then None
      else if v <=? ULLONG_MAX then Some v else None
  | _ => None
  end.

(** What [strtod] reports, as [strto_result] does for the integers. *)
Record strtod_result : Type := mk_strtod {
  strtod_value : double;
  strtod_end : string;
  strtod_conv : bool;
  strtod_erange : bool
}.

Definition MILS : Z := 1000.
Definition SECS : Z := 1000000.

Definition ERR_SPEC_TOKN_NUL : Z := 1.
Definition ERR_SPEC_TOKN_INV : Z := 2.
Definition ERR_SPEC_SFMT_MIS : Z := 3.
Definition ERR_SPEC_LINE_INV : Z := 4.

Definition REF_SITE_LEN : nat := 511.
Definition DATE_LEN : Z := 10 + 1.
Definition TIME_LEN : Z := 8 + 1.

Definition init_log_item : GLogItem :=
  {| agent := None; date := None; host := None; keyphrase := None;
     method := None; protocol := None; qstr := None; ref := None;
     req := None; status := -1; time := None; vhost := None;
     userid := None; cache_status := None; site := "";
     resp_size := 0; serve_time := 0; numdate := 0; ignorelevel := 0;
     type_ip := TYPE_IPINV;
     mime_type := None; tls_type := None; tls_cypher := None;
     tls_type_cypher := None; errstr := None;
     dt := {| tm_sec := 0; tm_min := 0; tm_hour := 0; tm_mday := 1;
              tm_mon := 1; tm_year := 2000; tm_wday := 0; tm_yday := 0;
              tm_isdst := -1; tm_gmtoff := 0 |} |}.

(** ** Token extraction *)

Definition get_delim (p : string) : string :=
  match p with
  | String _ (String d _) => String d EmptyString
  | _ => EmptyString
  end.

(** The loop of [parse_string]: the characters from [*str] up to the place
    where the token ends, and the rest of the line from there; [None] when the
    loop runs off the end of the line behind a backslash. *)
Fixpoint parse_string_loop (pch : string) (end_ : ascii) (cnt idx : Z)
  : option (string * string) :=
  match pch with
  | EmptyString => Some (EmptyString, EmptyString)
  | String c r =>
      let idx' := if (c =? end_)%char then idx + 1 else idx in
      if (c =? end_)%char && (cnt =? idx') then Some (EmptyString, pch)
      else if (c =? "\")%char then
        match r with
        | EmptyString => None
        | String c2 r2 =>
            match parse_string_loop r2 end_ cnt idx' with
            | Some (tok, rest) => Some (String c (String c2 tok), rest)
            | None => None
            end
        end
      else
        match parse_string_loop r end_ cnt idx' with
        | Some (tok, rest) => Some (String c tok, rest)
        | None => None
        end
  end.

(** [parse_string (&str, delims, cnt)]: the token and the new [*str], or
    [None] for [NULL], in which case [*str] is not moved. *)
Definition parse_string (str delims : string) (cnt : Z)
  : option (string * string) :=
  let scan (end_ : ascii) :=
    match parse_string_loop str end_ cnt 0 with
    | Some (tok, rest) => Some (trim_str tok, rest)
    | None => None
    end in
  if (deref delims =? NUL)%char then scan NUL
  else match strpbrk str delims with
       | None => None
       | Some p => scan (deref p)
       end.

Definition find_alpha (str : string) : string := ltrim str.

Fixpoint find_alpha_count (str : string) : Z :=
  match str with
  | EmptyString => 0
  | String c r => if isspace c then 1 + find_alpha_count r else 0
  end.

Definition spec_err (logitem : GLogItem) (code : Z) (spec : ascii)
  (tkn : option string) : Z * GLogItem :=
  let s := String spec EmptyString in
  let t := match tkn with Some t => t | None => "-" end in
  let err :=
    if code =? ERR_SPEC_TOKN_NUL
    then Some ("Token for '%" ++ s ++ "' specifier is NULL.")
    else if code =? ERR_SPEC_TOKN_INV
    then Some ("Token '" ++ t ++ "' doesn't match specifier '%" ++ s ++ "'")
    else if code =? ERR_SPEC_SFMT_MIS
    then Some ("Missing braces '" ++ t
               ++ "' and ignore chars for specifier '%" ++ s ++ "'")
    else if code =? ERR_SPEC_LINE_INV
    then Some "Incompatible format due to early parsed line ending '\0'."
    else None in
  (code, with_errstr logitem err).

Definition set_tm_dt_logitem (logitem : GLogItem) (t : tm) : GLogItem :=
  with_dt logitem
    {| tm_sec := tm_sec (dt logitem); tm_min := tm_min (dt logitem);
       tm_hour := tm_hour (dt logitem); tm_mday := tm_mday t;
       tm_mon := tm_mon t; tm_year := tm_year t;
       tm_wday := tm_wday (dt logitem); tm_yday := tm_yday (dt logitem);
       tm_isdst := tm_isdst (dt logitem);
       tm_gmtoff := tm_gmtoff (dt logitem) |}.

Definition set_tm_tm_logitem (logitem : GLogItem) (t : tm) : GLogItem :=
  with_dt logitem
    {| tm_sec := tm_sec t; tm_min := tm_min t; tm_hour := tm_hour t;
       tm_mday := tm_mday (dt logitem); tm_mon := tm_mon (dt logitem);
       tm_year := tm_year (dt logitem); tm_wday := tm_wday (dt logitem);
       tm_yday := tm_yday (dt logitem); tm_isdst := tm_isdst (dt logitem);
       tm_gmtoff := tm_gmtoff (dt logitem) |}.

(** [set_numeric_date]: [FATAL] when the date is not a number. *)
Definition set_numeric_date (date : string) : outcome Z :=
  let res := str2int date in
  if res =? -1 then Exits else Returns (to_uint32 res).

(** [handle_default_case_token]: the new [*str]; the function returns 0. *)
Definition handle_default_case_token (str p : string) : string :=
  match strchr str (deref (next p)) with
  | Some pch => pch
  | None => str
  end.

(** ** The C library

    What the parser takes from the C library for addresses, dates and
    floating-point numbers. *)
Record CLibrary : Type := mk_libc {
  (** [inet_pton (AF_INET, str, _) == 1] *)
  inet_pton4 : string -> bool;
  (** [inet_pton (AF_INET6, str, _) == 1] *)
  inet_pton6 : string -> bool;
  (** [strptime (str, fmt, tm)]: [None] for [NULL], else the end pointer and
      the fields read into [tm]. *)
  strptime : string -> string -> tm -> option (string * tm);
  (** [localtime_r] under the time zone that [set_tz] installs. *)
  localtime_r : option string -> Z -> tm;
  timegm : tm -> Z;
  (** [strftime (buf, max, fmt, tm)]: the text left in [buf], empty when the
      call returns 0. *)
  strftime : Z -> string -> tm -> string;
  strtod : string -> strtod_result
}.

(** ** The parser

    The parser reads the global [conf] and calls the C library [libc]; the
    table [ht_json_logfmt] that the configuration fills and the JSON event
    loop [parse_json_string] are the other two variables of this section. *)
Section Parser.

Variable conf : GConf.
Variable libc : CLibrary.
(** The specifier registered for a JSON key, [ht_get_json_logfmt]. *)
Variable ht_json_logfmt : string -> option string.
(** [parse_json_string (ptr_data, str, cb)]. *)
Variable parse_json_string :
  (GLogItem -> option string -> option string -> outcome (Z * GLogItem)) ->
  GLogItem -> string -> outcome (Z * GLogItem).

Definition tm2time (src : tm) : Z := timegm libc src - tm_gmtoff src.

(** [str_to_time (str, fmt, &tm, tz)]: the return value and [tm]. *)
Definition str_to_time (str fmt : string) (t : tm) (tz : bool) : Z * tm :=
  if (str =? "")%string || (fmt =? "")%string then (1, t)
  else
    let us := (fmt =? "%f")%string in
    let ms := (fmt =? "%*")%string in
    if us || ms then
      let r := strtoull str in
      if strto_failed r then (1, t)
      else
        let ts := strto_value r in
        let seconds := if us then ts / SECS else if ms then ts / MILS else ts in
        (0, localtime_r libc (tz_name conf) seconds)
    else
      match strptime libc str fmt t with
      | None => (1, t)
      | Some (end_, t') =>
          if negb (deref end_ =? NUL)%char then (1, t')
          else if negb tz || negb (is_some (tz_name conf)) then (0, t')
          else
            let time := tm2time t' in
            if time =? -1 then (0, t')
            else (0, localtime_r libc (tz_name conf) time)
      end.

Definition invalid_ipaddr (str : string) : Z * GTypeIP :=
  if (deref str =? NUL)%char then (1, TYPE_IPINV)
  else if inet_pton4 libc str then (0, TYPE_IPV4)
  else if inet_pton6 libc str then (0, TYPE_IPV6)
  else (1, TYPE_IPINV).

(** [set_date (&fdate, tm)] and [set_time (&ftime, tm)]: [None] when they
    return 1 and leave the member alone. *)
Definition set_date (t : tm) : option string :=
  let buf := strftime libc DATE_LEN (date_num_format conf) t in
  if (buf =? "")%string then None else Some buf.

Definition set_time (t : tm) : option string :=
  let buf := strftime libc TIME_LEN "%H:%M:%S" t in
  if (buf =? "")%string then None else Some buf.

(** *** Referrer *)

(** [extract_keyphrase (ref, &keyphrase)]: the return value, what is left of
    the buffer [ref], which the function cuts at the end of the query, and
    the key phrase. *)
Definition extract_keyphrase (ref : string) (keyphrase : option string)
  : Z * string * option string :=
  if negb (is_some (strstr ref "http://www.google."))
     && negb (is_some (strstr ref "http://webcache.googleusercontent.com/"))
     && negb (is_some (strstr ref "http://translate.googleusercontent.com/"))
     && negb (is_some (strstr ref "https://www.google."))
     && negb (is_some (strstr ref "https://webcache.googleusercontent.com/"))
     && negb (is_some (strstr ref "https://translate.googleusercontent.com/"))
  then (1, ref, keyphrase)
  else
    let found : option (string * bool) :=
      if is_some (strstr ref "/+&") then None
      else match strstr ref "/+" with
      | Some r => Some (drop 2 r, false)
      | None =>
      match strstr ref "q=cache:" with
      | Some r =>
          match strchr r "+" with
          | Some pch => Some (next pch, false)
          | None => Some (r, false)
          end
      | None =>
      match (match strstr ref "&q=" with
             | Some r => Some r
             | None => strstr ref "?q="
             end) with
      | Some r => Some (drop 3 r, false)
      | None =>
      match (match strstr ref "%26q%3D" with
             | Some r => Some r
             | None => strstr ref "%3Fq%3D"
             end) with
      | Some r => Some (drop 7 r, true)
      | None => None
      end end end end in
    match found with
    | None => (1, ref, keyphrase)
    | Some (r, encoded) =>
        (* [*ptr = '\0'] cuts both [r] and the buffer [ref] it points into *)
        let cut := if encoded then strstr r "%26" else strchr r "&" in
        let keep (s : string) :=
          match cut with
          | Some ptr => take (String.length s - String.length ptr) s
          | None => s
          end in
        match decode_url conf (Some (keep r)) with
        | None => (1, keep ref, keyphrase)
        | Some referer =>
            if (deref referer =? NUL)%char then (1, keep ref, keyphrase)
            else (0, keep ref, Some (trim_str (char_replace referer "+" " ")))
        end
    end.

(** [extract_referer_site (referer, host)]: the return value and the buffer
    [host]. *)
Definition extract_referer_site (referer : string) (host : string)
  : Z * string :=
  if (deref referer =? NUL)%char then (1, host)
  else
    match strstr referer "//" with
    | None => (1, host)
    | Some b =>
        let begin := drop 2 b in
        if (String.length begin =? 0)%nat then (1, host)
        else
          let len :=
            match strpbrk begin "/?" with
            | Some e => (String.length begin - String.length e)%nat
            | None => String.length begin
            end in
          if (len =? 0)%nat then (1, host)
          else
            let len := if (REF_SITE_LEN <=? len)%nat then REF_SITE_LEN else len in
            (0, take len begin)
    end.

(** *** Request line *)

(** [parse_req (line, &method, &protocol)]: the request, and the two members
    as the call leaves them. *)
Definition parse_req (line : string) (meth0 proto0 : option string)
  : string * option string * option string :=
  let finish (request : string) (m p : option string) :=
    match decode_url conf (Some request) with
    | None => (request, m, p)
    | Some dreq =>
        if (deref dreq =? NUL)%char then (request, m, p) else (dreq, m, p)
    end in
  match extract_method line with
  | None => finish line meth0 proto0
  | Some meth =>
      let req := drop (String.length meth) line in
      match strrchr req " " with
      | None => ("-", meth0, proto0)
      | Some sp =>
          let ptr := next sp in
          match extract_protocol ptr with
          | None => ("-", meth0, proto0)
          | Some proto =>
              let req := next req in
              let rlen := Z.of_nat (String.length req)
                          - Z.of_nat (String.length ptr) in
              if rlen <=? 0 then ("-", meth0, proto0)
              else
                finish (take (Z.to_nat rlen) req)
                  (if append_method conf then Some (strtoupper meth)
                   else meth0)
                  (if append_protocol conf then Some (strtoupper proto)
                   else proto0)
          end
      end
  end.

(** *** The specifiers *)

Definition spec_result : Type := outcome (Z * GLogItem * string).

(** [return handle_default_case_token (str, p);] *)
Definition skip_token (logitem : GLogItem) (str p : string) : spec_result :=
  Returns (0, logitem, handle_default_case_token str p).

(** [return spec_err (logitem, ERR_SPEC_TOKN_NUL, *p, NULL);] *)
Definition token_null (logitem : GLogItem) (str p : string) : spec_result :=
  let '(code, l) := spec_err logitem ERR_SPEC_TOKN_NUL (deref p) None in
  Returns (code, l, str).

(** [spec_err (logitem, ERR_SPEC_TOKN_INV, *p, tkn); free (tkn); return 1;] *)
Definition token_invalid (logitem : GLogItem) (str p tkn : string)
  : spec_result :=
  let '(_, l) := spec_err logitem ERR_SPEC_TOKN_INV (deref p) (Some tkn) in
  Returns (1, l, str).

(** The conversion [logitem->serve_time = (serve_secs > 0) ? serve_secs * k : 0]. *)
Definition usecs_of_double (serve_secs : double) (k : Z) : option Z :=
  if double_gt0 serve_secs
  then double_to_u64 (double_mul serve_secs (double_of_u64 k))
  else Some 0.

Definition store_serve_time (logitem : GLogItem) (str : string)
  (us : option Z) : spec_result :=
  match us with
  | Some v => Returns (0, with_serve_time logitem v, str)
  | None => Undefined
  end.

(** [case 'd'] *)
Definition spec_date (logitem : GLogItem) (str p end_ : string)
  : spec_result :=
  if is_some (date logitem) then skip_token logitem str p
  else
    let dfmt := date_format conf in
    let fmtspcs := count_matches dfmt " " in
    let dspc :=
      if fmtspcs =? 0 then 0
      else match strchr str " " with
           | Some pch => find_alpha_count pch
           | None => 0
           end in
    match parse_string str end_ (Z.max dspc fmtspcs + 1) with
    | None => token_null logitem str p
    | Some (tkn, str') =>
        let '(rc, t) := str_to_time tkn dfmt (dt logitem) true in
        if negb (rc =? 0) then token_invalid logitem str' p tkn
        else match set_date t with
        | None => token_invalid logitem str' p tkn
        | Some d =>
            let l := with_date logitem (Some d) in
            nd <- set_numeric_date d ;;
            Returns (0, set_tm_dt_logitem (with_numdate l nd) t, str')
        end
    end.

(** [case 't'] *)
Definition spec_time (logitem : GLogItem) (str p end_ : string)
  : spec_result :=
  if is_some (time logitem) then skip_token logitem str p
  else
    match parse_string str end_ 1 with
    | None => token_null logitem str p
    | Some (tkn, str') =>
        let '(rc, t) := str_to_time tkn (time_format conf) (dt logitem) true in
        if negb (rc =? 0) then token_invalid logitem str' p tkn
        else match set_time t with
        | None => token_invalid logitem str' p tkn
        | Some ft =>
            Returns (0, set_tm_tm_logitem (with_time logitem (Some ft)) t, str')
        end
    end.

(** [case 'x'] *)
Definition spec_datetime (logitem : GLogItem) (str p end_ : string)
  : spec_result :=
  if is_some (time logitem) && is_some (date logitem)
  then skip_token logitem str p
  else
    match parse_string str end_ 1 with
    | None => token_null logitem str p
    | Some (tkn, str') =>
        let '(rc, t) := str_to_time tkn (time_format conf) (dt logitem) true in
        if negb (rc =? 0) then token_invalid logitem str' p tkn
        else match set_date t with
        | None => token_invalid logitem str' p tkn
        | Some d =>
            let l := with_date logitem (Some d) in
            match set_time t with
            | None => token_invalid l str' p tkn
            | Some ft =>
                let l := with_time l (Some ft) in
                nd <- set_numeric_date d ;;
                Returns (0, set_tm_tm_logitem
                              (set_tm_dt_logitem (with_numdate l nd) t) t,
                         str')
            end
        end
    end.

(** The cases that store the token as it is: ['v'], ['e'], ['k'], ['K'] and
    ['M']. *)
Definition spec_plain (get : GLogItem -> option string)
  (set : GLogItem -> option string -> GLogItem)
  (logitem : GLogItem) (str p end_ : string) : spec_result :=
  if is_some (get logitem) then skip_token logitem str p
  else
    match parse_string str end_ 1 with
    | None => token_null logitem str p
    | Some (tkn, str') => Returns (0, set logitem (Some tkn), str')
    end.

(** [case 'C'] *)
Definition spec_cache_status (logitem : GLogItem) (str p end_ : string)
  : spec_result :=
  if is_some (cache_status logitem) then skip_token logitem str p
  else
    match parse_string str end_ 1 with
    | None => token_null logitem str p
    | Some (tkn, str') =>
        if is_cache_hit tkn
        then Returns (0, with_cache_status logitem (Some tkn), str')
        else Returns (0, logitem, str')
    end.

(** The opening of [case 'h'], where square brackets are possible: the new
    [*str] and the delimiter. *)
Definition host_brackets (str end_ : string) : string * string :=
  if (deref str =? "[")%char
  then (next str, if negb (deref (next str) =? NUL)%char then "]" else end_)
  else (str, end_).

(** [case 'h'] *)
Definition spec_host (logitem : GLogItem) (str p end_ : string)
  : spec_result :=
  if is_some (host logitem) then skip_token logitem str p
  else
    let '(str, end_) := host_brackets str end_ in
    match parse_string str end_ 1 with
    | None => token_null logitem str p
    | Some (tkn, str') =>
        let '(bad, l) :=
          if negb (no_ip_validation conf)
          then let '(rc, ipvx) := invalid_ipaddr tkn in
               (negb (rc =? 0), with_type_ip logitem ipvx)
          else (false, logitem) in
        if bad then token_invalid l str' p tkn
        else if no_ip_validation conf && (deref tkn =? NUL)%char
        then token_invalid l str' p tkn
        else Returns (0, with_host l (Some tkn), str')
    end.

(** [case 'm'] *)
Definition spec_method (logitem : GLogItem) (str p end_ : string)
  : spec_result :=
  if is_some (method logitem) then skip_token logitem str p
  else
    match parse_string str end_ 1 with
    | None => token_null logitem str p
    | Some (tkn, str') =>
        match extract_method tkn with
        | None => token_invalid logitem str' p tkn
        | Some meth => Returns (0, with_method logitem (Some meth), str')
        end
    end.

(** [case 'U'] *)
Definition spec_request_url (logitem : GLogItem) (str p end_ : string)
  : spec_result :=
  if is_some (req logitem) then skip_token logitem str p
  else
    match parse_string str end_ 1 with
    | None => token_null logitem str p
    | Some (tkn, str') =>
        if (deref tkn =? NUL)%char then token_null logitem str' p
        else match decode_url conf (Some tkn) with
        | None => token_invalid logitem str' p tkn
        | Some r => Returns (0, with_req logitem (Some r), str')
        end
    end.

(** [case 'q'] *)
Definition spec_query (logitem : GLogItem) (str p end_ : string)
  : spec_result :=
  if is_some (qstr logitem) then skip_token logitem str p
  else
    match parse_string str end_ 1 with
    | None => Returns (0, logitem, str)
    | Some (tkn, str') =>
        if (deref tkn =? NUL)%char then Returns (0, logitem, str')
        else match decode_url conf (Some tkn) with
        | None => token_invalid logitem str' p tkn
        | Some q => Returns (0, with_qstr logitem (Some q), str')
        end
    end.

(** [case 'H'] *)
Definition spec_protocol (logitem : GLogItem) (str p end_ : string)
  : spec_result :=
  if is_some (protocol logitem) then skip_token logitem str p
  else
    match parse_string str end_ 1 with
    | None => token_null logitem str p
    | Some (tkn, str') =>
        match extract_protocol tkn with
        | None => token_invalid logitem str' p tkn
        | Some proto => Returns (0, with_protocol logitem (Some proto), str')
        end
    end.

(** [case 'r'] *)
Definition spec_request (logitem : GLogItem) (str p end_ : string)
  : spec_result :=
  if is_some (req logitem) then skip_token logitem str p
  else
    match parse_string str end_ 1 with
    | None => token_null logitem str p
    | Some (tkn, str') =>
        let '(r, m, pr) := parse_req tkn (method logitem) (protocol logitem) in
        Returns (0, with_req (with_protocol (with_method logitem m) pr)
                      (Some r), str')
    end.

(** [case 's'] *)
Definition spec_status (logitem : GLogItem) (str p end_ : string)
  : spec_result :=
  if 0 <=? status logitem then skip_token logitem str p
  else
    match parse_string str end_ 1 with
    | None => token_null logitem str p
    | Some (tkn, str') =>
        let r := strtol tkn in
        let l := with_status logitem (to_int (strto_value r)) in
        if strto_failed r
           || (negb (no_strict_status conf)
               && negb (is_valid_http_status (status l)))
        then token_invalid l str' p tkn
        else Returns (0, l, str')
    end.

(** [case 'b'] *)
Definition spec_size (logitem : GLogItem) (str p end_ : string)
  : spec_result :=
  if negb (resp_size logitem =? 0) then skip_token logitem str p
  else
    match parse_string str end_ 1 with
    | None => token_null logitem str p
    | Some (tkn, str') =>
        let r := strtoull tkn in
        let bandw := if strto_failed r then 0 else strto_value r in
        Returns (0, with_resp_size logitem bandw, str')
    end.

(** [case 'R'] *)
Definition spec_referrer (logitem : GLogItem) (str p end_ : string)
  : spec_result :=
  if is_some (ref logitem) then skip_token logitem str p
  else
    let '(tkn, str') :=
      match parse_string str end_ 1 with
      | None => ("-", str)
      | Some (tkn, str') => (tkn, str')
      end in
    let tkn := if (deref tkn =? NUL)%char then "-" else tkn in
    if negb (tkn =? "-")%string then
      let '(_, tkn, k) := extract_keyphrase tkn (keyphrase logitem) in
      let '(_, s) := extract_referer_site tkn (site logitem) in
      Returns (0, with_ref (with_site (with_keyphrase logitem k) s) (Some tkn),
               str')
    else Returns (0, with_ref logitem (Some tkn), str').

(** [case 'u'] *)
Definition spec_agent (logitem : GLogItem) (str p end_ : string)
  : spec_result :=
  if is_some (agent logitem) then skip_token logitem str p
  else
    match parse_string str end_ 1 with
    | Some (tkn, str') =>
        if negb (deref tkn =? NUL)%char
        then Returns (0, with_agent logitem (decode_url conf (Some tkn)), str')
        else Returns (0, with_agent logitem (Some "-"), str')
    | None => Returns (0, with_agent logitem (Some "-"), str)
    end.

(** [case 'L'] *)
Definition spec_serve_msecs (logitem : GLogItem) (str p end_ : string)
  : spec_result :=
  if negb (serve_time logitem =? 0) then skip_token logitem str p
  else
    match parse_string str end_ 1 with
    | None => token_null logitem str p
    | Some (tkn, str') =>
        let r := strtoull tkn in
        let serve_secs :=
          if strto_failed r then double_of_u64 0
          else double_of_u64 (strto_value r) in
        store_serve_time logitem str' (usecs_of_double serve_secs MILS)
    end.

(** [case 'T'] *)
Definition spec_serve_secs (logitem : GLogItem) (str p end_ : string)
  : spec_result :=
  if negb (serve_time logitem =? 0) then skip_token logitem str p
  else
    match parse_string str end_ 1 with
    | None => token_null logitem str p
    | Some (tkn, str') =>
        let serve_secs :=
          if is_some (strchr tkn ".") then
            let r := strtod libc tkn in
            if negb (strtod_conv r)
               || negb (deref (strtod_end r) =? NUL)%char
               || strtod_erange r
            then double_of_u64 0 else strtod_value r
          else
            let r := strtoull tkn in
            if strto_failed r then double_of_u64 0
            else double_of_u64 (strto_value r) in
        store_serve_time logitem str' (usecs_of_double serve_secs SECS)
    end.

(** [case 'D'] *)
Definition spec_serve_usecs (logitem : GLogItem) (str p end_ : string)
  : spec_result :=
  if negb (serve_time logitem =? 0) then skip_token logitem str p
  else
    match parse_string str end_ 1 with
    | None => token_null logitem str p
    | Some (tkn, str') =>
        let r := strtoull tkn in
        let serve_time := if strto_failed r then 0 else strto_value r in
        Returns (0, with_serve_time logitem serve_time, str')
    end.

(** [case 'n'] *)
Definition spec_serve_nsecs (logitem : GLogItem) (str p end_ : string)
  : spec_result :=
  if negb (serve_time logitem =? 0) then skip_token logitem str p
  else
    match parse_string str end_ 1 with
    | None => token_null logitem str p
    | Some (tkn, str') =>
        let r := strtoull tkn in
        let serve_time := if strto_failed r then 0 else strto_value r in
        Returns (0,
                 with_serve_time logitem
                   (if 0 <? serve_time then serve_time / MILS else 0),
                 str')
    end.

(** [parse_specifier (logitem, &str, p, end)]: the return value, the record
    and the new [*str]. *)
Definition parse_specifier (logitem : GLogItem) (str p end_ : string)
  : spec_result :=
  let c := deref p in
  if (c =? "d")%char then spec_date logitem str p end_
  else if (c =? "t")%char then spec_time logitem str p end_
  else if (c =? "x")%char then spec_datetime logitem str p end_
  else if (c =? "v")%char then spec_plain vhost with_vhost logitem str p end_
  else if (c =? "e")%char then spec_plain userid with_userid logitem str p end_
  else if (c =? "C")%char then spec_cache_status logitem str p end_
  else if (c =? "h")%char then spec_host logitem str p end_
  else if (c =? "m")%char then spec_method logitem str p end_
  else if (c =? "U")%char then spec_request_url logitem str p end_
  else if (c =? "q")%char then spec_query logitem str p end_
  else if (c =? "H")%char then spec_protocol logitem str p end_
  else if (c =? "r")%char then spec_request logitem str p end_
  else if (c =? "s")%char then spec_status logitem str p end_
  else if (c =? "b")%char then spec_size logitem str p end_
  else if (c =? "R")%char then spec_referrer logitem str p end_
  else if (c =? "u")%char then spec_agent logitem str p end_
  else if (c =? "L")%char then spec_serve_msecs logitem str p end_
  else if (c =? "T")%char then spec_serve_secs logitem str p end_
  else if (c =? "D")%char then spec_serve_usecs logitem str p end_
  else if (c =? "n")%char then spec_serve_nsecs logitem str p end_
  else if (c =? "k")%char
  then spec_plain tls_cypher with_tls_cypher logitem str p end_
  else if (c =? "K")%char
  then spec_plain tls_type with_tls_type logitem str p end_
  else if (c =? "M")%char
  then spec_plain mime_type with_mime_type logitem str p end_
  else if (c =? "~")%char then Returns (0, logitem, find_alpha str)
  else skip_token logitem str p.

(** *** The special specifier [~h] (X-Forwarded-For) *)

(** The scan of [extract_braces]: the last unescaped opening brace seen
    ([b1]) and the first unescaped closing brace ([b2]). *)
Fixpoint extract_braces_scan (s : string) (b1 : option string) (esc : bool)
  : option string * option string :=
  match s with
  | EmptyString => (b1, None)
  | String c r =>
      if (c =? "\")%char then extract_braces_scan r b1 true
      else if (c =? "{")%char && negb esc then extract_braces_scan r (Some s) esc
      else if (c =? "}")%char && negb esc then (b1, Some s)
      else extract_braces_scan r b1 false
  end.

(** [extract_braces (&p)]: the reject set and the new [*p]. *)
Definition extract_braces (p : string) : option (string * string) :=
  match extract_braces_scan p None false with
  | (Some b1, Some b2) =>
      let len := Z.of_nat (String.length (next b1))
                 - Z.of_nat (String.length b2) in
      if len <=? 0 then None
      else Some (take (Z.to_nat len) (next b1), next b2)
  | _ => None
  end.

(** The loop of [set_xff_host].  [ptr] and [str] meet again at every turn of
    the loop, so one cursor [s] stands for both; [skip] counts the characters
    of the current token that [str += len] still has to pass. *)
Fixpoint set_xff_host_loop (skips : string) (out : bool) (logitem : GLogItem)
  (s : string) (skip : nat) (idx : Z) : GLogItem :=
  match s with
  | EmptyString => logitem
  | String _ r =>
      match skip with
      | S k => set_xff_host_loop skips out logitem r k idx
      | O =>
          match strcspn s skips with
          | O => set_xff_host_loop skips out logitem r O (idx + 1)
          | S k =>
              if (idx <? Z.of_nat (String.length skips))
                 && is_some (host logitem)
              then logitem
              else
                let tkn := trim_str (take (S k) s) in
                let '(invalid_ip, ipvx) := invalid_ipaddr tkn in
                if is_some (host logitem) && negb (invalid_ip =? 0)
                then logitem
                else
                  let l :=
                    if negb (is_some (host logitem)) && (invalid_ip =? 0)
                    then with_type_ip (with_host logitem (Some tkn)) ipvx
                    else logitem in
                  if is_some (host l) && out then l
                  else set_xff_host_loop skips out l r k 0
          end
      end
  end.

Definition set_xff_host (logitem : GLogItem) (str skips : string) (out : bool)
  : Z * GLogItem :=
  let l := set_xff_host_loop skips out logitem str O 0 in
  (if is_some (host l) then 0 else 1, l).

(** [find_xff_host (logitem, &str, &p)]: the return value, the record, the
    new [*str] and the new [*p].  When the token that [parse_string] cut
    reaches the end of the line, the increment of [*str] leaves the line. *)
Definition find_xff_host (logitem : GLogItem) (str p : string)
  : outcome (Z * GLogItem * string * string) :=
  match extract_braces p with
  | None =>
      let '(code, l) :=
        spec_err logitem ERR_SPEC_SFMT_MIS (deref p) (Some "{}") in
      Returns (code, l, str, p)
  | Some (skips, p') =>
      let c := deref p' in
      if negb (is_some (strchr skips c)) && is_some (strchr str c) then
        match parse_string str (String c EmptyString) 1 with
        | None => Returns (0, logitem, str, p')
        | Some (extract, str') =>
            let '(res, l) := set_xff_host logitem extract skips true in
            if (deref str' =? NUL)%char then Undefined
            else Returns (res, l, next str', p')
        end
      else
        let '(res, l) := set_xff_host logitem str skips false in
        Returns (res, l, str, p')
  end.

Definition special_specifier (logitem : GLogItem) (str p : string)
  : outcome (Z * GLogItem * string * string) :=
  if (deref p =? "h")%char then
    '(rc, l, str', p') <- find_xff_host logitem str p ;;
    if negb (rc =? 0) then
      let '(code, l') := spec_err l ERR_SPEC_TOKN_NUL "h" None in
      Returns (code, l', str', p')
    else Returns (0, l, str', p')
  else Returns (0, logitem, str, p).

(** *** The tokenizer *)

(** The [for] loop of [parse_format] at the template position [p].  [skip]
    counts the template characters that [special_specifier] moved [p] over and
    that the loop has left to pass. *)
Fixpoint parse_format_loop (logitem : GLogItem) (str p : string) (skip : nat)
  (perc tilde : Z) : outcome (Z * GLogItem) :=
  match p with
  | EmptyString => Returns (0, logitem)
  | String c rest =>
      match skip with
      | S k => parse_format_loop logitem str rest k perc tilde
      | O =>
          if (c =? "%")%char
          then parse_format_loop logitem str rest O (perc + 1) tilde
          else if (c =? "~")%char && (perc =? 0)
          then parse_format_loop logitem str rest O perc (tilde + 1)
          else if (deref str =? NUL)%char
          then Returns (spec_err logitem ERR_SPEC_LINE_INV "-" None)
          else if (deref str =? "010")%char
          then Returns (0, logitem)
          else if negb (tilde =? 0) && negb (c =? NUL)%char then
            if (deref str =? NUL)%char then Returns (0, logitem)
            else
              '(rc, l, str', p') <- special_specifier logitem str p ;;
              if rc =? 1 then Returns (1, l)
              else parse_format_loop l str' rest
                     (String.length p - String.length p') perc 0
          (* %h *)
          else if negb (perc =? 0) && negb (c =? NUL)%char then
            if (deref str =? NUL)%char then Returns (0, logitem)
            else
              '(ret, l, str') <- parse_specifier logitem str p (get_delim p) ;;
              if negb (ret =? 0) then Returns (ret, l)
              else parse_format_loop l str' rest O 0 tilde
          else if negb (perc =? 0) && isspace c then Returns (1, logitem)
          else parse_format_loop logitem (next str) rest O perc tilde
      end
  end.

(** [parse_format (logitem, str, lfmt)]: the return value and the record. *)
Definition parse_format (logitem : GLogItem) (str lfmt : string)
  : outcome (Z * GLogItem) :=
  if (deref str =? NUL)%char then Returns (1, logitem)
  else parse_format_loop logitem str lfmt O 0 0.

(** *** The record assembler *)

Definition valid_line (line : string) : Z :=
  if (deref line =? NUL)%char then 1
  else if (deref line =? "#")%char || (deref line =? "010")%char then 1
  else 0.

Definition verify_missing_fields (logitem : GLogItem) : Z * GLogItem :=
  let l :=
    if negb (is_some (host logitem))
    then with_errstr logitem (Some "IPv4/6 is required.")
    else if negb (is_some (date logitem))
    then with_errstr logitem (Some "A valid date is required.")
    else if negb (is_some (req logitem))
    then with_errstr logitem (Some "A request is required.")
    else logitem in
  (if is_some (errstr l) then 1 else 0, l).

Definition ht_get_json_logfmt (key : string) : option string :=
  ht_json_logfmt key.

Definition parse_json_specifier (logitem : GLogItem) (key str : option string)
  : outcome (Z * GLogItem) :=
  match key, str with
  | Some key, Some str =>
      (* empty JSON value *)
      if (String.length str =? 0)%nat then Returns (0, logitem)
      else match ht_get_json_logfmt key with
           | None => Returns (0, logitem)
           | Some spec => parse_format logitem str spec
           end
  | _, _ => Returns (0, logitem)
  end.

Definition parse_json_format (logitem : GLogItem) (str : string)
  : outcome (Z * GLogItem) :=
  parse_json_string parse_json_specifier logitem str.

(** [parse_line (line, &logitem_out)]: the return value and the record stored
    in [*logitem_out], which is left alone ([None]) on every error path,
    where [cleanup_logitem] frees the record. *)
Definition parse_line (line : string) : outcome (Z * option GLogItem) :=
  (* soft ignore these lines *)
  if negb (valid_line line =? 0) then Returns (-1, None)
  else
    let logitem := init_log_item in
    '(ret, logitem) <-
      (if is_json_log_format conf then parse_json_format logitem line
       else parse_format logitem line (log_format conf)) ;;
    (* invalid log line (format issue) *)
    if negb (ret =? 0) then Returns (ret, None)
    else
      (* valid format but missing fields *)
      let '(ret, logitem) := verify_missing_fields logitem in
      if negb (ret =? 0) then Returns (ret, None)
      else
        (* agent will be null in cases where %u is not specified *)
        let logitem :=
          if negb (is_some (agent logitem))
          then with_agent logitem (Some "-") else logitem in
        Returns (ret, Some logitem).

End Parser.

(** ** Strings of the configuration *)

(** [append_str (&dest, src)]: the new [*dest] and the length returned. *)
Definition append_str (dest src : string) : string * Z :=
  (dest ++ src, Z.of_nat (String.length dest + String.length src)).

Definition has_timestamp (fmt : string) : bool :=
  (fmt =? "%s")%string || (fmt =? "%f")%string.

(** The loop of [unescape_str]: what is written to [dest]. *)
Fixpoint unescape_str_loop (p : string) : string :=
  match p with
  | EmptyString => EmptyString
  | String c r =>
      if (c =? "\")%char then
        match r with
        | EmptyString => EmptyString
        | String e r' =>
            String (if (e =? "n")%char then "010"%char
                    else if (e =? "r")%char then "013"%char
                    else if (e =? "t")%char then "009"%char
                    else e)
                   (unescape_str_loop r')
        end
      else String c (unescape_str_loop r)
  end.

Definition unescape_str (src : option string) : option string :=
  match src with
  | None => None
  | Some EmptyString => None
  | Some s => Some (unescape_str_loop s)
  end.

(** ** The JSON reader

    The pull parser that the JSON mode reads a line with.  Of [json_stream]
    the members [lineno] and [errmsg], which the program writes and never
    reads, are left out; [realloc] is assumed to succeed, so [push] and
    [pushchar] do not fail.  Plain [char] is signed, as on x86-64: a byte
    above 127 of the buffer reaches the reader as a negative [int]. *)
Module Json.

Inductive json_type : Type :=
  | JSON_ERROR
  | JSON_DONE
  | JSON_OBJECT
  | JSON_OBJECT_END
  | JSON_ARRAY
  | JSON_ARRAY_END
  | JSON_STRING
  | JSON_NUMBER
  | JSON_TRUE
  | JSON_FALSE
  | JSON_NULL.

Definition json_type_eqb (a b : json_type) : bool :=
  match a, b with
  | JSON_ERROR, JSON_ERROR | JSON_DONE, JSON_DONE
  | JSON_OBJECT, JSON_OBJECT | JSON_OBJECT_END, JSON_OBJECT_END
  | JSON_ARRAY, JSON_ARRAY | JSON_ARRAY_END, JSON_ARRAY_END
  | JSON_STRING, JSON_STRING | JSON_NUMBER, JSON_NUMBER
  | JSON_TRUE, JSON_TRUE | JSON_FALSE, JSON_FALSE
  | JSON_NULL, JSON_NULL => true
  | _, _ => false
  end.

Record json_stack : Type := mk_stack {
  type : json_type;
  count : Z
}.

(** [stack] holds [stack[stack_top]], ..., [stack[0]]: it is empty when
    [stack_top] is [(size_t)-1].  [data] holds the [string_fill] bytes of
    [data.string], and [source] the buffer from [position] on. *)
Record json_stream : Type := mk_json {
  stack : list json_stack;
  flag_error : bool;
  flag_streaming : bool;
  data : string;
  ntokens : Z;
  source : string
}.

Definition with_stack (json : json_stream) (v : list json_stack)
  : json_stream :=
  mk_json v (flag_error json) (flag_streaming json) (data json)
    (ntokens json) (source json).

Definition with_data (json : json_stream) (v : string) : json_stream :=
  mk_json (stack json) (flag_error json) (flag_streaming json) v
    (ntokens json) (source json).

Definition with_ntokens (json : json_stream) (v : Z) : json_stream :=
  mk_json (stack json) (flag_error json) (flag_streaming json) (data json)
    v (source json).

Definition with_source (json : json_stream) (v : string) : json_stream :=
  mk_json (stack json) (flag_error json) (flag_streaming json) (data json)
    (ntokens json) v.

Definition EOF : Z := -1.

(** The value of a [char] as an [int]. *)
Definition int_of_char (c : ascii) : Z :=
  if code c <? 128 then code c else code c - 256.

(** The macro [json_error]: the flag is raised (the message is not
    modelled). *)
Definition json_error (json : json_stream) : json_stream :=
  mk_json (stack json) true (flag_streaming json) (data json)
    (ntokens json) (source json).

Definition push (json : json_stream) (t : json_type)
  : json_type * json_stream :=
  (t, with_stack json (mk_stack t 0 :: stack json)).

(** [pop] is only called with an element on the stack. *)
Definition pop (json : json_stream) (c : Z) (expected : json_type)
  : json_type * json_stream :=
  match stack json with
  | top :: rest =>
      if negb (json_type_eqb (type top) expected)
      then (JSON_ERROR, json_error json)
      else (if json_type_eqb expected JSON_ARRAY
            then JSON_ARRAY_END else JSON_OBJECT_END,
            with_stack json rest)
  | [] => (JSON_ERROR, json_error json)
  end.

Definition buffer_peek (json : json_stream) : Z :=
  match source json with
  | EmptyString => EOF
  | String c _ => int_of_char c
  end.

Definition buffer_get (json : json_stream) : Z * json_stream :=
  match source json with
  | EmptyString => (EOF, json)
  | String c r => (int_of_char c, with_source json r)
  end.

Definition init (buffer : string) : json_stream :=
  {| stack := []; flag_error := false; flag_streaming := true;
     data := EmptyString; ntokens := 0; source := buffer |}.

Fixpoint is_match (json : json_stream) (pattern : string) (t : json_type)
  : json_type * json_stream :=
  match pattern with
  | EmptyString => (t, json)
  | String p rest =>
      let '(c, json) := buffer_get json in
      if negb (int_of_char p =? c) then (JSON_ERROR, json_error json)
      else is_match json rest t
  end.

(** [pushchar (json, c)], which returns 0. *)
Definition pushchar (json : json_stream) (c : Z) : json_stream :=
  with_data json (data json ++ String (chr c) EmptyString).

(** [init_string (json)], which returns 0. *)
Definition init_string (json : json_stream) : json_stream :=
  with_data json EmptyString.

Definition encode_utf8 (json : json_stream) (c : Z) : Z * json_stream :=
  if c <? 0x80 then (0, pushchar json c)
  else if c <? 0x0800 then
    let json := pushchar json (Z.lor (Z.land (Z.shiftr c 6) 0x1F) 0xC0) in
    let json := pushchar json (Z.lor (Z.land (Z.shiftr c 0) 0x3F) 0x80) in
    (0, json)
  else if c <? 0x010000 then
    if (0xd800 <=? c) && (c <=? 0xdfff) then (-1, json_error json)
    else
      let json := pushchar json (Z.lor (Z.land (Z.shiftr c 12) 0x0F) 0xE0) in
      let json := pushchar json (Z.lor (Z.land (Z.shiftr c 6) 0x3F) 0x80) in
      let json := pushchar json (Z.lor (Z.land (Z.shiftr c 0) 0x3F) 0x80) in
      (0, json)
  else if c <? 0x110000 then
    let json := pushchar json (Z.lor (Z.land (Z.shiftr c 18) 0x07) 0xF0) in
    let json := pushchar json (Z.lor (Z.land (Z.shiftr c 12) 0x3F) 0x80) in
    let json := pushchar json (Z.lor (Z.land (Z.shiftr c 6) 0x3F) 0x80) in
    let json := pushchar json (Z.lor (Z.land (Z.shiftr c 0) 0x3F) 0x80) in
    (0, json)
  else (-1, json_error json).

Definition hexchar (c : Z) : Z :=
  match c with
  | 48 => 0
  | 49 => 1
  | 50 => 2
  | 51 => 3
  | 52 => 4
  | 53 => 5
  | 54 => 6
  | 55 => 7
  | 56 => 8
  | 57 => 9
  | 97 | 65 => 10
  | 98 | 66 => 11
  | 99 | 67 => 12
  | 100 | 68 => 13
  | 101 | 69 => 14
  | 102 | 70 => 15
  | _ => -1
  end.

(** The loop of [read_unicode_cp], with [n] digits left to read. *)
Fixpoint read_unicode_cp_loop (n : nat) (shift cp : Z) (json : json_stream)
  : Z * json_stream :=
  match n with
  | O => (cp, json)
  | S k =>
      let '(c, json) := buffer_get json in
      if c =? EOF then (-1, json_error json)
      else
        let hc := hexchar c in
        if hc =? -1 then (-1, json_error json)
        else read_unicode_cp_loop k (shift - 4) (cp + hc * Z.shiftl 1 shift)
               json
  end.

Definition read_unicode_cp (json : json_stream) : Z * json_stream :=
  read_unicode_cp_loop 4 12 0 json.

Definition read_unicode (json : json_stream) : Z * json_stream :=
  let '(cp, json) := read_unicode_cp json in
  if cp =? -1 then (-1, json)
  else if (0xd800 <=? cp) && (cp <=? 0xdbff) then
    let h := cp in
    let '(c, json) := buffer_get json in
    if c =? EOF then (-1, json_error json)
    else if negb (c =? code "\") then (-1, json_error json)
    else
      let '(c, json) := buffer_get json in
      if c =? EOF then (-1, json_error json)
      else if negb (c =? code "u") then (-1, json_error json)
      else
        let '(l, json) := read_unicode_cp json in
        if l =? -1 then (-1, json)
        else if (l <? 0xdc00) || (0xdfff <? l) then (-1, json_error json)
        else
          encode_utf8 json ((h - 0xd800) * 0x400 + ((l - 0xdc00) + 0x10000))
  else if (0xdc00 <=? cp) && (cp <=? 0xdfff) then (-1, json_error json)
  else encode_utf8 json cp.

Definition read_escaped (json : json_stream) : Z * json_stream :=
  let '(c, json) := buffer_get json in
  if c =? EOF then (-1, json_error json)
  else if c =? code "u" then
    let '(r, json) := read_unicode json in
    if negb (r =? 0) then (-1, json) else (0, json)
  else if c =? code "\" then (0, pushchar json (code "\"))
  else if c =? code "b" then (0, pushchar json 8)
  else if c =? code "f" then (0, pushchar json 12)
  else if c =? code "n" then (0, pushchar json 10)
  else if c =? code "r" then (0, pushchar json 13)
  else if c =? code "t" then (0, pushchar json 9)
  else if c =? code "/" then (0, pushchar json (code "/"))
  else if c =? 34 then (0, pushchar json 34)
  else (-1, json_error json).

Definition char_needs_escaping (c : Z) : bool :=
  (0 <=? c) && ((c <? 0x20) || (c =? 0x22) || (c =? 0x5c)).

Definition utf8_seq_length (byte : Z) : Z :=
  let u := byte mod 256 in
  if u <? 0x80 then 1
  else if (0x80 <=? u) && (u <=? 0xBF) then 0
  else if (u =? 0xC0) || (u =? 0xC1) then 0
  else if (0xC2 <=? u) && (u <=? 0xDF) then 2
  else if (0xE0 <=? u) && (u <=? 0xEF) then 3
  else if (0xF0 <=? u) && (u <=? 0xF4) then 4
  else 0.

(** [is_legal_utf8 (bytes, length)], with the cases of the [switch] from
    the last one up, each falling through to the next. *)
Definition is_legal_utf8 (bytes : list Z) (length : Z) : bool :=
  let byte (i : nat) := nth i bytes 0 in
  let case1 :=
    if (0x80 <=? byte 0%nat) && (byte 0%nat <? 0xC2) then false
    else byte 0%nat <=? 0xF4 in
  let case2 :=
    let a := byte 1%nat in
    if byte 0%nat =? 0xE0 then
      if (a <? 0xA0) || (0xBF <? a) then false else case1
    else if byte 0%nat =? 0xED then
      if (a <? 0x80) || (0x9F <? a) then false else case1
    else if byte 0%nat =? 0xF0 then
      if (a <? 0x90) || (0xBF <? a) then false else case1
    else if byte 0%nat =? 0xF4 then
      if (a <? 0x80) || (0x8F <? a) then false else case1
    else
      if (a <? 0x80) || (0xBF <? a) then false else case1 in
  let case3 :=
    let a := byte 2%nat in
    if (a <? 0x80) || (0xBF <? a) then false else case2 in
  let case4 :=
    let a := byte 3%nat in
    if (a <? 0x80) || (0xBF <? a) then false else case3 in
  if length =? 0 then false
  else if length =? 4 then case4
  else if length =? 3 then case3
  else if length =? 2 then case2
  else if length =? 1 then case1
  else false.

(** The bytes that the first loop of [read_utf8] stores behind
    [buffer[0]]. *)
Fixpoint read_utf8_bytes (n : nat) (json : json_stream)
  : list Z * json_stream :=
  match n with
  | O => ([], json)
  | S k =>
      let '(c, json) := buffer_get json in
      let '(rest, json) := read_utf8_bytes k json in
      (c mod 256 :: rest, json)
  end.

Definition read_utf8 (json : json_stream) (next_char : Z) : Z * json_stream :=
  let count := utf8_seq_length next_char in
  if count =? 0 then (-1, json_error json)
  else
    let '(rest, json) := read_utf8_bytes (Z.to_nat (count - 1)) json in
    let buffer := next_char mod 256 :: rest in
    if negb (is_legal_utf8 buffer count) then (-1, json_error json)
    else (0, fold_left pushchar buffer json).

(** The loop of [read_string].  Every turn takes a character from the
    source, so the loop ends within [S (length source)] turns; [None] says
    that [fuel] turns did not reach the end. *)
Fixpoint read_string_loop (fuel : nat) (json : json_stream)
  : option (json_type * json_stream) :=
  match fuel with
  | O => None
  | S fuel =>
      let '(c, json) := buffer_get json in
      if c =? EOF then Some (JSON_ERROR, json_error json)
      else if c =? 34 then Some (JSON_STRING, pushchar json 0)
      else if c =? code "\" then
        let '(r, json) := read_escaped json in
        if negb (r =? 0) then Some (JSON_ERROR, json)
        else read_string_loop fuel json
      else if 0x80 <=? to_uint32 c then
        let '(r, json) := read_utf8 json c in
        if negb (r =? 0) then Some (JSON_ERROR, json)
        else read_string_loop fuel json
      else if char_needs_escaping c then Some (JSON_ERROR, json_error json)
      else read_string_loop fuel (pushchar json c)
  end.

Definition read_string (json : json_stream) : json_type * json_stream :=
  let json := init_string json in
  match read_string_loop (S (String.length (source json))) json with
  | Some r => r
  | None => (JSON_ERROR, json_error json)
  end.

Definition is_digit (c : Z) : bool := (48 <=? c) && (c <=? 57).

(** The loop of [read_digits] over the source [src]: the number of digits
    read and the stream. *)
Fixpoint read_digits_loop (src : string) (json : json_stream) (nread : Z)
  : Z * json_stream :=
  match src with
  | EmptyString => (nread, with_source json src)
  | String c r =>
      if is_digit (int_of_char c)
      then read_digits_loop r (pushchar json (int_of_char c)) (nread + 1)
      else (nread, with_source json src)
  end.

Definition read_digits (json : json_stream) : Z * json_stream :=
  let '(nread, json) := read_digits_loop (source json) json 0 in
  if nread =? 0 then (-1, json_error json) else (0, json).

(** [read_number] from the test of the first digit on, for a [c] that is
    not the minus sign. *)
Definition read_number_digits (json : json_stream) (c : Z)
  : json_type * json_stream :=
  let '(failed, json) :=
    if is_some (strchr "123456789" (chr c)) then
      if is_digit (buffer_peek json) then
        let '(r, json) := read_digits json in (negb (r =? 0), json)
      else (false, json)
    else (false, json) in
  if failed then (JSON_ERROR, json)
  else
    (* Up to decimal or exponent has been read. *)
    let c := buffer_peek json in
    if negb (is_some (strchr ".eE" (chr c)))
    then (JSON_NUMBER, pushchar json 0)
    else
      let '(failed, json) :=
        if c =? code "." then
          let '(_, json) := buffer_get json in
          let json := pushchar json c in
          let '(r, json) := read_digits json in (negb (r =? 0), json)
        else (false, json) in
      if failed then (JSON_ERROR, json)
      else
        (* exponent *)
        let c := buffer_peek json in
        let '(failed, json) :=
          if (c =? code "e") || (c =? code "E") then
            let '(_, json) := buffer_get json in
            let json := pushchar json c in
            let c := buffer_peek json in
            if (c =? code "+") || (c =? code "-") then
              let '(_, json) := buffer_get json in
              let json := pushchar json c in
              let '(r, json) := read_digits json in (negb (r =? 0), json)
            else if is_digit c then
              let '(r, json) := read_digits json in (negb (r =? 0), json)
            else (true, json_error json)
          else (false, json) in
        if failed then (JSON_ERROR, json)
        else (JSON_NUMBER, pushchar json 0).

(** [read_number (json, c)]; behind a minus sign it calls itself with the
    digit that follows. *)
Definition read_number (json : json_stream) (c : Z)
  : json_type * json_stream :=
  let json := pushchar json c in
  if c =? code "-" then
    let '(c, json) := buffer_get json in
    if is_digit c then read_number_digits (pushchar json c) c
    else (JSON_ERROR, json_error json)
  else read_number_digits json c.

Definition json_isspace (c : Z) : bool :=
  (c =? 0x09) || (c =? 0x0a) || (c =? 0x0d) || (c =? 0x20).

(** The loop of [next] over the source [src]. *)
Fixpoint next_loop (src : string) (json : json_stream) : Z * json_stream :=
  match src with
  | EmptyString => (EOF, with_source json src)
  | String c r =>
      if json_isspace (int_of_char c) then next_loop r json
      else (int_of_char c, with_source json r)
  end.

(** Returns the next non-whitespace character in the stream. *)
Definition next (json : json_stream) : Z * json_stream :=
  next_loop (source json) json.

Definition read_value (json : json_stream) (c : Z)
  : json_type * json_stream :=
  let json := with_ntokens json (ntokens json + 1) in
  if c =? EOF then (JSON_ERROR, json_error json)
  else if c =? code "{" then push json JSON_OBJECT
  else if c =? code "[" then push json JSON_ARRAY
  else if c =? 34 then read_string json
  else if c =? code "n" then is_match json "ull" JSON_NULL
  else if c =? code "f" then is_match json "alse" JSON_FALSE
  else if c =? code "t" then is_match json "rue" JSON_TRUE
  else if is_digit c || (c =? code "-")
  then read_number (init_string json) c
  else (JSON_ERROR, json_error json).

(** [json->stack[json->stack_top].count++] *)
Definition count_incr (json : json_stream) : json_stream :=
  match stack json with
  | top :: rest => with_stack json (mk_stack (type top) (count top + 1) :: rest)
  | [] => json
  end.

(** The white space that [json_next] passes behind the last value when the
    stream is not a streaming one: the character it stops at, and the
    stream. *)
Fixpoint trailing_space (src : string) (json : json_stream)
  : Z * json_stream :=
  match src with
  | EmptyString => (EOF, with_source json src)
  | String c r =>
      if json_isspace (int_of_char c) then trailing_space r json
      else (int_of_char c, with_source json src)
  end.

Definition json_next (json : json_stream) : json_type * json_stream :=
  if flag_error json then (JSON_ERROR, json)
  else
    match stack json with
    | [] =>
        if 0 <? ntokens json then
          if negb (flag_streaming json) then
            let '(c, json) := trailing_space (source json) json in
            if negb (c =? EOF) then (JSON_ERROR, json_error json)
            else (JSON_DONE, json)
          else (JSON_DONE, json)
        else
          let '(c, json) := next json in
          if (c =? EOF) && flag_streaming json then (JSON_DONE, json)
          else read_value json c
    | top :: _ =>
        let '(c, json) := next json in
        if json_type_eqb (type top) JSON_ARRAY then
          if count top =? 0 then
            if c =? code "]" then pop json c JSON_ARRAY
            else read_value (count_incr json) c
          else if c =? code "," then
            let json := count_incr json in
            let '(c, json) := next json in
            read_value json c
          else if c =? code "]" then pop json c JSON_ARRAY
          else (JSON_ERROR, json_error json)
        else if json_type_eqb (type top) JSON_OBJECT then
          if count top =? 0 then
            if c =? code "}" then pop json c JSON_OBJECT
            else
              (* No member name/value pairs yet. *)
              let '(value, json) := read_value json c in
              if negb (json_type_eqb value JSON_STRING)
              then (JSON_ERROR, json_error json)
              else (value, count_incr json)
          else if Z.rem (count top) 2 =? 0 then
            (* Expecting comma followed by member name. *)
            if negb (c =? code ",") && negb (c =? code "}")
            then (JSON_ERROR, json_error json)
            else if c =? code "}" then pop json c JSON_OBJECT
            else
              let '(c, json) := next json in
              let '(value, json) := read_value json c in
              if negb (json_type_eqb value JSON_STRING)
              then (JSON_ERROR, json_error json)
              else (value, count_incr json)
          else if Z.rem (count top) 2 =? 1 then
            (* Expecting colon followed by value. *)
            if negb (c =? code ":") then (JSON_ERROR, json_error json)
            else
              let json := count_incr json in
              let '(c, json) := next json in
              read_value json c
          else (JSON_ERROR, json_error json)
        else (JSON_ERROR, json_error json)
    end.

(** [json_get_string (json, &length)]: the C string in [data.string]. *)
Definition json_get_string (json : json_stream) : string := cstr (data json).

(** [json_get_context (json, &count)]: the context and [*count], which is
    left as it was, [count], outside every object and array. *)
Definition json_get_context (json : json_stream) (count0 : Z)
  : json_type * Z :=
  match stack json with
  | [] => (JSON_DONE, count0)
  | top :: _ => (type top, count top)
  end.

Definition json_open_string (string : string) : json_stream := init string.

Definition json_set_streaming (json : json_stream) (streaming : bool)
  : json_stream :=
  mk_json (stack json) (flag_error json) streaming (data json)
    (ntokens json) (source json).

End Json.

(** ** The JSON mode *)

(** The loop of [dec_json_key], with [n] turns to go. *)
Fixpoint dec_json_key_loop (n : nat) (key : string) : string :=
  match n with
  | O => key
  | S k =>
      match strrchr key "." with
      | Some last_dot =>
          dec_json_key_loop k
            (take (String.length key - String.length last_dot) key)
      | None => EmptyString
      end
  end.

(** [dec_json_key (key, has_dot)]: the text left in [key]. *)
Definition dec_json_key (key : option string) (has_dot : Z) : option string :=
  match key with
  | None => None
  | Some k =>
      if has_dot <? 0 then key
      else Some (dec_json_key_loop (Z.to_nat (has_dot + 1)) k)
  end.

(** The loop of [parse_json_string] with its variables [key], [has_dot] and
    [level]; [cb] works on the data behind [ptr_data].  Every turn but the
    last takes a character from the source, so the loop ends within
    [S (length str)] turns; [None] says that [fuel] turns did not reach the
    end. *)
Fixpoint parse_json_loop {A : Type} (fuel : nat)
  (cb : A -> option string -> option string -> outcome (Z * A))
  (ptr_data : A) (key : option string) (has_dot level : Z)
  (json : Json.json_stream) : option (outcome (Z * A)) :=
  match fuel with
  | O => None
  | S fuel =>
      let '(t, json) := Json.json_next json in
      (* [JSON_TRUE], [JSON_FALSE] and [JSON_NULL] *)
      let constant (val : string) :=
        match key with
        | None => Some (Returns (0, ptr_data))
        | Some _ =>
            match cb ptr_data key (Some val) with
            | Returns (ret, ptr_data) =>
                if negb (ret =? 0) then Some (Returns (ret, ptr_data))
                else
                  let '(ctx, level) := Json.json_get_context json level in
                  let key :=
                    if negb (Json.json_type_eqb ctx Json.JSON_ARRAY)
                    then dec_json_key key 0 else key in
                  parse_json_loop fuel cb ptr_data key has_dot level json
            | Exits => Some Exits
            | Undefined => Some Undefined
            end
        end in
      match t with
      | Json.JSON_OBJECT =>
          let key := match key with None => Some EmptyString | _ => key end in
          parse_json_loop fuel cb ptr_data key has_dot level json
      | Json.JSON_ARRAY_END | Json.JSON_OBJECT_END =>
          parse_json_loop fuel cb ptr_data (dec_json_key key 0) has_dot level
            json
      | Json.JSON_TRUE => constant "true"
      | Json.JSON_FALSE => constant "false"
      | Json.JSON_NULL => constant "-"
      | Json.JSON_STRING | Json.JSON_NUMBER =>
          let '(ctx, level) := Json.json_get_context json level in
          (* key *)
          if negb (Z.rem level 2 =? 0)
             && negb (Json.json_type_eqb ctx Json.JSON_ARRAY)
          then
            (* check if key contains a dot, to account for it on dec_json_key *)
            let has_dot := count_matches (Json.json_get_string json) "." in
            match key with
            | None => Some Undefined
            | Some k =>
                let k :=
                  if negb (String.length k =? 0)%nat
                  then fst (append_str k ".") else k in
                let k := fst (append_str k (Json.json_get_string json)) in
                parse_json_loop fuel cb ptr_data (Some k) has_dot level json
            end
          (* val *)
          else if is_some key
                  && (Json.json_type_eqb ctx Json.JSON_ARRAY
                      || ((Z.rem level 2 =? 0)
                          && negb (Json.json_type_eqb ctx Json.JSON_ARRAY)))
          then
            match cb ptr_data key (Some (Json.json_get_string json)) with
            | Returns (ret, ptr_data) =>
                if negb (ret =? 0) then Some (Returns (ret, ptr_data))
                else
                  let key :=
                    if negb (Json.json_type_eqb ctx Json.JSON_ARRAY)
                    then dec_json_key key has_dot else key in
                  parse_json_loop fuel cb ptr_data key has_dot level json
            | Exits => Some Exits
            | Undefined => Some Undefined
            end
          else parse_json_loop fuel cb ptr_data key has_dot level json
      | Json.JSON_ERROR => Some (Returns (-1, ptr_data))
      | Json.JSON_DONE => Some (Returns (0, ptr_data))
      | Json.JSON_ARRAY =>
          parse_json_loop fuel cb ptr_data key has_dot level json
      end
  end.

(** [parse_json_string (ptr_data, str, cb)]: the return value and the data
    behind [ptr_data]. *)
Definition parse_json_string {A : Type}
  (cb : A -> option string -> option string -> outcome (Z * A))
  (ptr_data : A) (str : string) : outcome (Z * A) :=
  match parse_json_loop (S (String.length str)) cb ptr_data None 0 0
          (Json.json_open_string str) with
  | Some r => r
  | None => Undefined
  end.
(** ** The table of the JSON mode

    The hash table [ht_json_logfmt], from the key of a JSON member to its
    specifier, as an association list with one entry for a key.  The table
    exists from [init_storage] on, and [kh_put] is assumed to succeed. *)
Definition ss32 : Type := list (string * string).

Fixpoint get_ss32 (hash : ss32) (key : string) : option string :=
  match hash with
  | [] => None
  | (k, value) :: rest =>
      if (k =? key)%string then Some value else get_ss32 rest key
  end.

(** [kh_val (hash, k) = xstrdup (spec)] for a key that is found. *)
Fixpoint ss32_replace (hash : ss32) (key spec : string) : ss32 :=
  match hash with
  | [] => []
  | (k, value) :: rest =>
      if (k =? key)%string then (k, spec) :: rest
      else (k, value) :: ss32_replace rest key spec
  end.

(** [ht_insert_json_logfmt (userdata, key, spec)]: the return value and the
    table. *)
Definition ht_insert_json_logfmt (hash : ss32) (key spec : option string)
  : outcome (Z * ss32) :=
  match key, spec with
  | Some key, Some spec =>
      match get_ss32 hash key with
      | Some _ => Returns (0, ss32_replace hash key spec)
      | None => Returns (0, (key, spec) :: hash)
      end
  | _, _ => Undefined
  end.

(** ** The configuration of the formats *)
Module Config.

(** The members of [conf] that the format options write; a [char *] member
    is [None] when it is [NULL]. *)
Module conf.
Record t : Type := mk {
  date_format : option string;
  date_num_format : option string;
  time_format : option string;
  spec_date_time_format : option string;
  spec_date_time_num_format : option string;
  log_format : option string;
  is_json_log_format : Z;
  bandwidth : Z;
  date_spec_hr : Z;
  serve_usecs : Z
}.
End conf.

Definition ERR_FORMAT_NO_DATE_FMT : string :=
  "No date format was found on your conf file.".
Definition ERR_FORMAT_NO_LOG_FMT : string :=
  "No log format was found on your conf file.".
Definition ERR_FORMAT_NO_TIME_FMT : string :=
  "No time format was found on your conf file.".

Definition MIN_DATENUM_FMT_LEN : Z := 7.

(** [s == NULL || *s == '\0'] *)
Definition null_or_empty (s : option string) : bool :=
  match s with
  | None => true
  | Some s => (deref s =? NUL)%char
  end.

Definition verify_formats (c : conf.t) : option string :=
  if null_or_empty (conf.time_format c) then Some ERR_FORMAT_NO_TIME_FMT
  else if null_or_empty (conf.date_format c) then Some ERR_FORMAT_NO_DATE_FMT
  else if null_or_empty (conf.log_format c) then Some ERR_FORMAT_NO_LOG_FMT
  else None.

(** The double quote. *)
Definition dq : string := String "034" EmptyString.

(** predefined log formats *)
Module logs.
Definition combined : string :=
  "%h %^[%d:%t %^] " ++ dq ++ "%r" ++ dq ++ " %s %b " ++ dq ++ "%R" ++
  dq ++ " " ++ dq ++ "%u" ++ dq.
Definition vcombined : string :=
  "%v:%^ %h %^[%d:%t %^] " ++ dq ++ "%r" ++ dq ++ " %s %b " ++ dq ++
  "%R" ++ dq ++ " " ++ dq ++ "%u" ++ dq.
Definition common : string :=
  "%h %^[%d:%t %^] " ++ dq ++ "%r" ++ dq ++ " %s %b".
Definition vcommon : string :=
  "%v:%^ %h %^[%d:%t %^] " ++ dq ++ "%r" ++ dq ++ " %s %b".
Definition w3c : string :=
  "%d %t %^ %m %U %q %^ %^ %h %u %R %s %^ %^ %L".
Definition cloudfront : string :=
  "%d\t%t\t%^\t%b\t%h\t%m\t%v\t%U\t%s\t%R\t%u\t%q\t%^\t%C\t%^\t" ++
  "%^\t%^\t%^\t%T\t%^\t%K\t%k\t%^\t%H\t%^".
Definition cloudstorage : string :=
  dq ++ "%x" ++ dq ++ "," ++ dq ++ "%h" ++ dq ++ ",%^,%^," ++ dq ++
  "%m" ++ dq ++ "," ++ dq ++ "%U" ++ dq ++ "," ++ dq ++ "%s" ++ dq ++
  ",%^," ++ dq ++ "%b" ++ dq ++ "," ++ dq ++ "%D" ++ dq ++ ",%^," ++ dq ++
  "%R" ++ dq ++ "," ++ dq ++ "%u" ++ dq.
Definition awselb : string :=
  "%^ %dT%t.%^ %^ %h:%^ %^ %^ %T %^ %s %^ %^ %b " ++ dq ++ "%r" ++ dq ++
  " " ++ dq ++ "%u" ++ dq ++ " %k %K %^ " ++ dq ++ "%^" ++ dq ++ " " ++
  dq ++ "%v" ++ dq.
Definition squid : string :=
  "%^ %^ %^ %v %^: %x.%^ %~%L %h %^/%s %b %m %U".
Definition awss3 : string :=
  "%^ %v [%d:%t %^] %h %^" ++ dq ++ "%r" ++ dq ++ " %s %^ %b %^ %L %^ " ++
  dq ++ "%R" ++ dq ++ " " ++ dq ++ "%u" ++ dq.
Definition caddy : string :=
  "{ " ++ dq ++ "ts" ++ dq ++ ": " ++ dq ++ "%x.%^" ++ dq ++ ", " ++ dq ++
  "request" ++ dq ++ ": { " ++ dq ++ "client_ip" ++ dq ++ ": " ++ dq ++
  "%h" ++ dq ++ ", " ++ dq ++ "proto" ++ dq ++ ":" ++ dq ++ "%H" ++ dq ++
  ", " ++ dq ++ "method" ++ dq ++ ": " ++ dq ++ "%m" ++ dq ++ ", " ++
  dq ++ "host" ++ dq ++ ": " ++ dq ++ "%v" ++ dq ++ ", " ++ dq ++ "uri" ++
  dq ++ ": " ++ dq ++ "%U" ++ dq ++ ", " ++ dq ++ "headers" ++ dq ++
  ": {" ++ dq ++ "User-Agent" ++ dq ++ ": [" ++ dq ++ "%u" ++ dq ++
  "], " ++ dq ++ "Referer" ++ dq ++ ": [" ++ dq ++ "%R" ++ dq ++
  "] }, " ++ dq ++ "tls" ++ dq ++ ": { " ++ dq ++ "cipher_suite" ++ dq ++
  ":" ++ dq ++ "%k" ++ dq ++ ", " ++ dq ++ "proto" ++ dq ++ ": " ++ dq ++
  "%K" ++ dq ++ " } }, " ++ dq ++ "duration" ++ dq ++ ": " ++ dq ++
  "%T" ++ dq ++ ", " ++ dq ++ "size" ++ dq ++ ": " ++ dq ++ "%b" ++ dq ++
  "," ++ dq ++ "status" ++ dq ++ ": " ++ dq ++ "%s" ++ dq ++ ", " ++ dq ++
  "resp_headers" ++ dq ++ ": { " ++ dq ++ "Content-Type" ++ dq ++ ": [" ++
  dq ++ "%M" ++ dq ++ "] } }".
Definition awsalb : string :=
  "%^ %dT%t.%^ %v %h:%^ %^ %^ %T %^ %s %^ %^ %b " ++ dq ++ "%r" ++ dq ++
  " " ++ dq ++ "%u" ++ dq ++ " %k %K %^".
Definition traefikclf : string :=
  "%h - %e [%d:%t %^] " ++ dq ++ "%r" ++ dq ++ " %s %b " ++ dq ++ "%R" ++
  dq ++ " " ++ dq ++ "%u" ++ dq ++ " %^ " ++ dq ++ "%v" ++ dq ++ " " ++
  dq ++ "%U" ++ dq ++ " %Lms".
End logs.

(** predefined log times *)
Module times.
Definition fmt24 : string := "%H:%M:%S".
Definition usec : string := "%f".
Definition sec : string := "%s".
End times.

(** predefined log dates *)
Module dates.
Definition apache : string := "%d/%b/%Y".
Definition w3c : string := "%Y-%m-%d".
Definition usec : string := "%f".
Definition sec : string := "%s".
End dates.

(** The loop of [clean_date_time_format]: what is left in [fmt]. *)
Fixpoint clean_date_time_format_loop (pr : string) (special : bool) : string :=
  match pr with
  | EmptyString => EmptyString
  | String c r =>
      if (c =? "%")%char || special
      then String c (clean_date_time_format_loop r (negb special))
      else clean_date_time_format_loop r special
  end.

Definition clean_date_time_format (format : option string) : option string :=
  match format with
  | None => None
  | Some EmptyString => None
  | Some f => Some (clean_date_time_format_loop f false)
  end.

(** [set_format_date] and the functions below read a format of [conf]
    that [verify_formats] has found; on one that is [NULL], [strcmp] is
    undefined. *)
Definition set_format_date (c : conf.t) : outcome (option string) :=
  match conf.date_format c with
  | None => Undefined
  | Some df =>
      if has_timestamp df then Returns (Some "%Y%m%d")
      else Returns (clean_date_time_format (Some df))
  end.

Definition is_date_abbreviated (fdate : string) : bool :=
  is_some (strpbrk fdate "cDF").

(** [buflen += snprintf (buf + buflen, flen - buflen, s)] on a buffer of
    [flen] bytes whose text is [buf]: the text and [buflen].  Text that does
    not fit is cut; behind that, the next call has no room left, and a
    negative size is undefined. *)
Definition snprintf_at (buf : string) (flen buflen : Z) (s : string)
  : outcome (string * Z) :=
  let n := Z.of_nat (String.length s) in
  if flen - buflen <? 0 then Undefined
  else if flen - buflen =? 0 then Returns (buf, buflen + n)
  else Returns (buf ++ take (Z.to_nat (flen - buflen - 1)) s, buflen + n).

(** [set_date_num_format ()]: the return value and [conf]. *)
Definition set_date_num_format (c : conf.t) : outcome (Z * conf.t) :=
  fdate <- set_format_date c ;;
  match fdate with
  | None => Returns (1, c)
  | Some fdate =>
      let set (v : string) :=
        conf.mk (conf.date_format c) (Some v) (conf.time_format c)
          (conf.spec_date_time_format c) (conf.spec_date_time_num_format c)
          (conf.log_format c) (conf.is_json_log_format c) (conf.bandwidth c)
          (conf.date_spec_hr c) (conf.serve_usecs c) in
      if is_date_abbreviated fdate then Returns (0, set "%Y%m%d")
      else
        let flen :=
          Z.max MIN_DATENUM_FMT_LEN (Z.of_nat (String.length fdate) + 1) in
        (* always add a %Y *)
        '(buf, buflen) <- snprintf_at EmptyString flen 0 "%Y" ;;
        '(buf, buflen) <-
          (if is_some (strpbrk fdate "hbmBf*")
           then snprintf_at buf flen buflen "%m" else Returns (buf, buflen)) ;;
        '(buf, buflen) <-
          (if is_some (strpbrk fdate "def*")
           then snprintf_at buf flen buflen "%d" else Returns (buf, buflen)) ;;
        Returns (if buflen =? 0 then 1 else 0, set buf)
  end.

(** Enum-to-string *)
Definition COMBINED : Z := 0.
Definition VCOMBINED : Z := 1.
Definition COMMON : Z := 2.
Definition VCOMMON : Z := 3.
Definition W3C : Z := 4.
Definition CLOUDFRONT : Z := 5.
Definition CLOUDSTORAGE : Z := 6.
Definition AWSELB : Z := 7.
Definition SQUID : Z := 8.
Definition AWSS3 : Z := 9.
Definition CADDY : Z := 10.
Definition AWSALB : Z := 11.
Definition TRAEFIKCLF : Z := 12.

Definition LOGTYPE : list (string * Z) :=
  [ ("COMBINED", COMBINED);
    ("VCOMBINED", VCOMBINED);
    ("COMMON", COMMON);
    ("VCOMMON", VCOMMON);
    ("W3C", W3C);
    ("CLOUDFRONT", CLOUDFRONT);
    ("CLOUDSTORAGE", CLOUDSTORAGE);
    ("AWSELB", AWSELB);
    ("SQUID", SQUID);
    ("AWSS3", AWSS3);
    ("CADDY", CADDY);
    ("AWSALB", AWSALB);
    ("TRAEFIKCLF", TRAEFIKCLF) ].

Fixpoint str2enum (map : list (string * Z)) (str : string) : Z :=
  match map with
  | [] => -1
  | (s, idx) :: rest => if (str =? s)%string then idx else str2enum rest str
  end.

Definition get_log_format_item_enum (str : string) : Z :=
  let ret := str2enum LOGTYPE str in
  if 0 <=? ret then ret
  else
    (* uppercase the input string and try again *)
    str2enum LOGTYPE (strtoupper str).

(** The loop of [is_json_log_format]; [None] says that [fuel] turns did not
    reach the end. *)
Fixpoint is_json_log_format_loop (fuel : nat) (json : Json.json_stream)
  : option Z :=
  match fuel with
  | O => None
  | S fuel =>
      let '(t, json) := Json.json_next json in
      match t with
      | Json.JSON_ERROR => Some 0
      | Json.JSON_DONE => Some 1
      | _ => is_json_log_format_loop fuel json
      end
  end.

(** Determine if we have a valid JSON format *)
Definition is_json_log_format (fmt : string) : Z :=
  let json := Json.json_open_string fmt in
  (* ensure we use strict JSON when determining if we're using a JSON format *)
  let json := Json.json_set_streaming json false in
  match is_json_log_format_loop (S (String.length fmt)) json with
  | Some r => r
  | None => 0
  end.

Definition with_log_format (c : conf.t) (v : option string) : conf.t :=
  conf.mk (conf.date_format c) (conf.date_num_format c) (conf.time_format c)
    (conf.spec_date_time_format c) (conf.spec_date_time_num_format c)
    v (conf.is_json_log_format c) (conf.bandwidth c)
    (conf.date_spec_hr c) (conf.serve_usecs c).

Definition with_date_format (c : conf.t) (v : option string) : conf.t :=
  conf.mk v (conf.date_num_format c) (conf.time_format c)
    (conf.spec_date_time_format c) (conf.spec_date_time_num_format c)
    (conf.log_format c) (conf.is_json_log_format c) (conf.bandwidth c)
    (conf.date_spec_hr c) (conf.serve_usecs c).

Definition with_time_format (c : conf.t) (v : option string) : conf.t :=
  conf.mk (conf.date_format c) (conf.date_num_format c) v
    (conf.spec_date_time_format c) (conf.spec_date_time_num_format c)
    (conf.log_format c) (conf.is_json_log_format c) (conf.bandwidth c)
    (conf.date_spec_hr c) (conf.serve_usecs c).

Definition with_is_json_log_format (c : conf.t) (v : Z) : conf.t :=
  conf.mk (conf.date_format c) (conf.date_num_format c) (conf.time_format c)
    (conf.spec_date_time_format c) (conf.spec_date_time_num_format c)
    (conf.log_format c) v (conf.bandwidth c)
    (conf.date_spec_hr c) (conf.serve_usecs c).

Definition with_flags (c : conf.t) (bandwidth serve_usecs : Z) : conf.t :=
  conf.mk (conf.date_format c) (conf.date_num_format c) (conf.time_format c)
    (conf.spec_date_time_format c) (conf.spec_date_time_num_format c)
    (conf.log_format c) (conf.is_json_log_format c) bandwidth
    (conf.date_spec_hr c) serve_usecs.

Definition with_spec_date_time_num_format (c : conf.t) (v : option string)
  : conf.t :=
  conf.mk (conf.date_format c) (conf.date_num_format c) (conf.time_format c)
    (conf.spec_date_time_format c) v
    (conf.log_format c) (conf.is_json_log_format c) (conf.bandwidth c)
    (conf.date_spec_hr c) (conf.serve_usecs c).

Definition with_spec_date_time_format (c : conf.t) (v : option string)
  : conf.t :=
  conf.mk (conf.date_format c) (conf.date_num_format c) (conf.time_format c)
    v (conf.spec_date_time_num_format c)
    (conf.log_format c) (conf.is_json_log_format c) (conf.bandwidth c)
    (conf.date_spec_hr c) (conf.serve_usecs c).

(** Determine if some global flags were set through log-format. *)
Definition contains_specifier (c : conf.t) : conf.t :=
  match conf.log_format c with
  | None => with_flags c 0 0
  | Some lf =>
      let bandwidth := if is_some (strstr lf "%b") then 1 else 0 in
      let serve_usecs :=
        if is_some (strstr lf "%D") || is_some (strstr lf "%T")
           || is_some (strstr lf "%L")
        then 1 else 0 in
      with_flags c bandwidth serve_usecs
  end.

Definition get_selected_format_str (idx : Z) : option string :=
  if idx =? COMBINED then Some logs.combined
  else if idx =? VCOMBINED then Some logs.vcombined
  else if idx =? COMMON then Some logs.common
  else if idx =? VCOMMON then Some logs.vcommon
  else if idx =? W3C then Some logs.w3c
  else if idx =? CLOUDFRONT then Some logs.cloudfront
  else if idx =? CLOUDSTORAGE then Some logs.cloudstorage
  else if idx =? AWSELB then Some logs.awselb
  else if idx =? SQUID then Some logs.squid
  else if idx =? AWSS3 then Some logs.awss3
  else if idx =? CADDY then Some logs.caddy
  else if idx =? AWSALB then Some logs.awsalb
  else if idx =? TRAEFIKCLF then Some logs.traefikclf
  else None.

Definition get_selected_date_str (idx : Z) : option string :=
  if (idx =? COMMON) || (idx =? VCOMMON) || (idx =? COMBINED)
     || (idx =? VCOMBINED) || (idx =? AWSS3) || (idx =? TRAEFIKCLF)
  then Some dates.apache
  else if (idx =? AWSELB) || (idx =? AWSALB) || (idx =? CLOUDFRONT)
          || (idx =? W3C)
  then Some dates.w3c
  else if idx =? CLOUDSTORAGE then Some dates.usec
  else if (idx =? SQUID) || (idx =? CADDY) then Some dates.sec
  else None.

(** [set_date_format_str (oarg)].  For an enumerated value without a date
    format the member is left as it is (no [LOGTYPE] is without one). *)
Definition set_date_format_str (oarg : string) (c : conf.t) : conf.t :=
  let type := get_log_format_item_enum oarg in
  (* type not found, use whatever was given by the user then *)
  if type =? -1 then with_date_format c (unescape_str (Some oarg))
  else
    (* attempt to get the format string by the enum value *)
    match get_selected_date_str type with
    | None => c
    | Some fmt => with_date_format c (Some fmt)
    end.

Definition get_selected_time_str (idx : Z) : option string :=
  if (idx =? AWSELB) || (idx =? AWSALB) || (idx =? CLOUDFRONT)
     || (idx =? COMBINED) || (idx =? COMMON) || (idx =? VCOMBINED)
     || (idx =? VCOMMON) || (idx =? W3C) || (idx =? AWSS3)
     || (idx =? TRAEFIKCLF)
  then Some times.fmt24
  else if idx =? CLOUDSTORAGE then Some times.usec
  else if (idx =? SQUID) || (idx =? CADDY) then Some times.sec
  else None.

Definition set_time_format_str (oarg : string) (c : conf.t) : conf.t :=
  let type := get_log_format_item_enum oarg in
  (* type not found, use whatever was given by the user then *)
  if type =? -1 then with_time_format c (unescape_str (Some oarg))
  else
    (* attempt to get the format string by the enum value *)
    match get_selected_time_str type with
    | None => c
    | Some fmt => with_time_format c (Some fmt)
    end.

Definition set_log_format_str (oarg : string) (c : conf.t) : conf.t :=
  let type := get_log_format_item_enum oarg in
  if (type =? -1) && negb (is_json_log_format oarg =? 0) then
    let c := with_is_json_log_format c 1 in
    let c := with_log_format c (unescape_str (Some oarg)) in
    contains_specifier c
  (* type not found, use whatever was given by the user then *)
  else if type =? -1 then
    let c := with_log_format c (unescape_str (Some oarg)) in
    contains_specifier c
  else
    (* attempt to get the format string by the enum value *)
    match get_selected_format_str type with
    | None => c
    | Some fmt =>
        let c :=
          if negb (is_json_log_format fmt =? 0)
          then with_is_json_log_format c 1 else c in
        let c := with_log_format c (unescape_str (Some fmt)) in
        let c := contains_specifier c in
        (* assume we are using the default date/time formats *)
        let c := set_time_format_str oarg c in
        set_date_format_str oarg c
    end.

Definition set_format_time (c : conf.t) : outcome (option string) :=
  match conf.date_format c, conf.time_format c with
  | Some df, Some tf =>
      if has_timestamp df || (tf =? "%T")%string then Returns (Some "%H%M%S")
      else Returns (clean_date_time_format (Some tf))
  | Some df, None => if has_timestamp df then Returns (Some "%H%M%S")
                     else Undefined
  | None, _ => Undefined
  end.

Definition append_spec_date_format (date_format spec_format : string)
  : string :=
  date_format ++ spec_format.

Definition set_spec_date_time_num_format (c : conf.t) : outcome conf.t :=
  tf <- set_format_time c ;;
  match conf.date_num_format c, tf with
  | Some df, Some tf =>
      let buf :=
        if (conf.date_spec_hr c =? 1) && is_some (strchr tf "H")
        then append_spec_date_format df "%H"
        else if (conf.date_spec_hr c =? 2) && is_some (strchr tf "M")
        then append_spec_date_format df "%H%M"
        else df in
      Returns (with_spec_date_time_num_format c (Some buf))
  | _, _ => Returns c
  end.

Definition set_spec_date_time_format (c : conf.t) : outcome conf.t :=
  match conf.spec_date_time_num_format c with
  | None => Returns c
  | Some fmt =>
      let flen := Z.of_nat (String.length fmt) * 2 + 1 in
      let add (ch : ascii) (s : string) (st : string * Z) :=
        if is_some (strchr fmt ch)
        then snprintf_at (fst st) flen (snd st) s else Returns st in
      st <- add "d"%char "%d/" (EmptyString, 0) ;;
      st <- add "m"%char "%b/" st ;;
      st <- add "Y"%char "%Y" st ;;
      st <- add "H"%char ":%H" st ;;
      st <- add "M"%char ":%M" st ;;
      Returns (with_spec_date_time_format c (Some (fst st)))
  end.

(** [set_spec_date_format ()] on [conf] and the table [ht_json_logfmt]. *)
Definition set_spec_date_format (c : conf.t) (hash : ss32)
  : outcome (conf.t * ss32) :=
  if is_some (verify_formats c) then Returns (c, hash)
  else
    '(ret, hash) <-
      (if negb (conf.is_json_log_format c =? 0) then
         match conf.log_format c with
         | Some lf => parse_json_string ht_insert_json_logfmt hash lf
         | None => Undefined
         end
       else Returns (0, hash)) ;;
    if ret =? -1 then Exits
    else
      '(ret, c) <- set_date_num_format c ;;
      if ret =? 0 then
        c <- set_spec_date_time_num_format c ;;
        c <- set_spec_date_time_format c ;;
        Returns (c, hash)
      else Returns (c, hash).

(** [GConf conf = { .append_method = 1, .append_protocol = 1, ... }] *)
Definition init : conf.t :=
  {| conf.date_format := None; conf.date_num_format := None;
     conf.time_format := None; conf.spec_date_time_format := None;
     conf.spec_date_time_num_format := None; conf.log_format := None;
     conf.is_json_log_format := 0; conf.bandwidth := 0;
     conf.date_spec_hr := 0; conf.serve_usecs := 0 |}.

End Config.

(** ** Notions used to state the properties *)

(** The configuration the program starts with: [GConf conf] sets
    [append_method] and [append_protocol] and leaves the rest zero. *)
Definition default_conf : GConf :=
  {| tz_name := None; date_format := ""; date_num_format := "";
     time_format := ""; log_format := "";
     append_method := true; append_protocol := true;
     double_decode := false; no_strict_status := false;
     no_ip_validation := false; is_json_log_format := false |}.

Definition conf_double_decode : GConf :=
  {| tz_name := None; date_format := ""; date_num_format := "";
     time_format := ""; log_format := "";
     append_method := true; append_protocol := true;
     double_decode := true; no_strict_status := false;
     no_ip_validation := false; is_json_log_format := false |}.

Definition conf_no_strict_status : GConf :=
  {| tz_name := None; date_format := ""; date_num_format := "";
     time_format := ""; log_format := "";
     append_method := true; append_protocol := true;
     double_decode := false; no_strict_status := true;
     no_ip_validation := false; is_json_log_format := false |}.

Definition conf_no_ip_validation : GConf :=
  {| tz_name := None; date_format := ""; date_num_format := "";
     time_format := ""; log_format := "";
     append_method := true; append_protocol := true;
     double_decode := false; no_strict_status := false;
     no_ip_validation := true; is_json_log_format := false |}.

(** A [%HH] escape somewhere in [s]. *)
Fixpoint has_escape (s : string) : bool :=
  match s with
  | EmptyString => false
  | String c r =>
      ((c =? "%")%char && isxdigit (deref r) && isxdigit (deref (next r)))
      || has_escape r
  end.

(** The value of a hexadecimal digit, read off the digit string. *)
Fixpoint index_of (c : ascii) (s : string) (i : Z) : option Z :=
  match s with
  | EmptyString => None
  | String a r => if (a =? c)%char then Some i else index_of c r (i + 1)
  end.

Definition hex_value (c : ascii) : option Z :=
  index_of (toupper c) "0123456789ABCDEF" 0.

(** A C library in which every call fails, for running the parser on
    lines and templates that do not reach it. *)
Definition no_libc : CLibrary :=
  {| inet_pton4 := fun _ => false;
     inet_pton6 := fun _ => false;
     strptime := fun _ _ _ => None;
     localtime_r := fun _ _ => dt init_log_item;
     timegm := fun _ => -1;
     strftime := fun _ _ _ => EmptyString;
     strtod := fun s => mk_strtod DNaN s false false |}.

(** What [set_xff_host] may do to the record: nothing, or store a non-empty
    token in [host] together with its [type_ip]. *)
Inductive xff_update (l : GLogItem) : GLogItem -> Prop :=
  | xff_same : xff_update l l
  | xff_host tkn ipvx :
      tkn <> EmptyString ->
      xff_update l (with_type_ip (with_host l (Some tkn)) ipvx).

(** Tactics for the case analyses below. *)
Ltac inv_ret :=
  repeat match goal with
  | H : Returns _ = Returns _ |- _ => injection H; clear H; intros; subst
  | H : (_, _) = (_, _) |- _ => injection H; clear H; intros; subst
  | H : Some _ = Some _ |- _ => injection H; clear H; intros; subst
  | H : Exits = Returns _ |- _ => discriminate H
  | H : Undefined = Returns _ |- _ => discriminate H
  | H : None = Some _ |- _ => discriminate H
  end.

Ltac break_match :=
  match goal with
  | H : context [match ?x with _ => _ end] |- _ =>
      lazymatch x with
      | context [match _ with _ => _ end] => fail
      | _ => destruct x eqn:?
      end
  | H : context [if ?x then _ else _] |- _ =>
      lazymatch x with
      | context [if _ then _ else _] => fail
      | _ => destruct x eqn:?
      end
  end.

Ltac unfold_handlers H :=
  unfold spec_date, spec_time, spec_datetime, spec_plain, spec_cache_status,
    spec_host, spec_method, spec_request_url, spec_query, spec_protocol,
    spec_request, spec_status, spec_size, spec_referrer, spec_agent,
    spec_serve_msecs, spec_serve_secs, spec_serve_usecs, spec_serve_nsecs,
    skip_token, token_null, token_invalid, store_serve_time, spec_err,
    set_numeric_date, bind in H.

(** Case analysis on the [switch] of [parse_specifier] in [H]. *)
Ltac switch_cases H :=
  unfold parse_specifier in H;
  repeat match type of H with
  | context [if (?c =? ?d)%char then _ else _] =>
      destruct (c =? d)%char eqn:?
  end;
  unfold_handlers H.

(** Every character of [s] satisfies [ok]. *)
Fixpoint all_chars (ok : ascii -> bool) (s : string) : bool :=
  match s with
  | EmptyString => true
  | String c r => ok c && all_chars ok r
  end.

(** Nothing but specifier marks is left in the template [p]: [%], and [~]
    where it counts as a mark. *)
Fixpoint only_markers (p : string) (perc : Z) : bool :=
  match p with
  | EmptyString => true
  | String c r =>
      if (c =? "%")%char then only_markers r (perc + 1)
      else if (c =? "~")%char && (perc =? 0) then only_markers r perc
      else false
  end.


(** The method [m] stands at the head of the token, whatever the case. *)
Definition ci_prefix (m tkn : string) : bool :=
  strncasecmp_eq tkn m (String.length m).

(** The token as a whole is a method of the table, whatever the case. *)
Definition method_listed (tkn : string) : bool :=
  existsb (fun e => strcasecmp_eq tkn (fst e)) http_methods.

(** The test by which the handler of the specifier [c] finds its destination
    set already. *)
Definition destination_set (c : ascii) (l : GLogItem) : bool :=
  if (c =? "d")%char then is_some (date l)
  else if (c =? "t")%char then is_some (time l)
  else if (c =? "x")%char then is_some (time l) && is_some (date l)
  else if (c =? "v")%char then is_some (vhost l)
  else if (c =? "e")%char then is_some (userid l)
  else if (c =? "C")%char then is_some (cache_status l)
  else if (c =? "h")%char then is_some (host l)
  else if (c =? "m")%char then is_some (method l)
  else if (c =? "U")%char then is_some (req l)
  else if (c =? "q")%char then is_some (qstr l)
  else if (c =? "H")%char then is_some (protocol l)
  else if (c =? "r")%char then is_some (req l)
  else if (c =? "s")%char then 0 <=? status l
  else if (c =? "b")%char then negb (resp_size l =? 0)
  else if (c =? "R")%char then is_some (ref l)
  else if (c =? "u")%char then is_some (agent l)
  else if (c =? "L")%char then negb (serve_time l =? 0)
  else if (c =? "T")%char then negb (serve_time l =? 0)
  else if (c =? "D")%char then negb (serve_time l =? 0)
  else if (c =? "n")%char then negb (serve_time l =? 0)
  else if (c =? "k")%char then is_some (tls_cypher l)
  else if (c =? "K")%char then is_some (tls_type l)
  else if (c =? "M")%char then is_some (mime_type l)
  else false.

(** The number a token of decimal digits, and nothing else, denotes. *)
Fixpoint digits_value (s : string) (acc : Z) : option Z :=
  match s with
  | EmptyString => Some acc
  | String c r =>
      if isdigit c then digits_value r (10 * acc + (code c - 48)) else None
  end.

Definition decimal (tkn : string) : option Z :=
  match tkn with
  | EmptyString => None
  | _ => digits_value tkn 0
  end.

(** [m * 2^e] truncated to an integer, for [0 <= m]. *)
Definition dyadic_floor (m e : Z) : Z :=
  if 0 <=? e then m * 2 ^ e else m / 2 ^ (- e).

(** The message for the first of [host], [date] and [req] that is missing. *)
Definition missing_field_message (l : GLogItem) : option string :=
  if negb (is_some (host l)) then Some "IPv4/6 is required."
  else if negb (is_some (date l)) then Some "A valid date is required."
  else if negb (is_some (req l)) then Some "A request is required."
  else None.

(** A configuration whose template skips the whole line. *)
Definition conf_skip_line : GConf :=
  {| tz_name := None; date_format := ""; date_num_format := "";
     time_format := ""; log_format := "%^";
     append_method := true; append_protocol := true;
     double_decode := false; no_strict_status := false;
     no_ip_validation := false; is_json_log_format := false |}.

(** An empty JSON table, and a JSON loop that sees no value. *)
Definition no_json_table (key : string) : option string := None.

Definition no_json_loop
  (cb : GLogItem -> option string -> option string -> outcome (Z * GLogItem))
  (l : GLogItem) (str : string) : outcome (Z * GLogItem) :=
  Returns (0, l).

(** The [double] above against the Standard Library's specification of
    binary64: the product of two integers converted to [double], both ways. *)
Definition same_as_binary64 (n k : Z) : bool :=
  match double_mul (double_of_u64 n) (double_of_u64 k),
        SFmul 53 1024 (binary_normalize 53 1024 n 0 false)
                      (binary_normalize 53 1024 k 0 false) with
  | DFinite s m e, S754_finite s' m' e' =>
      let lo := Z.min e e' in
      Bool.eqb s s' && (m * 2 ^ (e - lo) =? Zpos m' * 2 ^ (e' - lo))
  | DFinite _ m _, S754_zero _ => m =? 0
  | _, _ => false
  end.

Definition double_samples : list (Z * Z) :=
  [ (0, 1000); (1, 1000); (15, 1000); (429, 1000000); (4294967296, 1000);
    (9007199254740991, 1000); (9007199254740992, 1000);
    (9007199254740993, 1000); (9007199254740995, 1000);
    (18014398509481987, 1000000); (123456789012345678, 1000);
    (18446744073709551615, 1000); (18446744073709551615, 1000000) ].

(** The last character of [s], NUL when [s] is empty. *)
Fixpoint last_char (s : string) : ascii :=
  match s with
  | EmptyString => NUL
  | String c EmptyString => c
  | String _ r => last_char r
  end.

(** The number of occurrences of [c] in [s]. *)
Fixpoint occurrences (c : ascii) (s : string) : Z :=
  match s with
  | EmptyString => 0
  | String a r => (if (a =? c)%char then 1 else 0) + occurrences c r
  end.

(** [json'] is [json] after some reading: the stack, the number of tokens
    and the streaming flag are the same, an error flag that was up is up,
    and the position did not move back. *)
Definition reads_on (json json' : Json.json_stream) : Prop :=
  Json.stack json' = Json.stack json
  /\ Json.ntokens json' = Json.ntokens json
  /\ Json.flag_streaming json' = Json.flag_streaming json
  /\ (Json.flag_error json = true -> Json.flag_error json' = true)
  /\ exists pre, Json.source json = pre ++ Json.source json'.

(** The position of [json'] is that of [json] or further on, with the same
    streaming flag. *)
Definition moves_on (json json' : Json.json_stream) : Prop :=
  Json.flag_streaming json' = Json.flag_streaming json
  /\ exists pre, Json.source json = pre ++ Json.source json'.

(** The number of characters left in the buffer. *)
Definition left_over (json : Json.json_stream) : nat :=
  String.length (Json.source json).

(** The stack after [stack[stack_top].count++]. *)
Definition bump (st : list Json.json_stack) : list Json.json_stack :=
  match st with
  | top :: rest => Json.mk_stack (Json.type top) (Json.count top + 1) :: rest
  | [] => []
  end.

(** What a call of [json_next] that returns [t] does to the stack [st] and
    to the number of tokens [n]: the stack [st'] and the number [n'] behind
    the call. *)
Definition json_next_effect (t : Json.json_type)
  (st : list Json.json_stack) (n : Z) (st' : list Json.json_stack) (n' : Z)
  : Prop :=
  match t with
  | Json.JSON_ERROR => True
  | Json.JSON_DONE => st = [] /\ st' = [] /\ n' = n
  | Json.JSON_OBJECT | Json.JSON_ARRAY =>
      st' = Json.mk_stack t 0 :: bump st /\ n' = n + 1
      /\ (st = [] -> n <= 0)
  | Json.JSON_OBJECT_END =>
      n' = n
      /\ exists top,
           st = top :: st' /\ Json.type top = Json.JSON_OBJECT
  | Json.JSON_ARRAY_END =>
      n' = n
      /\ exists top,
           st = top :: st' /\ Json.type top = Json.JSON_ARRAY
  | _ => st' = bump st /\ n' = n + 1 /\ (st = [] -> n <= 0)
  end.

(** What holds of the variables [key] and [level] of [parse_json_string]
    and of the stream at the head of its loop: tokens are counted from 0;
    before the first token [level] is 0 and the stack is empty; and as long
    as [key] is [NULL], no object is open. *)
Definition parse_json_inv (key : option string) (level : Z)
  (json : Json.json_stream) : Prop :=
  0 <= Json.ntokens json
  /\ (Json.ntokens json = 0 -> level = 0 /\ Json.stack json = [])
  /\ (key = None ->
      Forall (fun e => Json.type e = Json.JSON_ARRAY) (Json.stack json)).


(** * Properties *)

(** ** Strings *)

Lemma mem_char_cstr (s : string) : mem_char NUL (cstr s) = false.
Proof.
  induction s as [|c r IH]; simpl; [reflexivity|].
  destruct (c =? NUL)%char eqn:E; simpl; [reflexivity|].
  now rewrite E.
Qed.

Lemma cstr_id (s : string) : mem_char NUL s = false -> cstr s = s.
Proof.
  induction s as [|c r IH]; simpl; [reflexivity|].
  destruct (c =? NUL)%char; simpl; [discriminate|].
  intros H. now rewrite IH.
Qed.

Lemma mem_char_ltrim (c : ascii) (s : string) :
  mem_char c s = false -> mem_char c (ltrim s) = false.
Proof.
  induction s as [|a r IH]; simpl; [reflexivity|].
  intros H. apply orb_false_iff in H as [Ha Hr].
  destruct (isspace a); simpl; [auto|]. now rewrite Ha, Hr.
Qed.

Lemma mem_char_rtrim (c : ascii) (s : string) :
  mem_char c s = false -> mem_char c (rtrim s) = false.
Proof.
  induction s as [|a r IH]; simpl; [reflexivity|].
  intros H. apply orb_false_iff in H as [Ha Hr].
  specialize (IH Hr).
  destruct (rtrim r) as [|b t].
  - destruct (isspace a); simpl; [reflexivity|]. now rewrite Ha.
  - simpl in *. now rewrite Ha, IH.
Qed.

Lemma mem_char_strip_newlines (c : ascii) (s : string) :
  mem_char c s = false -> mem_char c (strip_newlines s) = false.
Proof.
  induction s as [|a r IH]; simpl; [reflexivity|].
  intros H. apply orb_false_iff in H as [Ha Hr].
  destruct ((a =? "013")%char || (a =? "010")%char); simpl; [auto|].
  now rewrite Ha, IH.
Qed.

Lemma strip_newlines_clean (s : string) :
  mem_char "013" (strip_newlines s) = false
  /\ mem_char "010" (strip_newlines s) = false.
Proof.
  induction s as [|a r [IH1 IH2]]; simpl; [auto|].
  destruct (a =? "013")%char eqn:E1; simpl; [auto|].
  destruct (a =? "010")%char eqn:E2; simpl; [auto|].
  now rewrite E1, E2.
Qed.

Lemma strip_newlines_id (s : string) :
  mem_char "013" s = false -> mem_char "010" s = false ->
  strip_newlines s = s.
Proof.
  induction s as [|a r IH]; simpl; [reflexivity|].
  intros H1 H2.
  apply orb_false_iff in H1 as [E1 H1].
  apply orb_false_iff in H2 as [E2 H2].
  rewrite E1, E2. simpl. now rewrite IH.
Qed.

Lemma ltrim_head (s : string) : isspace (deref (ltrim s)) = false.
Proof.
  induction s as [|a r IH]; simpl; [reflexivity|].
  destruct (isspace a) eqn:E; [assumption | simpl; assumption].
Qed.

Lemma ltrim_id (s : string) : isspace (deref s) = false -> ltrim s = s.
Proof.
  destruct s as [|a r]; simpl; [reflexivity|]. now intros ->.
Qed.

Lemma rtrim_head (s : string) :
  isspace (deref s) = false -> isspace (deref (rtrim s)) = false.
Proof.
  destruct s as [|a r]; simpl; [reflexivity|].
  intros H. destruct (rtrim r); [rewrite H|]; simpl; assumption.
Qed.

Lemma rtrim_idem (s : string) : rtrim (rtrim s) = rtrim s.
Proof.
  induction s as [|a r IH]; simpl; [reflexivity|].
  destruct (rtrim r) as [|b t] eqn:E.
  - destruct (isspace a) eqn:Ea; simpl; [reflexivity|]. now rewrite Ea.
  - change (rtrim (String a (String b t))) with
      (match rtrim (String b t) with
       | EmptyString =>
           if isspace a then EmptyString else String a EmptyString
       | u => String a u
       end).
    now rewrite IH.
Qed.

Lemma trim_str_idem (s : string) : trim_str (trim_str s) = trim_str s.
Proof.
  unfold trim_str.
  rewrite (ltrim_id (rtrim (ltrim s))).
  - apply rtrim_idem.
  - apply rtrim_head, ltrim_head.
Qed.

Lemma mem_char_trim_str (c : ascii) (s : string) :
  mem_char c s = false -> mem_char c (trim_str s) = false.
Proof. intros H. now apply mem_char_rtrim, mem_char_ltrim. Qed.

(** ** URL decoding *)

Lemma decode_hex_bytes_no_escape (s : string) :
  has_escape s = false -> decode_hex_bytes s = s.
Proof.
  induction s as [|c r IH]; [reflexivity|].
  intros H. simpl in H. apply orb_false_iff in H as [Hc Hr].
  specialize (IH Hr).
  destruct r as [|h [|l r']].
  - reflexivity.
  - simpl. reflexivity.
  - change (decode_hex_bytes (String c (String h (String l r')))) with
      (if negb (c =? "%")%char || negb (isxdigit h) || negb (isxdigit l)
       then String c (decode_hex_bytes (String h (String l r')))
       else String (chr (B16210 h * 16 + B16210 l)) (decode_hex_bytes r')).
    simpl in Hc.
    assert (E : negb (c =? "%")%char || negb (isxdigit h)
                || negb (isxdigit l) = true).
    { destruct (c =? "%")%char, (isxdigit h), (isxdigit l);
        simpl in *; congruence. }
    rewrite E, IH. reflexivity.
Qed.

Lemma decode_hex_no_escape (s : string) :
  mem_char NUL s = false -> has_escape s = false -> decode_hex s = s.
Proof.
  intros Hn He. unfold decode_hex.
  rewrite decode_hex_bytes_no_escape by assumption. now apply cstr_id.
Qed.

(** The result of [decode_url] is stable under the steps that follow the hex
    pass. *)
Lemma decoded_is_clean (s : string) :
  let y := trim_str (strip_newlines (decode_hex s)) in
  mem_char NUL y = false /\ trim_str (strip_newlines y) = y.
Proof.
  intros y. subst y. split.
  - apply mem_char_trim_str, mem_char_strip_newlines, mem_char_cstr.
  - destruct (strip_newlines_clean (decode_hex s)) as [H1 H2].
    rewrite strip_newlines_id by now apply mem_char_trim_str.
    apply trim_str_idem.
Qed.

Lemma B16210_hex_value (c : ascii) :
  isxdigit c = true -> hex_value c = Some (B16210 c).
Proof.
  destruct c as [[] [] [] [] [] [] [] []]; vm_compute;
    intros H; first [reflexivity | discriminate H].
Qed.

Lemma decode_hex_bytes_escape (h l : ascii) (r : string) :
  isxdigit h = true -> isxdigit l = true ->
  decode_hex_bytes (String "%" (String h (String l r)))
  = String (chr (B16210 h * 16 + B16210 l)) (decode_hex_bytes r).
Proof.
  intros Hh Hl.
  change (decode_hex_bytes (String "%" (String h (String l r)))) with
    (if negb ("%" =? "%")%char || negb (isxdigit h) || negb (isxdigit l)
     then String "%"%char (decode_hex_bytes (String h (String l r)))
     else String (chr (B16210 h * 16 + B16210 l)) (decode_hex_bytes r)).
  now rewrite Hh, Hl.
Qed.

Lemma decode_hex_bytes_literal (c : ascii) (r : string) :
  (c =? "%")%char && isxdigit (deref r) && isxdigit (deref (next r)) = false ->
  decode_hex_bytes (String c r) = String c (decode_hex_bytes r).
Proof.
  intros H. destruct r as [|h [|l r']]; try reflexivity.
  change (decode_hex_bytes (String c (String h (String l r')))) with
    (if negb (c =? "%")%char || negb (isxdigit h) || negb (isxdigit l)
     then String c (decode_hex_bytes (String h (String l r')))
     else String (chr (B16210 h * 16 + B16210 l)) (decode_hex_bytes r')).
  simpl in H.
  destruct (c =? "%")%char, (isxdigit h), (isxdigit l);
    simpl in *; congruence.
Qed.

Lemma decode_url_some (conf : GConf) (x : string) :
  x <> EmptyString ->
  decode_url conf (Some x)
  = Some (trim_str (strip_newlines
            (if double_decode conf then decode_hex (decode_hex x)
             else decode_hex x))).
Proof. destruct x; [congruence | reflexivity]. Qed.

(** C7, as the code has it.  [decode_url] returns [NULL] for [NULL] and for
    the empty string; otherwise it runs the hex pass (twice under
    [double_decode]), which replaces each [%HH] by the byte of that value and
    copies every other character, ends the result at a decoded NUL byte, and
    then strips CR and LF and trims white space.  It is idempotent on every
    [x] whose decoding is not empty and holds no [%HH].  Under
    [double_decode] it equals decoding twice without the option whenever the
    first hex pass leaves a non-empty string that the strip and the trim do
    not change. *)
Theorem decode_url_amended (conf : GConf) (x : string) :
  decode_url conf None = None
  /\ decode_url conf (Some EmptyString) = None
  /\ (x <> EmptyString ->
      decode_url conf (Some x)
      = Some (trim_str (strip_newlines
                (if double_decode conf then decode_hex (decode_hex x)
                 else decode_hex x))))
  /\ decode_hex x = cstr (decode_hex_bytes x)
  /\ (forall h l r vh vl,
        hex_value h = Some vh -> hex_value l = Some vl ->
        isxdigit h = true -> isxdigit l = true ->
        decode_hex_bytes (String "%" (String h (String l r)))
        = String (chr (vh * 16 + vl)) (decode_hex_bytes r))
  /\ (forall c r,
        (c =? "%")%char && isxdigit (deref r) && isxdigit (deref (next r))
        = false ->
        decode_hex_bytes (String c r) = String c (decode_hex_bytes r))
  /\ (forall y,
        decode_url conf (Some x) = Some y -> y <> EmptyString ->
        has_escape y = false ->
        decode_url conf (decode_url conf (Some x)) = decode_url conf (Some x))
  /\ (forall conf1,
        double_decode conf = true -> double_decode conf1 = false ->
        decode_hex x <> EmptyString ->
        trim_str (strip_newlines (decode_hex x)) = decode_hex x ->
        decode_url conf (Some x)
        = decode_url conf1 (decode_url conf1 (Some x))).
Proof.
  repeat split.
  - now apply decode_url_some.
  - intros h l r vh vl Hvh Hvl Hh Hl.
    rewrite (B16210_hex_value h Hh) in Hvh.
    rewrite (B16210_hex_value l Hl) in Hvl.
    injection Hvh as <-. injection Hvl as <-.
    now apply decode_hex_bytes_escape.
  - apply decode_hex_bytes_literal.
  - intros y Hy Hne Hesc. rewrite Hy.
    assert (Hx : x <> EmptyString) by (destruct x; [discriminate | congruence]).
    rewrite (decode_url_some conf x Hx) in Hy. injection Hy as Hy.
    rewrite (decode_url_some conf y Hne). f_equal.
    assert (Hclean : mem_char NUL y = false
                     /\ trim_str (strip_newlines y) = y).
    { rewrite <- Hy.
      destruct (double_decode conf); apply decoded_is_clean. }
    destruct Hclean as [Hnul Hfix].
    rewrite !(decode_hex_no_escape y Hnul Hesc).
    destruct (double_decode conf); exact Hfix.
  - intros conf1 Hd Hd1 Hne Hfix.
    assert (Hx : x <> EmptyString).
    { intros ->. apply Hne. reflexivity. }
    rewrite (decode_url_some conf x Hx), (decode_url_some conf1 x Hx).
    rewrite Hd, Hd1, Hfix.
    rewrite (decode_url_some conf1 _ Hne), Hd1. reflexivity.
Qed.

Lemma decode_url_amended_witness :
  decode_url default_conf (decode_url default_conf (Some " /a%20b%2 "))
  = decode_url default_conf (Some " /a%20b%2 ")
  /\ decode_url conf_double_decode (Some "%2541")
     = decode_url default_conf (decode_url default_conf (Some "%2541")).
Proof.
  split.
  - destruct (decode_url_amended default_conf " /a%20b%2 ")
      as (_ & _ & _ & _ & _ & _ & Hidem & _).
    apply (Hidem "/a b%2"); [reflexivity | discriminate | reflexivity].
  - destruct (decode_url_amended conf_double_decode "%2541")
      as (_ & _ & _ & _ & _ & _ & _ & Hdouble).
    apply Hdouble; [reflexivity | reflexivity | discriminate | reflexivity].
Defined.

(** C7 as stated fails.  Under [double_decode] the line feed that the first
    pass decodes out of [%25%0A41] still separates [%] from [41] in the second
    pass, and the strip that follows leaves [%41]; decoding twice without the
    option strips between the passes and ends in [A].  The decoding of a
    blank string is the empty string, which holds no escape, and decoding
    that again is [NULL].  A decoded [%00] ends the result. *)
Lemma decode_url_claim_counterexample :
  decode_url conf_double_decode (Some "%25%0A41")
  <> decode_url default_conf (decode_url default_conf (Some "%25%0A41"))
  /\ decode_url conf_double_decode (Some "%25%0A41") = Some "%41"
  /\ decode_url default_conf (decode_url default_conf (Some "%25%0A41"))
     = Some "A"
  /\ decode_url default_conf (decode_url default_conf (Some " "))
     <> decode_url default_conf (Some " ")
  /\ decode_url default_conf (Some " ") = Some EmptyString
  /\ has_escape EmptyString = false
  /\ decode_url default_conf (decode_url default_conf (Some " ")) = None
  /\ decode_url default_conf (Some "a%00b%41") = Some "a".
Proof. repeat split; discriminate. Qed.

(** ** The specifier handlers *)

Section HandlerProperties.

Variable conf : GConf.
Variable libc : CLibrary.
(** The table and the event loop of the JSON mode. *)
Variable ht_json_logfmt : string -> option string.
Variable parse_json_string :
  (GLogItem -> option string -> option string -> outcome (Z * GLogItem)) ->
  GLogItem -> string -> outcome (Z * GLogItem).


(** A handler that returns 0 has not written [errstr]. *)
Lemma parse_specifier_errstr_frame l str p e l' str' :
  parse_specifier conf libc l str p e = Returns (0, l', str') ->
  errstr l' = errstr l.
Proof.
  intros H. switch_cases H; repeat break_match; inv_ret;
    first [reflexivity | discriminate].
Qed.


Lemma invalid_ipaddr_empty tkn rc ipvx :
  invalid_ipaddr libc tkn = (rc, ipvx) -> rc = 0 -> tkn <> EmptyString.
Proof.
  unfold invalid_ipaddr. intros H Hrc ->. simpl in H. inv_ret. discriminate.
Qed.

(** No handler stores the empty string in [host]. *)
Lemma parse_specifier_host_nonempty l str p e ret l' str' :
  parse_specifier conf libc l str p e = Returns (ret, l', str') ->
  host l <> Some EmptyString -> host l' <> Some EmptyString.
Proof.
  intros H Hl. switch_cases H; repeat break_match; inv_ret; simpl;
    try assumption.
  (* the one store, in [case 'h'] *)
  all: intros Hhost; injection Hhost as ->.
  all: unfold invalid_ipaddr in *; simpl in *.
  all: destruct (no_ip_validation conf); simpl in *; inv_ret; discriminate.
Qed.

(** ** The special specifier *)

Lemma set_xff_host_loop_step skips out l c r idx :
  set_xff_host_loop libc skips out l (String c r) O idx
  = match strcspn (String c r) skips with
    | O => set_xff_host_loop libc skips out l r O (idx + 1)
    | S k =>
        if (idx <? Z.of_nat (String.length skips)) && is_some (host l)
        then l
        else
          let tkn := trim_str (take (S k) (String c r)) in
          let '(invalid_ip, ipvx) := invalid_ipaddr libc tkn in
          if is_some (host l) && negb (invalid_ip =? 0)
          then l
          else
            let l1 :=
              if negb (is_some (host l)) && (invalid_ip =? 0)
              then with_type_ip (with_host l (Some tkn)) ipvx
              else l in
            if is_some (host l1) && out then l1
            else set_xff_host_loop libc skips out l1 r k 0
    end.
Proof. reflexivity. Qed.

Lemma xff_update_trans l tkn ipvx l' :
  xff_update (with_type_ip (with_host l (Some tkn)) ipvx) l' ->
  tkn <> EmptyString ->
  exists tkn' ipvx',
    tkn' <> EmptyString
    /\ l' = with_type_ip (with_host l (Some tkn')) ipvx'.
Proof.
  intros H Hne. inversion H as [|tkn' ipvx' Hne' Heq].
  - exists tkn, ipvx. split; [assumption | reflexivity].
  - exists tkn', ipvx'. split; [assumption | destruct l; reflexivity].
Qed.

Lemma set_xff_host_loop_update skips out s :
  forall l skip idx,
    xff_update l (set_xff_host_loop libc skips out l s skip idx).
Proof.
  induction s as [|c r IH]; intros l skip idx; [constructor|].
  destruct skip as [|k]; [|apply IH].
  rewrite set_xff_host_loop_step.
  destruct (strcspn (String c r) skips) as [|k]; [apply IH|].
  destruct ((idx <? Z.of_nat (String.length skips)) && is_some (host l));
    [constructor|].
  cbv zeta.
  generalize (trim_str (take (S k) (String c r))). intros tkn.
  destruct (invalid_ipaddr libc tkn) as [rc ipvx] eqn:Hip.
  destruct (is_some (host l) && negb (rc =? 0)); [constructor|].
  destruct (negb (is_some (host l)) && (rc =? 0)) eqn:Hset.
  - apply andb_true_iff in Hset as [_ Hrc]. apply Z.eqb_eq in Hrc.
    pose proof (invalid_ipaddr_empty _ _ _ Hip Hrc) as Hne.
    match goal with
    | |- context [if ?b then _ else _] => destruct b
    end; [now constructor|].
    destruct (xff_update_trans l tkn ipvx _ (IH _ k 0) Hne)
      as (tkn' & ipvx' & Hne' & ->).
    now constructor.
  - match goal with
    | |- context [if ?b then _ else _] => destruct b
    end; [constructor | apply IH].
Qed.

Lemma special_specifier_frame l str p rc l' str' p' :
  special_specifier libc l str p = Returns (rc, l', str', p') ->
  (rc = 0 \/ rc = 1)
  /\ status l' = status l
  /\ (rc = 0 -> errstr l' = errstr l)
  /\ (host l <> Some EmptyString -> host l' <> Some EmptyString).
Proof.
  unfold special_specifier, find_xff_host, set_xff_host, spec_err, bind.
  intros H.
  repeat break_match; inv_ret;
    try match goal with
    | |- context [set_xff_host_loop libc ?sk ?o l ?s ?k ?i] =>
        destruct (set_xff_host_loop_update sk o s l k i)
    end; simpl;
    repeat match goal with
    | |- _ /\ _ => split
    end; auto; try discriminate; try lia.
  all: intros _ Heq; injection Heq as Heq; contradiction.
Qed.

(** ** The tokenizer *)

Lemma parse_format_loop_step l str c rest perc tilde :
  parse_format_loop conf libc l str (String c rest) O perc tilde
  = if (c =? "%")%char
    then parse_format_loop conf libc l str rest O (perc + 1) tilde
    else if (c =? "~")%char && (perc =? 0)
    then parse_format_loop conf libc l str rest O perc (tilde + 1)
    else if (deref str =? NUL)%char
    then Returns (spec_err l ERR_SPEC_LINE_INV "-" None)
    else if (deref str =? "010")%char
    then Returns (0, l)
    else if negb (tilde =? 0) && negb (c =? NUL)%char then
      if (deref str =? NUL)%char then Returns (0, l)
      else
        '(rc, l1, str', p') <- special_specifier libc l str (String c rest) ;;
        if rc =? 1 then Returns (1, l1)
        else parse_format_loop conf libc l1 str' rest
               (String.length (String c rest) - String.length p') perc 0
    else if negb (perc =? 0) && negb (c =? NUL)%char then
      if (deref str =? NUL)%char then Returns (0, l)
      else
        '(ret, l1, str') <-
          parse_specifier conf libc l str (String c rest)
            (get_delim (String c rest)) ;;
        if negb (ret =? 0) then Returns (ret, l1)
        else parse_format_loop conf libc l1 str' rest O 0 tilde
    else if negb (perc =? 0) && isspace c then Returns (1, l)
    else parse_format_loop conf libc l (next str) rest O perc tilde.
Proof. reflexivity. Qed.

(** An invariant [I] of the record that every handler keeps while the loop
    goes on, and a property [F] of what the loop returns, for a template
    whose characters all satisfy [ok]. *)
Lemma parse_format_loop_inv (ok : ascii -> bool) (I : GLogItem -> Prop)
  (F : Z -> GLogItem -> Prop) :
  (forall l, I l -> F 0 l) ->
  (forall l, I l -> F 1 l) ->
  (forall l, I l ->
     F ERR_SPEC_LINE_INV (snd (spec_err l ERR_SPEC_LINE_INV "-" None))) ->
  (forall l str p e ret l' str',
     I l -> ok (deref p) = true ->
     parse_specifier conf libc l str p e = Returns (ret, l', str') ->
     if ret =? 0 then I l' else F ret l') ->
  (forall l str p rc l' str' p',
     I l -> special_specifier libc l str p = Returns (rc, l', str', p') ->
     if rc =? 1 then F 1 l' else I l') ->
  forall p l str skip perc tilde ret l',
    all_chars ok p = true ->
    I l ->
    parse_format_loop conf libc l str p skip perc tilde = Returns (ret, l') ->
    F ret l'.
Proof.
  intros H0 H1 H4 Hspec Hspecial.
  induction p as [|c rest IH]; intros l str skip perc tilde ret l' Hok Hl H.
  - simpl in H. inv_ret. now apply H0.
  - simpl in Hok. apply andb_true_iff in Hok as [Hc Hok].
    specialize (fun l str skip perc tilde ret l' =>
                  IH l str skip perc tilde ret l' Hok).
    destruct skip as [|k]; [|exact (IH _ _ _ _ _ _ _ Hl H)].
    rewrite parse_format_loop_step in H.
    destruct (c =? "%")%char; [exact (IH _ _ _ _ _ _ _ Hl H)|].
    destruct ((c =? "~")%char && (perc =? 0));
      [exact (IH _ _ _ _ _ _ _ Hl H)|].
    destruct (deref str =? NUL)%char.
    { specialize (H4 l Hl). unfold spec_err in *. simpl in *.
      inv_ret. exact H4. }
    destruct (deref str =? "010")%char; [inv_ret; now apply H0|].
    destruct (negb (tilde =? 0) && negb (c =? NUL)%char).
    { unfold bind in H.
      destruct (special_specifier libc l str (String c rest))
        as [[[[rc l1] str1] p1]| |] eqn:Hsp; try discriminate.
      specialize (Hspecial _ _ _ _ _ _ _ Hl Hsp).
      destruct (rc =? 1) eqn:Hrc.
      - apply Z.eqb_eq in Hrc. subst rc. inv_ret. exact Hspecial.
      - exact (IH _ _ _ _ _ _ _ Hspecial H). }
    destruct (negb (perc =? 0) && negb (c =? NUL)%char).
    { unfold bind in H.
      destruct (parse_specifier conf libc l str (String c rest)
                  (get_delim (String c rest)))
        as [[[ret1 l1] str1]| |] eqn:Hps; try discriminate.
      specialize (Hspec l str (String c rest) _ _ _ _ Hl Hc Hps).
      destruct (ret1 =? 0) eqn:Hret; simpl in H.
      - exact (IH _ _ _ _ _ _ _ Hspec H).
      - inv_ret. exact Hspec. }
    destruct (negb (perc =? 0) && isspace c); [inv_ret; now apply H1|].
    exact (IH _ _ _ _ _ _ _ Hl H).
Qed.

Lemma parse_format_inv (ok : ascii -> bool) (I : GLogItem -> Prop)
  (F : Z -> GLogItem -> Prop) :
  (forall l, I l -> F 0 l) ->
  (forall l, I l -> F 1 l) ->
  (forall l, I l ->
     F ERR_SPEC_LINE_INV (snd (spec_err l ERR_SPEC_LINE_INV "-" None))) ->
  (forall l str p e ret l' str',
     I l -> ok (deref p) = true ->
     parse_specifier conf libc l str p e = Returns (ret, l', str') ->
     if ret =? 0 then I l' else F ret l') ->
  (forall l str p rc l' str' p',
     I l -> special_specifier libc l str p = Returns (rc, l', str', p') ->
     if rc =? 1 then F 1 l' else I l') ->
  forall l str lfmt ret l',
    all_chars ok lfmt = true ->
    I l -> parse_format conf libc l str lfmt = Returns (ret, l') -> F ret l'.
Proof.
  intros H0 H1 H4 Hspec Hspecial l str lfmt ret l' Hok Hl H.
  unfold parse_format in H.
  destruct (deref str =? NUL)%char.
  - inv_ret. now apply H1.
  - exact (parse_format_loop_inv ok I F H0 H1 H4 Hspec Hspecial
             _ _ _ _ _ _ _ _ Hok Hl H).
Qed.

Lemma all_chars_true (s : string) : all_chars (fun _ => true) s = true.
Proof. induction s; simpl; auto. Qed.

(** C2, as the code has it.  When the line is exhausted at a template
    position that the loop examines, [parse_format] completes successfully
    exactly when nothing but specifier marks ([%], and [~] outside a
    specifier) is left in the template; any other template character, a
    literal as well as a specifier letter, raises the line-invalid error (0x4)
    with its message.  A line that is empty on entry makes [parse_format]
    return 1 and leaves the record alone. *)
Theorem exhausted_input_amended (l : GLogItem) (p lfmt : string)
  (perc tilde : Z) :
  parse_format_loop conf libc l EmptyString p O perc tilde
  = (if only_markers p perc then Returns (0, l)
     else Returns
            (ERR_SPEC_LINE_INV,
             with_errstr l
               (Some
                  "Incompatible format due to early parsed line ending '\0'.")))
  /\ parse_format conf libc l EmptyString lfmt = Returns (1, l).
Proof.
  split; [|reflexivity].
  revert perc tilde.
  induction p as [|c rest IH]; intros perc tilde; [reflexivity|].
  rewrite parse_format_loop_step. simpl only_markers.
  destruct (c =? "%")%char; [apply IH|].
  destruct ((c =? "~")%char && (perc =? 0)); [apply IH|].
  reflexivity.
Qed.

(** ** Status *)






(** ** The record assembler *)

Lemma verify_missing_fields_ok l l2 :
  verify_missing_fields l = (0, l2) ->
  l2 = l /\ is_some (host l) = true /\ is_some (date l) = true
  /\ is_some (req l) = true /\ errstr l = None.
Proof.
  unfold verify_missing_fields.
  destruct (is_some (host l)), (is_some (date l)), (is_some (req l));
    simpl; try discriminate.
  destruct (errstr l); simpl; [discriminate|].
  intros H. inv_ret. repeat split; reflexivity.
Qed.


(** What [parse_line] does with the outcome of the tokenizer, in the literal
    mode. *)
Lemma parse_line_literal line :
  is_json_log_format conf = false ->
  valid_line line = 0 ->
  parse_line conf libc ht_json_logfmt parse_json_string line
  = '(ret, l) <-
      parse_format conf libc init_log_item line (log_format conf) ;;
    if negb (ret =? 0) then Returns (ret, None)
    else if negb (fst (verify_missing_fields l) =? 0)
    then Returns (fst (verify_missing_fields l), None)
    else Returns (0, Some (if negb (is_some (agent l))
                           then with_agent l (Some "-") else l)).
Proof.
  intros Hjson Hvalid. unfold parse_line, bind.
  rewrite Hjson, Hvalid. change (negb (0 =? 0)) with false. cbv iota.
  destruct (parse_format conf libc init_log_item line (log_format conf))
    as [[ret l]| |]; try reflexivity.
  destruct (negb (ret =? 0)); [reflexivity|].
  destruct (verify_missing_fields l) as [ret2 l2] eqn:Hv. cbn [fst].
  destruct (ret2 =? 0) eqn:Hret2; cbn [negb]; [|reflexivity].
  apply Z.eqb_eq in Hret2. subst ret2.
  destruct (verify_missing_fields_ok _ _ Hv) as (-> & _). reflexivity.
Qed.

Lemma parse_line_literal_record line ret r :
  is_json_log_format conf = false ->
  parse_line conf libc ht_json_logfmt parse_json_string line
  = Returns (ret, Some r) ->
  exists l,
    parse_format conf libc init_log_item line (log_format conf)
    = Returns (0, l)
    /\ r = (if negb (is_some (agent l)) then with_agent l (Some "-") else l)
    /\ is_some (host l) = true /\ is_some (date l) = true
    /\ is_some (req l) = true /\ errstr l = None.
Proof.
  intros Hjson H.
  destruct (valid_line line =? 0) eqn:Hvalid.
  - apply Z.eqb_eq in Hvalid.
    rewrite (parse_line_literal line Hjson Hvalid) in H. unfold bind in H.
    destruct (parse_format conf libc init_log_item line (log_format conf))
      as [[ret1 l]| |]; try discriminate.
    destruct (negb (ret1 =? 0)) eqn:Hret1; [discriminate|].
    apply negb_false_iff, Z.eqb_eq in Hret1. subst ret1.
    destruct (verify_missing_fields l) as [rv lv] eqn:Hvm.
    cbn [fst] in H.
    destruct (negb (rv =? 0)) eqn:Hrv; [discriminate|].
    apply negb_false_iff, Z.eqb_eq in Hrv. subst rv.
    destruct (verify_missing_fields_ok _ _ Hvm) as (_ & Hh & Hd & Hr & He).
    inv_ret. exists l. auto 10.
  - unfold parse_line in H. rewrite Hvalid in H. discriminate.
Qed.


(** C3, the code at the inputs where it leaves the claim.  The description
    of 463 is in the initializer of [codes], but behind [[460] =] without an
    index of its own, so it lands on element 461 and [codes[463]] is [NULL]:
    under strict checking the token [463] is refused and [461] is accepted.
    The token [4294967496] is accepted as well, because [strtol]'s [long] is
    cut to [int] before the range test and becomes 200.  The token [999] is
    refused with the message of the spec-token-invalid error that names it
    and [%s]. *)
Theorem status_token_evaluation :
  In (Next (Some STATUS_CODE_463)) codes_init
  /\ prefix "463 - " STATUS_CODE_463 = true
  /\ codes 463 = None
  /\ codes 461 = Some STATUS_CODE_463
  /\ parse_format default_conf libc init_log_item "463" "%s"
     = Returns (1, with_errstr (with_status init_log_item 463)
                     (Some "Token '463' doesn't match specifier '%s'"))
  /\ parse_format default_conf libc init_log_item "461" "%s"
     = Returns (0, with_status init_log_item 461)
  /\ strto_value (strtol "4294967496") = 4294967496
  /\ parse_format default_conf libc init_log_item "4294967496" "%s"
     = Returns (0, with_status init_log_item 200)
  /\ parse_format default_conf libc init_log_item "999" "%s"
     = Returns (1, with_errstr (with_status init_log_item 999)
                     (Some "Token '999' doesn't match specifier '%s'")).
Proof.
  split.
  { unfold codes_init. repeat (first [left; reflexivity | right]). }
  repeat split.
Qed.

(** What [%s] does with a token, under strict checking. *)
Lemma spec_status_token l str p e tkn str' :
  no_strict_status conf = false ->
  status l < 0 ->
  parse_string str e 1 = Some (tkn, str') ->
  let v := to_int (strto_value (strtol tkn)) in
  spec_status conf l str p e
  = if strto_failed (strtol tkn) || negb (is_valid_http_status v)
    then Returns (1,
                  with_errstr (with_status l v)
                    (Some ("Token '" ++ tkn ++ "' doesn't match specifier '%"
                           ++ String (deref p) EmptyString ++ "'")),
                  str')
    else Returns (0, with_status l v, str').
Proof.
  intros Hstrict Hl Hps v. unfold spec_status.
  destruct (0 <=? status l) eqn:Hge; [apply Z.leb_le in Hge; lia|].
  rewrite Hps, Hstrict. reflexivity.
Qed.

(** ** JSON mode *)

(** C10.  In the JSON mode a value that is the empty string is skipped:
    [parse_json_specifier] returns 0 without looking up or applying the
    specifier of the key and leaves the record, its [errstr] included, as it
    was. *)
Theorem empty_json_value_is_skipped (l : GLogItem) (key : option string) :
  parse_json_specifier conf libc ht_json_logfmt l key (Some EmptyString)
  = Returns (0, l).
Proof. destruct key; reflexivity. Qed.

(** ** Host *)

Lemma parse_specifier_h l str p e :
  deref p = "h"%char ->
  parse_specifier conf libc l str p e = spec_host conf libc l str p e.
Proof. intros H. unfold parse_specifier. rewrite H. reflexivity. Qed.

(** C9.  With or without IP validation, a [%h] whose token is the empty
    string returns 1 with the message of the spec-token-invalid error and
    stores no host; a [%h] that returns 0 on an unset host has stored a
    non-empty one; and no record that [parse_format] returns for a fresh
    record, or [parse_line] in the literal mode, has the empty string as its
    host. *)
Theorem empty_host_token_rejected (l : GLogItem) (str p e : string) :
  deref p = "h"%char ->
  host l = None ->
  (forall str1 e1 str',
     host_brackets str e = (str1, e1) ->
     parse_string str1 e1 1 = Some (EmptyString, str') ->
     exists l',
       parse_specifier conf libc l str p e = Returns (1, l', str')
       /\ errstr l' = Some "Token '' doesn't match specifier '%h'"
       /\ host l' = None)
  /\ (forall l' str',
        parse_specifier conf libc l str p e = Returns (0, l', str') ->
        exists tkn, host l' = Some tkn /\ tkn <> EmptyString)
  /\ (forall line lfmt ret r,
        parse_format conf libc init_log_item line lfmt = Returns (ret, r) ->
        host r <> Some EmptyString)
  /\ (forall line ret r,
        is_json_log_format conf = false ->
        parse_line conf libc ht_json_logfmt parse_json_string line
        = Returns (ret, Some r) ->
        exists tkn, host r = Some tkn /\ tkn <> EmptyString).
Proof.
  intros Hp Hl.
  assert (Hfmt : forall line lfmt ret r,
             parse_format conf libc init_log_item line lfmt
             = Returns (ret, r) ->
             host r <> Some EmptyString).
  { intros line lfmt ret r Hpf.
    refine (parse_format_inv (fun _ => true)
              (fun x => host x <> Some EmptyString)
              (fun _ x => host x <> Some EmptyString)
              _ _ _ _ _ _ _ _ _ _ (all_chars_true _) _ Hpf);
      try (intros; auto; fail); try discriminate.
    - intros x s0 q e0 ret0 x' s1 Hx _ Hps.
      pose proof (parse_specifier_host_nonempty _ _ _ _ _ _ _ Hps Hx).
      destruct (ret0 =? 0); assumption.
    - intros x s0 q rc x' s1 q' Hx Hsp.
      destruct (special_specifier_frame _ _ _ _ _ _ _ Hsp)
        as (_ & _ & _ & Hh).
      specialize (Hh Hx). destruct (rc =? 1); assumption. }
  split; [|split; [|split; [exact Hfmt|]]].
  - intros str1 e1 str' Hb Hps.
    rewrite (parse_specifier_h _ _ _ _ Hp).
    unfold spec_host, token_invalid, spec_err, invalid_ipaddr.
    rewrite Hl, Hb, Hps, Hp. simpl.
    destruct (no_ip_validation conf); simpl;
      eexists; split; try reflexivity; simpl; rewrite ?Hl; auto.
  - intros l' str' Hps.
    pose proof (parse_specifier_host_nonempty _ _ _ _ _ _ _ Hps) as Hne.
    rewrite Hl in Hne. specialize (Hne ltac:(discriminate)).
    rewrite (parse_specifier_h _ _ _ _ Hp) in Hps.
    unfold spec_host, skip_token, token_null, token_invalid, spec_err in Hps.
    rewrite Hl in Hps. simpl in Hps.
    repeat break_match; inv_ret; try discriminate;
      simpl in *; eexists; split; try reflexivity; congruence.
  - intros line ret r Hjson Hline.
    destruct (parse_line_literal_record _ _ _ Hjson Hline)
      as (l1 & Hpf1 & -> & Hh & _).
    pose proof (Hfmt _ _ _ _ Hpf1) as Hne.
    destruct (host l1) as [tkn|] eqn:Hhost; [|discriminate].
    exists tkn.
    destruct (negb (is_some (agent l1))); simpl; rewrite ?Hhost;
      split; congruence.
Qed.

(** ** Methods *)

Lemma first_match_some table tkn m :
  first_match table tkn = Some m ->
  exists len, In (m, len) table /\ strncasecmp_eq tkn m len = true.
Proof.
  induction table as [|[name len] rest IH]; simpl; [discriminate|].
  destruct (strncasecmp_eq tkn name len) eqn:E.
  - intros H. inv_ret. exists len. auto.
  - intros H. destruct (IH H) as (len' & Hin & Hm). exists len'. auto.
Qed.

Lemma first_match_none table tkn :
  first_match table tkn = None ->
  forall m len, In (m, len) table -> strncasecmp_eq tkn m len = false.
Proof.
  induction table as [|[name len] rest IH]; simpl; [contradiction|].
  destruct (strncasecmp_eq tkn name len) eqn:E; [discriminate|].
  intros H m len' [Heq | Hin]; [inv_ret; exact E | exact (IH H _ _ Hin)].
Qed.

(** The table gives each method its length and in upper case. *)
Lemma http_methods_entries m len :
  In (m, len) http_methods -> len = String.length m /\ strtoupper m = m.
Proof.
  unfold http_methods. simpl.
  intros H.
  repeat (destruct H as [H | H]; [inv_ret; split; reflexivity|]).
  contradiction.
Qed.

Lemma parse_specifier_m l str p e :
  deref p = "m"%char ->
  parse_specifier conf libc l str p e = spec_method l str p e.
Proof. intros H. unfold parse_specifier. rewrite H. reflexivity. Qed.

(** C6, as the code has it.  A [%m] token is accepted exactly when a method
    of the table stands at its head, whatever the case and whatever follows
    it in the token; the field then holds that method as the table spells it,
    in upper case.  A token with no method of the table at its head returns 1
    with the message of the spec-token-invalid error. *)
Theorem method_token_amended (l : GLogItem) (str p e tkn str' : string) :
  deref p = "m"%char ->
  method l = None ->
  parse_string str e 1 = Some (tkn, str') ->
  (forall m,
     extract_method tkn = Some m ->
     parse_specifier conf libc l str p e
     = Returns (0, with_method l (Some m), str')
     /\ In m (map fst http_methods)
     /\ ci_prefix m tkn = true
     /\ strtoupper m = m)
  /\ (extract_method tkn = None ->
      parse_specifier conf libc l str p e
      = Returns (1,
                 with_errstr l
                   (Some ("Token '" ++ tkn
                          ++ "' doesn't match specifier '%m'")),
                 str')
      /\ forall m, In m (map fst http_methods) -> ci_prefix m tkn = false).
Proof.
  intros Hp Hl Hps.
  rewrite (parse_specifier_m _ _ _ _ Hp).
  assert (Hspec :
    spec_method l str p e
    = match extract_method tkn with
      | None =>
          Returns (1,
                   with_errstr l
                     (Some ("Token '" ++ tkn
                            ++ "' doesn't match specifier '%m'")),
                   str')
      | Some meth => Returns (0, with_method l (Some meth), str')
      end).
  { unfold spec_method, token_invalid, spec_err.
    rewrite Hl, Hps, Hp. reflexivity. }
  rewrite Hspec. clear Hspec.
  split.
  - intros m Hm. rewrite Hm. split; [reflexivity|].
    destruct (first_match_some _ _ _ Hm) as (len & Hin & Hmatch).
    destruct (http_methods_entries _ _ Hin) as [-> Hup].
    split; [|split; assumption].
    change m with (fst (m, String.length m)). now apply in_map.
  - intros Hm. rewrite Hm. split; [reflexivity|].
    intros m Hin. apply in_map_iff in Hin as ([m' len] & Heq & Hin).
    simpl in Heq. subst m'.
    destruct (http_methods_entries _ _ Hin) as [-> _].
    exact (first_match_none _ _ Hm _ _ Hin).
Qed.

(** ** Repeated specifiers *)

Lemma strchr_some s c pch :
  strchr s c = Some pch ->
  exists pre, s = pre ++ pch /\ mem_char c pre = false /\ deref pch = c.
Proof.
  induction s as [|a r IH]; simpl.
  - destruct (c =? NUL)%char eqn:E; [|discriminate].
    intros H. inv_ret. exists EmptyString.
    apply Ascii.eqb_eq in E. subst c. auto.
  - destruct (a =? c)%char eqn:E.
    + intros H. inv_ret. exists EmptyString.
      apply Ascii.eqb_eq in E. subst c. auto.
    + intros H. destruct (IH H) as (pre & -> & Hpre & Hd).
      exists (String a pre). simpl. rewrite E, Hpre. auto.
Qed.

Lemma strchr_none s c :
  strchr s c = None -> mem_char c s = false /\ c <> NUL.
Proof.
  induction s as [|a r IH]; simpl.
  - destruct (c =? NUL)%char eqn:E; [discriminate|].
    apply Ascii.eqb_neq in E. auto.
  - destruct (a =? c)%char eqn:E; [discriminate|].
    intros H. destruct (IH H). auto.
Qed.

(** Where [handle_default_case_token] leaves the cursor: on the first
    occurrence of the delimiter, or where it was when there is none. *)
Lemma handle_default_case_token_cursor str p :
  let d := deref (next p) in
  let str' := handle_default_case_token str p in
  (exists pre, str = pre ++ str' /\ mem_char d pre = false /\ deref str' = d)
  \/ (str' = str /\ mem_char d str = false /\ d <> NUL).
Proof.
  unfold handle_default_case_token.
  destruct (strchr str (deref (next p))) as [pch|] eqn:E; simpl.
  - left. exact (strchr_some _ _ _ E).
  - right. destruct (strchr_none _ _ E). auto.
Qed.

(** A handler that finds its destination set does nothing but move the
    cursor. *)
Lemma parse_specifier_skips l str p e :
  destination_set (deref p) l = true ->
  parse_specifier conf libc l str p e
  = Returns (0, l, handle_default_case_token str p).
Proof.
  unfold destination_set, parse_specifier. intros H.
  repeat match type of H with
  | context [if (?c =? ?d)%char then _ else _] =>
      destruct (c =? d)%char eqn:?
  end; try discriminate H;
  unfold spec_date, spec_time, spec_datetime, spec_plain, spec_cache_status,
    spec_host, spec_method, spec_request_url, spec_query, spec_protocol,
    spec_request, spec_status, spec_size, spec_referrer, spec_agent,
    spec_serve_msecs, spec_serve_secs, spec_serve_usecs, spec_serve_nsecs,
    skip_token;
  rewrite H; reflexivity.
Qed.

Lemma parse_req_keeps line m0 p0 r m pr :
  parse_req conf line m0 p0 = (r, m, pr) ->
  (is_some m0 = true -> is_some m = true)
  /\ (is_some p0 = true -> is_some pr = true).
Proof.
  unfold parse_req. intros H.
  repeat break_match; inv_ret; auto.
Qed.

(** No handler unsets a destination. *)
Lemma parse_specifier_keeps_fields l str p e ret l' str' :
  parse_specifier conf libc l str p e = Returns (ret, l', str') ->
  (is_some (date l) = true -> is_some (date l') = true)
  /\ (is_some (time l) = true -> is_some (time l') = true)
  /\ (is_some (vhost l) = true -> is_some (vhost l') = true)
  /\ (is_some (userid l) = true -> is_some (userid l') = true)
  /\ (is_some (cache_status l) = true -> is_some (cache_status l') = true)
  /\ (is_some (host l) = true -> is_some (host l') = true)
  /\ (is_some (method l) = true -> is_some (method l') = true)
  /\ (is_some (req l) = true -> is_some (req l') = true)
  /\ (is_some (qstr l) = true -> is_some (qstr l') = true)
  /\ (is_some (protocol l) = true -> is_some (protocol l') = true)
  /\ ((0 <=? status l) = true -> (0 <=? status l') = true)
  /\ (negb (resp_size l =? 0) = true -> negb (resp_size l' =? 0) = true)
  /\ (is_some (ref l) = true -> is_some (ref l') = true)
  /\ (is_some (agent l) = true -> is_some (agent l') = true)
  /\ (negb (serve_time l =? 0) = true -> negb (serve_time l' =? 0) = true)
  /\ (is_some (tls_cypher l) = true -> is_some (tls_cypher l') = true)
  /\ (is_some (tls_type l) = true -> is_some (tls_type l') = true)
  /\ (is_some (mime_type l) = true -> is_some (mime_type l') = true).
Proof.
  intros H. switch_cases H; repeat break_match; inv_ret; simpl;
    repeat split; intros;
    try first [assumption | reflexivity | congruence].
  all: match goal with
       | Hreq : parse_req _ _ _ _ = _ |- _ =>
           destruct (parse_req_keeps _ _ _ _ _ _ Hreq); auto
       end.
Qed.

Lemma parse_specifier_keeps_destination c l str p e ret l' str' :
  parse_specifier conf libc l str p e = Returns (ret, l', str') ->
  destination_set c l = true -> destination_set c l' = true.
Proof.
  intros H.
  destruct (parse_specifier_keeps_fields _ _ _ _ _ _ _ H)
    as (? & ? & ? & ? & ? & ? & ? & ? & ? & ? & ? & ? & ? & ? & ? & ?
        & ? & ?).
  unfold destination_set.
  repeat match goal with
  | |- context [if (?a =? ?d)%char then _ else _] => destruct (a =? d)%char
  end; auto.
  rewrite !andb_true_iff. intros []. auto.
Qed.

Lemma xff_update_keeps_destination c l l' :
  xff_update l l' ->
  destination_set c l = true -> destination_set c l' = true.
Proof.
  intros [|tkn ipvx Hne]; [auto|].
  unfold destination_set.
  repeat match goal with
  | |- context [if (?a =? ?d)%char then _ else _] => destruct (a =? d)%char
  end; simpl; auto.
Qed.

Lemma with_errstr_keeps_destination c l v :
  destination_set c l = true -> destination_set c (with_errstr l v) = true.
Proof.
  unfold destination_set.
  repeat match goal with
  | |- context [if (?a =? ?d)%char then _ else _] => destruct (a =? d)%char
  end; simpl; auto.
Qed.

Lemma special_specifier_keeps_destination c l str p rc l' str' p' :
  special_specifier libc l str p = Returns (rc, l', str', p') ->
  destination_set c l = true -> destination_set c l' = true.
Proof.
  unfold special_specifier, find_xff_host, set_xff_host, spec_err, bind.
  intros H Hl.
  repeat break_match; inv_ret;
    repeat match goal with
    | |- destination_set _ (with_errstr _ _) = true =>
        apply with_errstr_keeps_destination
    end;
    match goal with
    | |- destination_set _ (set_xff_host_loop _ _ _ _ _ _ _) = true =>
        eapply xff_update_keeps_destination;
        [apply set_xff_host_loop_update | exact Hl]
    | |- _ => exact Hl
    end.
Qed.

(** C4, as the code has it.  A handler that finds its destination set (a
    text field that is not [NULL]; [status >= 0]; a [resp_size] or
    [serve_time] that is not 0; for [%x] both the date and the time) returns 0,
    leaves every field of the record as it was and moves the cursor up to,
    not past, the first occurrence of the character that follows the
    specifier in the template: to the end of the line when the specifier ends
    the template, and not at all when that character does not occur.  No
    handler and no template unsets a destination that is set, so every later
    occurrence of the specifier is skipped in the same way. *)
Theorem set_destination_is_skipped (l : GLogItem) (str p e : string) :
  destination_set (deref p) l = true ->
  parse_specifier conf libc l str p e
  = Returns (0, l, handle_default_case_token str p)
  /\ ((exists pre,
         str = pre ++ handle_default_case_token str p
         /\ mem_char (deref (next p)) pre = false
         /\ deref (handle_default_case_token str p) = deref (next p))
      \/ (handle_default_case_token str p = str
          /\ mem_char (deref (next p)) str = false
          /\ deref (next p) <> NUL))
  /\ (forall s0 q e0 ret l' s1,
        parse_specifier conf libc l s0 q e0 = Returns (ret, l', s1) ->
        destination_set (deref p) l' = true)
  /\ (forall line lfmt ret l',
        parse_format conf libc l line lfmt = Returns (ret, l') ->
        destination_set (deref p) l' = true).
Proof.
  intros Hset. split; [now apply parse_specifier_skips|].
  split; [apply handle_default_case_token_cursor|].
  split.
  - intros s0 q e0 ret l' s1 Hps.
    exact (parse_specifier_keeps_destination _ _ _ _ _ _ _ _ Hps Hset).
  - intros line lfmt ret l' Hpf.
    refine (parse_format_inv (fun _ => true)
              (fun x => destination_set (deref p) x = true)
              (fun _ x => destination_set (deref p) x = true)
              _ _ _ _ _ _ _ _ _ _ (all_chars_true _) Hset Hpf);
      try (intros; auto; fail).
    + intros x s0 q e0 ret0 x' s1 Hx _ Hps.
      pose proof (parse_specifier_keeps_destination _ _ _ _ _ _ _ _ Hps Hx).
      destruct (ret0 =? 0); assumption.
    + intros x s0 q rc x' s1 q' Hx Hsp.
      pose proof (special_specifier_keeps_destination _ _ _ _ _ _ _ _ Hsp Hx).
      destruct (rc =? 1); assumption.
Qed.

(** ** Time served *)

Lemma round53_exact (m e : Z) :
  0 <= m < 2 ^ 53 -> round53 m e = (m, e).
Proof.
  intros [H0 H1]. unfold round53.
  assert (Hlog : Z.log2 m + 1 <= 53).
  { destruct (Z.eq_dec m 0) as [-> | Hm]; [simpl; lia|].
    assert (Z.log2 m < 53) by (apply Z.log2_lt_pow2; lia). lia. }
  apply Z.leb_le in Hlog. cbv zeta. now rewrite Hlog.
Qed.

Lemma usecs_of_double_exact (n k : Z) :
  0 <= n -> 0 < k < 2 ^ 53 -> n * k < 2 ^ 53 ->
  usecs_of_double (double_of_u64 n) k = Some (n * k).
Proof.
  intros Hn [Hk Hk53] Hnk.
  assert (Hn53 : n < 2 ^ 53).
  { assert (n <= n * k) by nia. lia. }
  unfold usecs_of_double, double_of_u64.
  rewrite !round53_exact by lia. simpl double_gt0.
  destruct (0 <? n) eqn:Hpos.
  - unfold double_mul. simpl xorb.
    rewrite round53_exact by lia.
    unfold double_to_u64. simpl.
    rewrite Z.mul_1_r.
    assert (Hle : (n * k <=? ULLONG_MAX) = true).
    { apply Z.leb_le. unfold ULLONG_MAX. lia. }
    now rewrite Hle.
  - apply Z.ltb_ge in Hpos. replace n with 0 by lia. reflexivity.
Qed.

Lemma read_digits_value s :
  forall acc n,
    digits_value s acc = Some n -> read_digits s acc = (n, EmptyString).
Proof.
  induction s as [|c r IH]; intros acc n; simpl.
  - intros H. inv_ret. reflexivity.
  - destruct (isdigit c); [apply IH | discriminate].
Qed.

Lemma digits_value_bounds s :
  forall acc n, 0 <= acc -> digits_value s acc = Some n -> 0 <= n.
Proof.
  induction s as [|c r IH]; intros acc n Hacc; cbn [digits_value].
  - intros H. inv_ret. assumption.
  - destruct (isdigit c) eqn:Hc; [|discriminate].
    intros H. refine (IH _ _ _ H). unfold isdigit in Hc.
    apply andb_true_iff in Hc as [Hc _]. apply Z.leb_le in Hc. lia.
Qed.

Lemma digits_value_no_dot s :
  forall acc n, digits_value s acc = Some n -> strchr s "." = None.
Proof.
  induction s as [|c r IH]; intros acc n; simpl; [reflexivity|].
  destruct (isdigit c) eqn:Hc; [|discriminate].
  intros H. rewrite (IH _ _ H).
  destruct (c =? ".")%char eqn:E; [|reflexivity].
  apply Ascii.eqb_eq in E. subst c. discriminate Hc.
Qed.

(** [strtoull] on a token of digits. *)
Lemma strtoull_decimal tkn n :
  decimal tkn = Some n -> n <= ULLONG_MAX ->
  strtoull tkn = mk_strto n EmptyString true false.
Proof.
  destruct tkn as [|c r]; [discriminate|].
  unfold decimal. intros Hd Hn.
  assert (Hc : isdigit c = true).
  { simpl in Hd. destruct (isdigit c); [reflexivity | discriminate]. }
  pose proof (read_digits_value _ _ _ Hd) as Hr.
  assert (Hle : (ULLONG_MAX <? n) = false) by (apply Z.ltb_ge; lia).
  unfold strtoull, strto_subject.
  destruct c as [[] [] [] [] [] [] [] []]; try discriminate Hc;
    cbn -[read_digits ULLONG_MAX Z.ltb]; rewrite Hr, Hle; reflexivity.
Qed.

Lemma usecs_of_double_zero (k : Z) :
  usecs_of_double (double_of_u64 0) k = Some 0.
Proof. reflexivity. Qed.

Lemma usecs_of_double_finite (m e2 : Z) :
  0 < m -> m * SECS < 2 ^ 53 ->
  dyadic_floor (m * SECS) e2 <= ULLONG_MAX ->
  usecs_of_double (DFinite false m e2) SECS
  = Some (dyadic_floor (m * SECS) e2).
Proof.
  intros Hm Hms Hmax.
  unfold usecs_of_double, double_of_u64.
  rewrite (round53_exact SECS 0) by (unfold SECS; lia).
  unfold double_gt0. apply Z.ltb_lt in Hm. rewrite Hm. apply Z.ltb_lt in Hm.
  unfold double_mul. rewrite round53_exact by (unfold SECS in *; lia).
  unfold double_to_u64. rewrite Z.add_0_r. cbn [xorb andb].
  fold (dyadic_floor (m * SECS) e2).
  apply Z.leb_le in Hmax. now rewrite Hmax.
Qed.

Lemma parse_specifier_L l str p e :
  deref p = "L"%char ->
  parse_specifier conf libc l str p e = spec_serve_msecs l str p e.
Proof. intros H. unfold parse_specifier. rewrite H. reflexivity. Qed.

Lemma parse_specifier_T l str p e :
  deref p = "T"%char ->
  parse_specifier conf libc l str p e = spec_serve_secs libc l str p e.
Proof. intros H. unfold parse_specifier. rewrite H. reflexivity. Qed.

Lemma parse_specifier_D l str p e :
  deref p = "D"%char ->
  parse_specifier conf libc l str p e = spec_serve_usecs l str p e.
Proof. intros H. unfold parse_specifier. rewrite H. reflexivity. Qed.

Lemma parse_specifier_n l str p e :
  deref p = "n"%char ->
  parse_specifier conf libc l str p e = spec_serve_nsecs l str p e.
Proof. intros H. unfold parse_specifier. rewrite H. reflexivity. Qed.

(** C5, as the code has it.  On an unset [serve_time], for a token of
    decimal digits of value [n] that fits [unsigned long long]: [%D] stores
    [n] and [%n] stores [n / 1000]; [%L] stores [n * 1000] and [%T]
    [n * 1000000] as long as that product is below [2^53], the range in which
    the [double] the handler computes in is exact.  A token on which
    [strtoull] fails stores 0.  A [%T] token with a decimal point stores the
    product of the [double] that [strtod] reads and 1000000, rounded to
    [double] and truncated toward zero, and 0 when [strtod] fails; where
    that product is exact this is the integer part of the seconds times
    1000000. *)
Theorem serve_time_amended (l : GLogItem) (str p e tkn str' : string) :
  serve_time l = 0 ->
  parse_string str e 1 = Some (tkn, str') ->
  (forall n,
     decimal tkn = Some n -> n <= ULLONG_MAX ->
     (deref p = "D"%char ->
      parse_specifier conf libc l str p e
      = Returns (0, with_serve_time l n, str'))
     /\ (deref p = "n"%char ->
         parse_specifier conf libc l str p e
         = Returns (0, with_serve_time l (n / 1000), str'))
     /\ (deref p = "L"%char -> n * 1000 < 2 ^ 53 ->
         parse_specifier conf libc l str p e
         = Returns (0, with_serve_time l (n * 1000), str'))
     /\ (deref p = "T"%char -> n * 1000000 < 2 ^ 53 ->
         parse_specifier conf libc l str p e
         = Returns (0, with_serve_time l (n * 1000000), str')))
  /\ (strto_failed (strtoull tkn) = true ->
      deref p = "D"%char \/ deref p = "n"%char \/ deref p = "L"%char
      \/ (deref p = "T"%char /\ strchr tkn "." = None) ->
      parse_specifier conf libc l str p e
      = Returns (0, with_serve_time l 0, str'))
  /\ (deref p = "T"%char -> strchr tkn "." <> None ->
      let r := strtod libc tkn in
      let failed :=
        negb (strtod_conv r) || negb (deref (strtod_end r) =? NUL)%char
        || strtod_erange r in
      parse_specifier conf libc l str p e
      = store_serve_time l str'
          (usecs_of_double
             (if failed then double_of_u64 0 else strtod_value r) SECS)
      /\ (failed = true ->
          parse_specifier conf libc l str p e
          = Returns (0, with_serve_time l 0, str'))
      /\ (forall m e2,
            failed = false -> strtod_value r = DFinite false m e2 ->
            0 < m -> m * 1000000 < 2 ^ 53 ->
            dyadic_floor (m * 1000000) e2 <= ULLONG_MAX ->
            parse_specifier conf libc l str p e
            = Returns (0,
                       with_serve_time l (dyadic_floor (m * 1000000) e2),
                       str'))).
Proof.
  intros Hl Hps.
  assert (Hguard : negb (serve_time l =? 0) = false) by now rewrite Hl.
  split; [|split].
  - intros n Hd Hn.
    pose proof (strtoull_decimal _ _ Hd Hn) as Hull.
    assert (Hnf : strto_failed (strtoull tkn) = false)
      by (rewrite Hull; reflexivity).
    assert (Hval : strto_value (strtoull tkn) = n)
      by (rewrite Hull; reflexivity).
    assert (Hn0 : 0 <= n).
    { destruct tkn; [discriminate|].
      exact (digits_value_bounds _ _ _ (Z.le_refl 0) Hd). }
    assert (Hdot : strchr tkn "." = None).
    { destruct tkn; [discriminate|].
      exact (digits_value_no_dot _ _ _ Hd). }
    repeat split; intros Hp.
    + rewrite (parse_specifier_D _ _ _ _ Hp). unfold spec_serve_usecs.
      rewrite Hguard, Hps, Hnf, Hval. reflexivity.
    + rewrite (parse_specifier_n _ _ _ _ Hp). unfold spec_serve_nsecs.
      rewrite Hguard, Hps, Hnf, Hval.
      unfold MILS. destruct (0 <? n) eqn:Hpos; [reflexivity|].
      apply Z.ltb_ge in Hpos. replace n with 0 by lia. reflexivity.
    + intros Hexact.
      rewrite (parse_specifier_L _ _ _ _ Hp). unfold spec_serve_msecs.
      rewrite Hguard, Hps, Hnf, Hval.
      rewrite usecs_of_double_exact by (unfold MILS; lia).
      reflexivity.
    + intros Hexact.
      rewrite (parse_specifier_T _ _ _ _ Hp). unfold spec_serve_secs.
      rewrite Hguard, Hps, Hdot, Hnf, Hval. cbn [is_some].
      rewrite usecs_of_double_exact by (unfold SECS; lia).
      reflexivity.
  - intros Hfail [Hp | [Hp | [Hp | [Hp Hdot]]]].
    + rewrite (parse_specifier_D _ _ _ _ Hp). unfold spec_serve_usecs.
      rewrite Hguard, Hps, Hfail. reflexivity.
    + rewrite (parse_specifier_n _ _ _ _ Hp). unfold spec_serve_nsecs.
      rewrite Hguard, Hps, Hfail. reflexivity.
    + rewrite (parse_specifier_L _ _ _ _ Hp). unfold spec_serve_msecs.
      rewrite Hguard, Hps, Hfail. reflexivity.
    + rewrite (parse_specifier_T _ _ _ _ Hp). unfold spec_serve_secs.
      rewrite Hguard, Hps, Hdot, Hfail. reflexivity.
  - intros Hp Hdot r failed.
    assert (Heq :
      parse_specifier conf libc l str p e
      = store_serve_time l str'
          (usecs_of_double
             (if failed then double_of_u64 0 else strtod_value r) SECS)).
    { rewrite (parse_specifier_T _ _ _ _ Hp). unfold spec_serve_secs.
      rewrite Hguard, Hps.
      destruct (strchr tkn ".") as [dot|]; [reflexivity | congruence]. }
    split; [exact Heq|]. split.
    + intros Hf. rewrite Heq, Hf. reflexivity.
    + intros m e2 Hf Hv Hm Hexact Hmax. rewrite Heq, Hf, Hv.
      rewrite usecs_of_double_finite by (unfold SECS; assumption).
      reflexivity.
Qed.

(** ** Missing fields *)

(** A tokenizer that returns 0 has not written [errstr]. *)
Lemma parse_format_errstr l str lfmt l' :
  errstr l = None ->
  parse_format conf libc l str lfmt = Returns (0, l') ->
  errstr l' = None.
Proof.
  intros Hl Hpf.
  refine (parse_format_inv (fun _ => true)
            (fun x => errstr x = None)
            (fun ret x => ret = 0 -> errstr x = None)
            _ _ _ _ _ _ _ _ _ _ (all_chars_true _) Hl Hpf eq_refl);
    try (intros; auto; discriminate).
  - intros x s0 q e0 ret0 x' s1 Hx _ Hps.
    destruct (ret0 =? 0) eqn:Hret; [|intros ->; discriminate].
    apply Z.eqb_eq in Hret. subst ret0.
    rewrite (parse_specifier_errstr_frame _ _ _ _ _ _ Hps). exact Hx.
  - intros x s0 q rc x' s1 q' Hx Hsp.
    destruct (special_specifier_frame _ _ _ _ _ _ _ Hsp)
      as ([-> | ->] & _ & Herr & _); simpl; [|discriminate].
    rewrite (Herr eq_refl). exact Hx.
Qed.

Lemma verify_missing_fields_message l :
  errstr l = None ->
  verify_missing_fields l
  = match missing_field_message l with
    | Some msg => (1, with_errstr l (Some msg))
    | None => (0, l)
    end.
Proof.
  intros Hl. unfold verify_missing_fields, missing_field_message.
  destruct (is_some (host l)), (is_some (date l)), (is_some (req l));
    simpl; rewrite ?Hl; reflexivity.
Qed.

(** C8, the code after the tokenizer has returned 0 with the record [l]
    (whose [errstr] is then [NULL], as the literal mode guarantees).
    [verify_missing_fields] writes into the record the message of the first
    of [host], [date] and [req] that is missing and returns 1, else 0;
    [parse_line] returns that 1 without a record, the record and its message
    having been freed by [cleanup_logitem], and otherwise returns 0 with the
    record, whose [agent] is the string [-] when no [%u] had set it. *)
Theorem parse_line_missing_fields (line : string) (l : GLogItem) :
  valid_line line = 0 ->
  (if is_json_log_format conf
   then parse_json_format conf libc ht_json_logfmt parse_json_string
          init_log_item line
   else parse_format conf libc init_log_item line (log_format conf))
  = Returns (0, l) ->
  (is_json_log_format conf = true -> errstr l = None) ->
  errstr l = None
  /\ (missing_field_message l = None
      <-> is_some (host l) = true /\ is_some (date l) = true
          /\ is_some (req l) = true)
  /\ verify_missing_fields l
     = match missing_field_message l with
       | Some msg => (1, with_errstr l (Some msg))
       | None => (0, l)
       end
  /\ parse_line conf libc ht_json_logfmt parse_json_string line
     = match missing_field_message l with
       | Some msg => Returns (1, None)
       | None =>
           Returns (0, Some (if negb (is_some (agent l))
                             then with_agent l (Some "-") else l))
       end.
Proof.
  intros Hvalid Htok Hjson.
  assert (Herr : errstr l = None).
  { destruct (is_json_log_format conf); [now apply Hjson|].
    exact (parse_format_errstr init_log_item _ _ _ eq_refl Htok). }
  split; [exact Herr|]. split; [|split].
  - unfold missing_field_message.
    destruct (is_some (host l)), (is_some (date l)), (is_some (req l));
      simpl; split; try discriminate; auto;
      intros (? & ? & ?); discriminate.
  - now apply verify_missing_fields_message.
  - unfold parse_line, bind. rewrite Hvalid, Htok.
    change (negb (0 =? 0)) with false. cbv iota.
    rewrite (verify_missing_fields_message l Herr).
    destruct (missing_field_message l); reflexivity.
Qed.

End HandlerProperties.

(** ** The theorems at concrete inputs *)



(** C2 as stated fails: with the line [a] and the template [ab], which holds
    no specifier, the line is exhausted when the literal [b] is reached and
    [parse_format] raises the line-invalid error instead of completing. *)
Lemma exhausted_input_counterexample :
  parse_format default_conf no_libc init_log_item "a" "ab"
  = Returns (ERR_SPEC_LINE_INV,
             with_errstr init_log_item
               (Some
                  "Incompatible format due to early parsed line ending '\0'."))
  /\ ERR_SPEC_LINE_INV <> 0
  /\ mem_char "%" "ab" = false
  /\ mem_char "~" "ab" = false.
Proof. repeat split. discriminate. Qed.

Lemma set_destination_is_skipped_witness :
  parse_specifier default_conf no_libc
    (with_host init_log_item (Some "1.2.3.4")) "5.6.7.8 x" "h " " "
  = Returns (0, with_host init_log_item (Some "1.2.3.4"),
             handle_default_case_token "5.6.7.8 x" "h ").
Proof.
  exact (proj1 (set_destination_is_skipped default_conf no_libc
                  (with_host init_log_item (Some "1.2.3.4"))
                  "5.6.7.8 x" "h " " " eq_refl)).
Defined.

(** C4 as stated fails twice.  The handler of a [%h] whose host is set
    leaves the cursor on the delimiter, not past it.  And with the template
    [%b %b] on the line [0 568] the first [%b] stores a size of 0, which is
    how an unset size looks, so the second occurrence populates the field. *)
Lemma repeated_specifier_counterexample :
  parse_specifier default_conf no_libc
    (with_host init_log_item (Some "1.2.3.4")) "5.6.7.8 x" "h " " "
  = Returns (0, with_host init_log_item (Some "1.2.3.4"), " x")
  /\ deref " x" = " "%char
  /\ parse_format default_conf no_libc init_log_item "0" "%b"
     = Returns (0, with_resp_size init_log_item 0)
  /\ parse_format default_conf no_libc init_log_item "0 568" "%b %b"
     = Returns (0, with_resp_size init_log_item 568).
Proof. repeat split. Qed.

Lemma serve_time_amended_witness :
  parse_specifier default_conf no_libc init_log_item "15" "L" EmptyString
  = Returns (0, with_serve_time init_log_item (15 * 1000), EmptyString).
Proof.
  destruct (serve_time_amended default_conf no_libc init_log_item
              "15" "L" EmptyString "15" EmptyString eq_refl eq_refl)
    as (Hint & _).
  destruct (Hint 15 eq_refl ltac:(discriminate)) as (_ & _ & HL & _).
  apply HL; reflexivity.
Defined.

(** C5 as stated fails: [%L] computes in [double], so the token
    [9007199254740993], which is [2^53 + 1], is rounded to [2^53] before it is
    multiplied, and the field holds 9007199254740992000 instead of the token
    times 1000.  For the largest token that fits [unsigned long long] the
    product is no value of [uint64_t] at all, and its conversion is
    undefined. *)
Lemma serve_time_counterexample :
  decimal "9007199254740993" = Some 9007199254740993
  /\ parse_format default_conf no_libc init_log_item "9007199254740993" "%L"
     = Returns (0, with_serve_time init_log_item 9007199254740992000)
  /\ 9007199254740992000 <> 9007199254740993 * 1000
  /\ decimal "18446744073709551615" = Some ULLONG_MAX
  /\ parse_format default_conf no_libc init_log_item
       "18446744073709551615" "%L"
     = Undefined.
Proof. repeat split. discriminate. Qed.

Lemma method_token_amended_witness :
  parse_specifier default_conf no_libc init_log_item "get" "m" EmptyString
  = Returns (0, with_method init_log_item (Some "GET"), EmptyString)
  /\ In "GET" (map fst http_methods)
  /\ ci_prefix "GET" "get" = true
  /\ strtoupper "GET" = "GET".
Proof.
  destruct (method_token_amended default_conf no_libc init_log_item
              "get" "m" EmptyString "get" EmptyString
              eq_refl eq_refl eq_refl) as (Hacc & _).
  exact (Hacc "GET" eq_refl).
Defined.

(** C6 as stated fails: [GETTY] is no method of the table, in any case, and
    [%m] accepts it as [GET]. *)
Lemma method_token_counterexample :
  method_listed "GETTY" = false
  /\ parse_format default_conf no_libc init_log_item "GETTY" "%m"
     = Returns (0, with_method init_log_item (Some "GET")).
Proof. repeat split. Qed.

Lemma parse_line_missing_fields_witness :
  verify_missing_fields init_log_item
  = (1, with_errstr init_log_item (Some "IPv4/6 is required."))
  /\ parse_line conf_skip_line no_libc no_json_table no_json_loop "x"
     = Returns (1, None).
Proof.
  destruct (parse_line_missing_fields conf_skip_line no_libc no_json_table
              no_json_loop "x" init_log_item eq_refl eq_refl
              ltac:(discriminate)) as (_ & _ & Hv & Hline).
  split; [exact Hv | exact Hline].
Defined.

Lemma empty_host_token_rejected_witness :
  exists l',
    parse_specifier conf_no_ip_validation no_libc init_log_item " x" "h " " "
    = Returns (1, l', " x")
    /\ errstr l' = Some "Token '' doesn't match specifier '%h'"
    /\ host l' = None.
Proof.
  destruct (empty_host_token_rejected conf_no_ip_validation no_libc
              no_json_table no_json_loop init_log_item " x" "h " " "
              eq_refl eq_refl) as (Hempty & _).
  exact (Hempty " x" " " " x" eq_refl eq_refl).
Defined.

(** The evaluations above do not depend on the C library: the templates they
    use do not reach it. *)
Lemma evaluations_for_any_libc (libc : CLibrary) :
  parse_format conf_no_strict_status libc init_log_item "999" "%s"
  = Returns (0, with_status init_log_item 999)
  /\ parse_format default_conf libc init_log_item "a" "ab"
     = Returns (ERR_SPEC_LINE_INV,
                with_errstr init_log_item
                  (Some
                     "Incompatible format due to early parsed line ending '\0'."))
  /\ parse_format default_conf libc init_log_item "0 568" "%b %b"
     = Returns (0, with_resp_size init_log_item 568)
  /\ parse_format default_conf libc init_log_item "9007199254740993" "%L"
     = Returns (0, with_serve_time init_log_item 9007199254740992000)
  /\ parse_format default_conf libc init_log_item "GETTY" "%m"
     = Returns (0, with_method init_log_item (Some "GET"))
  /\ parse_line conf_skip_line libc no_json_table no_json_loop "x"
     = Returns (1, None).
Proof. repeat split. Qed.

(** The model of [double] computes what binary64 computes on the samples,
    the input of the counterexample to C5 among them. *)
Lemma double_agrees_with_binary64 :
  forallb (fun nk => same_as_binary64 (fst nk) (snd nk)) double_samples = true.
Proof. vm_compute. reflexivity. Qed.

(** * Further properties *)

(** * Further properties *)

(** ** White space and line ends *)

Lemma append_nil_r (s : string) : s ++ EmptyString = s.
Proof. induction s; simpl; congruence. Qed.

Lemma append_assoc (a b c : string) : (a ++ b) ++ c = a ++ (b ++ c).
Proof. induction a; simpl; congruence. Qed.

Lemma all_chars_app (ok : ascii -> bool) (a b : string) :
  all_chars ok (a ++ b) = all_chars ok a && all_chars ok b.
Proof.
  induction a as [|c a IH]; simpl; [reflexivity|].
  rewrite IH. now rewrite andb_assoc.
Qed.

Lemma ltrim_split (s : string) :
  exists a, s = a ++ ltrim s /\ all_chars isspace a = true.
Proof.
  induction s as [|c s [a [E Ha]]].
  - now exists EmptyString.
  - simpl. destruct (isspace c) eqn:Hc.
    + exists (String c a). simpl. rewrite Hc, Ha. split; [congruence | reflexivity].
    + now exists EmptyString.
Qed.

Lemma rtrim_split (s : string) :
  exists b, s = rtrim s ++ b /\ all_chars isspace b = true.
Proof.
  induction s as [|c s [b [E Hb]]].
  - now exists EmptyString.
  - simpl. destruct (rtrim s) eqn:Hr.
    + simpl in E. destruct (isspace c) eqn:Hc.
      * exists (String c b). simpl. rewrite Hc, Hb. split; [congruence | reflexivity].
      * exists b. simpl. split; [congruence | assumption].
    + exists b. simpl in *. split; [congruence | assumption].
Qed.

Lemma rtrim_last (s : string) : isspace (last_char (rtrim s)) = false.
Proof.
  induction s as [|c s IH]; [reflexivity|].
  simpl. destruct (rtrim s) eqn:Hr.
  - destruct (isspace c) eqn:Hc; simpl; auto.
  - exact IH.
Qed.

(** X1.  [trim_str] returns its argument without the white space at its two
    ends: what it removes in front and behind is white space only, what it
    returns neither starts nor ends with a white-space character, and
    trimming twice is trimming once. *)
Theorem trim_str_middle (s : string) :
  (exists a b,
     s = a ++ trim_str s ++ b
     /\ all_chars isspace a = true /\ all_chars isspace b = true)
  /\ isspace (deref (trim_str s)) = false
  /\ isspace (last_char (trim_str s)) = false
  /\ trim_str (trim_str s) = trim_str s.
Proof.
  unfold trim_str. repeat split.
  - destruct (ltrim_split s) as [a [Ea Ha]].
    destruct (rtrim_split (ltrim s)) as [b [Eb Hb]].
    exists a, b. repeat split; auto.
    rewrite <- Eb. exact Ea.
  - apply rtrim_head, ltrim_head.
  - apply rtrim_last.
  - apply trim_str_idem.
Qed.

Lemma find_alpha_count_ltrim (s : string) :
  exists ws,
    s = ws ++ ltrim s /\ all_chars isspace ws = true
    /\ find_alpha_count s = Z.of_nat (String.length ws).
Proof.
  induction s as [|c s [ws [E [Hw Hc]]]].
  - now exists EmptyString.
  - cbn [find_alpha_count ltrim]. destruct (isspace c) eqn:Hsp.
    + exists (String c ws). rewrite Hc. repeat split.
      * simpl. congruence.
      * simpl. now rewrite Hsp, Hw.
      * change (String.length (String c ws)) with (S (String.length ws)). lia.
    + now exists EmptyString.
Qed.

(** X2.  [find_alpha] moves the cursor over white space and nothing else: it
    stops on the first character that is no white space (or at the end of
    the line), [find_alpha_count] is the number of characters passed, and the
    handler of the specifier [~] does this to the cursor and leaves the
    record alone. *)
Theorem find_alpha_skips_space (conf : GConf) (libc : CLibrary)
  (l : GLogItem) (str p e : string) :
  (exists ws,
     str = ws ++ find_alpha str
     /\ all_chars isspace ws = true
     /\ find_alpha_count str = Z.of_nat (String.length ws))
  /\ isspace (deref (find_alpha str)) = false
  /\ (deref p = "~"%char ->
      parse_specifier conf libc l str p e = Returns (0, l, find_alpha str)).
Proof.
  repeat split.
  - apply find_alpha_count_ltrim.
  - apply ltrim_head.
  - intros H. unfold parse_specifier. rewrite H. reflexivity.
Qed.

Lemma strip_newlines_app (a b : string) :
  strip_newlines (a ++ b) = strip_newlines a ++ strip_newlines b.
Proof.
  induction a as [|c a IH]; simpl; [reflexivity|].
  destruct ((c =? "013")%char || (c =? "010")%char); simpl; congruence.
Qed.

Lemma occurrences_strip_newlines (c : ascii) (s : string) :
  c <> "013"%char -> c <> "010"%char ->
  occurrences c (strip_newlines s) = occurrences c s.
Proof.
  intros H13 H10.
  induction s as [|a s IH]; cbn [strip_newlines occurrences]; [reflexivity|].
  destruct (a =? "013")%char eqn:E13; cbn [orb].
  - apply Ascii.eqb_eq in E13. subst a.
    destruct ("013" =? c)%char eqn:E; [apply Ascii.eqb_eq in E; congruence|].
    rewrite IH. lia.
  - destruct (a =? "010")%char eqn:E10; cbn [occurrences].
    + apply Ascii.eqb_eq in E10. subst a.
      destruct ("010" =? c)%char eqn:E; [apply Ascii.eqb_eq in E; congruence|].
      rewrite IH. lia.
    + rewrite IH. reflexivity.
Qed.

Lemma strip_newlines_length (s : string) :
  (String.length (strip_newlines s) <= String.length s)%nat.
Proof.
  induction s as [|a s IH]; simpl; [lia|].
  destruct ((a =? "013")%char || (a =? "010")%char); simpl; lia.
Qed.

(** X3.  [strip_newlines] removes the carriage returns and the line feeds
    and nothing else: the result holds neither, every other character occurs
    in it as often as before, a string without them is returned as it is, and
    the function works piece by piece on a concatenation. *)
Theorem strip_newlines_removes_line_ends (s t : string) :
  mem_char "013" (strip_newlines s) = false
  /\ mem_char "010" (strip_newlines s) = false
  /\ (forall c, c <> "013"%char -> c <> "010"%char ->
        occurrences c (strip_newlines s) = occurrences c s)
  /\ (mem_char "013" s = false -> mem_char "010" s = false ->
      strip_newlines s = s)
  /\ strip_newlines (s ++ t) = strip_newlines s ++ strip_newlines t
  /\ (String.length (strip_newlines s) <= String.length s)%nat.
Proof.
  destruct (strip_newlines_clean s) as [H1 H2].
  repeat split; auto.
  - intros c. apply occurrences_strip_newlines.
  - apply strip_newlines_id.
  - apply strip_newlines_app.
  - apply strip_newlines_length.
Qed.

Lemma count_matches_occurrences (s : string) (c : ascii) :
  count_matches s c = occurrences c s + (if (c =? NUL)%char then 1 else 0).
Proof.
  induction s as [|a s IH]; cbn [count_matches occurrences]; [lia|].
  rewrite IH. lia.
Qed.

Lemma occurrences_bounds (c : ascii) (s : string) :
  0 <= occurrences c s <= Z.of_nat (String.length s).
Proof.
  induction s as [|a s IH]; cbn [occurrences]; [simpl; lia|].
  change (String.length (String a s)) with (S (String.length s)).
  destruct (a =? c)%char; lia.
Qed.

Lemma occurrences_zero (c : ascii) (s : string) :
  occurrences c s = 0 <-> mem_char c s = false.
Proof.
  induction s as [|a s IH]; cbn [occurrences mem_char]; [tauto|].
  pose proof (occurrences_bounds c s).
  destruct (a =? c)%char; cbn [orb].
  - split; [lia | discriminate].
  - rewrite <- IH. split; lia.
Qed.

Lemma occurrences_app (c : ascii) (a b : string) :
  occurrences c (a ++ b) = occurrences c a + occurrences c b.
Proof.
  induction a as [|x a IH]; cbn [occurrences append]; [reflexivity|].
  rewrite IH. lia.
Qed.

(** X4.  [count_matches] counts the occurrences of the character in the
    string, the terminator included: for the NUL character the result is 1
    on a string that holds none, and for any other character it is the
    number of occurrences, which is 0 exactly when the character does not
    occur, at most the length, and additive over concatenation. *)
Theorem count_matches_counts (s t : string) (c : ascii) :
  (mem_char NUL s = false -> count_matches s NUL = 1)
  /\ (c <> NUL ->
      count_matches s c = occurrences c s
      /\ (count_matches s c = 0 <-> mem_char c s = false)
      /\ 0 <= count_matches s c <= Z.of_nat (String.length s)
      /\ count_matches (s ++ t) c = count_matches s c + count_matches t c).
Proof.
  split.
  - intros H. rewrite count_matches_occurrences.
    apply occurrences_zero in H. rewrite H. reflexivity.
  - intros Hc.
    assert (E : forall u, count_matches u c = occurrences c u).
    { intros u. rewrite count_matches_occurrences.
      destruct (c =? NUL)%char eqn:En; [apply Ascii.eqb_eq in En; congruence | lia]. }
    rewrite !E. repeat split.
    + apply occurrences_zero.
    + apply occurrences_zero.
    + apply occurrences_bounds.
    + apply occurrences_bounds.
    + apply occurrences_app.
Qed.

(** ** Tokens *)

Lemma mem_char_app (c : ascii) (a b : string) :
  mem_char c (a ++ b) = mem_char c a || mem_char c b.
Proof.
  induction a as [|x a IH]; simpl; [reflexivity|].
  rewrite IH. now rewrite orb_assoc.
Qed.

Lemma parse_string_loop_split (n : nat) :
  forall pch end_ cnt idx tok rest,
    (String.length pch <= n)%nat ->
    parse_string_loop pch end_ cnt idx = Some (tok, rest) ->
    pch = tok ++ rest
    /\ (rest = EmptyString \/ deref rest = end_)
    /\ (cnt = idx + 1 -> mem_char "\" tok = false ->
        mem_char end_ tok = false).
Proof.
  induction n as [|n IH]; intros pch end_ cnt idx tok rest Hlen H.
  - destruct pch; [|simpl in Hlen; lia].
    simpl in H. inv_ret. repeat split; auto.
  - destruct pch as [|c r]; [simpl in H; inv_ret; repeat split; auto|].
    cbn [parse_string_loop] in H. cbv zeta in H.
    destruct (c =? end_)%char eqn:Hce.
    + destruct (cnt =? idx + 1) eqn:Hcnt; cbn [andb] in H.
      * inv_ret. repeat split; auto.
        right. simpl. now apply Ascii.eqb_eq.
      * destruct (c =? "\")%char eqn:Hbs.
        -- destruct r as [|c2 r2]; [discriminate|].
           destruct (parse_string_loop r2 end_ cnt (idx + 1))
             as [[tok' rest']|] eqn:Hrec; [|discriminate].
           inv_ret.
           assert (Hl2 : (String.length r2 <= n)%nat) by (simpl in Hlen; lia).
           destruct (IH _ _ _ _ _ _ Hl2 Hrec) as (E & Hr & _).
           repeat split; auto.
           ++ simpl. congruence.
           ++ intros Hc. apply Z.eqb_neq in Hcnt. lia.
        -- destruct (parse_string_loop r end_ cnt (idx + 1))
             as [[tok' rest']|] eqn:Hrec; [|discriminate].
           inv_ret.
           assert (Hl2 : (String.length r <= n)%nat) by (simpl in Hlen; lia).
           destruct (IH _ _ _ _ _ _ Hl2 Hrec) as (E & Hr & _).
           repeat split; auto.
           ++ simpl. congruence.
           ++ intros Hc. apply Z.eqb_neq in Hcnt. lia.
    + cbn [andb] in H.
      destruct (c =? "\")%char eqn:Hbs.
      * destruct r as [|c2 r2]; [discriminate|].
        destruct (parse_string_loop r2 end_ cnt idx)
          as [[tok' rest']|] eqn:Hrec; [|discriminate].
        inv_ret.
        assert (Hl2 : (String.length r2 <= n)%nat) by (simpl in Hlen; lia).
        destruct (IH _ _ _ _ _ _ Hl2 Hrec) as (E & Hr & _).
        repeat split; auto.
        -- simpl. congruence.
        -- intros _ Hm. simpl in Hm.
           apply Ascii.eqb_eq in Hbs. subst c. discriminate.
      * destruct (parse_string_loop r end_ cnt idx)
          as [[tok' rest']|] eqn:Hrec; [|discriminate].
        inv_ret.
        assert (Hl2 : (String.length r <= n)%nat) by (simpl in Hlen; lia).
        destruct (IH _ _ _ _ _ _ Hl2 Hrec) as (E & Hr & Hno).
        repeat split; auto.
        -- simpl. congruence.
        -- intros Hc Hm. simpl in Hm. rewrite Hbs in Hm. simpl in Hm.
           simpl. rewrite Hce. simpl. auto.
Qed.

Lemma strpbrk_some (s accept p : string) :
  strpbrk s accept = Some p -> mem_char (deref p) accept = true.
Proof.
  induction s as [|a s IH]; simpl; [discriminate|].
  destruct (mem_char a accept) eqn:Ha; [|exact IH].
  intros H. inv_ret. exact Ha.
Qed.

Lemma mem_char_deref_app (pre rest : string) :
  rest <> EmptyString -> mem_char (deref rest) (pre ++ rest) = true.
Proof.
  intros Hne. rewrite mem_char_app. destruct rest as [|c r]; [congruence|].
  simpl. rewrite Ascii.eqb_refl. apply orb_true_r.
Qed.

(** X5.  [parse_string] cuts the token off the front of the line: it
    returns the text in front of the new cursor, trimmed, and leaves the
    cursor on a delimiter or at the end of the line.  With [cnt] 1 and no
    backslash in the text passed, the cursor stands on the first occurrence
    of the delimiter; a delimiter behind a backslash does not end the
    token. *)
Theorem parse_string_cursor (str delims : string) (cnt : Z)
  (tok rest : string) :
  mem_char NUL str = false ->
  parse_string str delims cnt = Some (tok, rest) ->
  exists pre,
    str = pre ++ rest
    /\ tok = trim_str pre
    /\ (rest = EmptyString \/ mem_char (deref rest) delims = true)
    /\ (cnt = 1 -> mem_char "\" pre = false -> rest <> EmptyString ->
        mem_char (deref rest) pre = false).
Proof.
  intros Hnul H. unfold parse_string in H.
  destruct (deref delims =? NUL)%char eqn:Hd.
  - destruct (parse_string_loop str NUL cnt 0) as [[t r]|] eqn:Hl;
      [|discriminate].
    injection H as <- <-.
    destruct (parse_string_loop_split _ _ _ _ _ _ _ (le_n _) Hl)
      as (E & Hr & Hno).
    exists t. repeat split; auto.
    + destruct Hr as [Hr|Hr]; [now left|].
      destruct r as [|c r]; [now left|]. simpl in Hr. subst c.
      rewrite E, mem_char_app in Hnul. simpl in Hnul.
      rewrite orb_true_r in Hnul. discriminate.
    + intros Hc Hbs Hne. destruct Hr as [Hr|Hr]; [congruence|].
      rewrite Hr. apply Hno; [lia | assumption].
  - destruct (strpbrk str delims) as [p|] eqn:Hp; [|discriminate].
    destruct (parse_string_loop str (deref p) cnt 0) as [[t r]|] eqn:Hl;
      [|discriminate].
    injection H as <- <-.
    destruct (parse_string_loop_split _ _ _ _ _ _ _ (le_n _) Hl)
      as (E & Hr & Hno).
    exists t. repeat split; auto.
    + destruct Hr as [Hr|Hr]; [now left|]. right. rewrite Hr.
      exact (strpbrk_some _ _ _ Hp).
    + intros Hc Hbs Hne. destruct Hr as [Hr|Hr]; [congruence|].
      rewrite Hr. apply Hno; [lia | assumption].
Qed.

Lemma parse_string_cursor_witness :
  exists pre,
    "GET /x"%string = pre ++ " /x"
    /\ "GET"%string = trim_str pre
    /\ (" /x"%string = EmptyString \/ mem_char (deref " /x") " " = true)
    /\ (1 = 1 -> mem_char "\" pre = false -> " /x"%string <> EmptyString ->
        mem_char (deref " /x") pre = false).
Proof.
  apply (parse_string_cursor "GET /x" " " 1 "GET" " /x"); reflexivity.
Defined.

(** ** More on the handlers *)

Section MoreHandlerProperties.

Variable conf : GConf.
Variable libc : CLibrary.




(** The table gives each protocol its length and in upper case. *)
Lemma http_protocols_entries pr len :
  In (pr, len) http_protocols -> len = String.length pr /\ strtoupper pr = pr.
Proof.
  unfold http_protocols. simpl.
  intros H. repeat (destruct H as [H|H]; [inv_ret; split; reflexivity|]).
  contradiction.
Qed.

(** X7.  A [%H] token is accepted exactly when one of the four protocols of
    the table stands at its head, whatever the case and whatever follows it:
    the field then holds that protocol as the table spells it, the first of
    the table that fits ([HTTP/2.0] is stored as [HTTP/2]).  Any other token
    returns 1 with the message of the spec-token-invalid error. *)
Theorem protocol_token_prefix (l : GLogItem) (str p e tkn str' : string) :
  deref p = "H"%char ->
  protocol l = None ->
  parse_string str e 1 = Some (tkn, str') ->
  (forall pr,
     extract_protocol tkn = Some pr ->
     parse_specifier conf libc l str p e
     = Returns (0, with_protocol l (Some pr), str')
     /\ In pr ["HTTP/1.0"; "HTTP/1.1"; "HTTP/2"; "HTTP/3"]
     /\ ci_prefix pr tkn = true)
  /\ (extract_protocol tkn = None ->
      parse_specifier conf libc l str p e
      = Returns (1,
                 with_errstr l
                   (Some ("Token '" ++ tkn
                          ++ "' doesn't match specifier '%H'")),
                 str')
      /\ forall pr, In pr ["HTTP/1.0"; "HTTP/1.1"; "HTTP/2"; "HTTP/3"] ->
                    ci_prefix pr tkn = false).
Proof.
  intros Hp Hl Hps.
  assert (Hspec :
    parse_specifier conf libc l str p e
    = match extract_protocol tkn with
      | None =>
          Returns (1,
                   with_errstr l
                     (Some ("Token '" ++ tkn
                            ++ "' doesn't match specifier '%H'")),
                   str')
      | Some proto => Returns (0, with_protocol l (Some proto), str')
      end).
  { unfold parse_specifier. rewrite Hp. cbn [Ascii.eqb Bool.eqb].
    unfold spec_protocol, token_invalid, spec_err.
    rewrite Hl, Hps, Hp. reflexivity. }
  rewrite Hspec. clear Hspec. split.
  - intros pr Hm. rewrite Hm. split; [reflexivity|].
    destruct (first_match_some _ _ _ Hm) as (len & Hin & Hmatch).
    destruct (http_protocols_entries _ _ Hin) as [-> _].
    split; [|exact Hmatch].
    change pr with (fst (pr, String.length pr)).
    exact (in_map fst _ _ Hin).
  - intros Hm. rewrite Hm. split; [reflexivity|].
    intros pr Hin.
    change ["HTTP/1.0"; "HTTP/1.1"; "HTTP/2"; "HTTP/3"]
      with (map fst http_protocols) in Hin.
    apply in_map_iff in Hin as ([pr' len] & Heq & Hin).
    simpl in Heq. subst pr'.
    destruct (http_protocols_entries _ _ Hin) as [-> _].
    exact (first_match_none _ _ Hm _ _ Hin).
Qed.

End MoreHandlerProperties.


Lemma protocol_token_prefix_witness :
  parse_specifier default_conf no_libc init_log_item "http/2.0" "H" EmptyString
  = Returns (0, with_protocol init_log_item (Some "HTTP/2"), EmptyString)
  /\ In "HTTP/2"%string ["HTTP/1.0"; "HTTP/1.1"; "HTTP/2"; "HTTP/3"]
  /\ ci_prefix "HTTP/2" "http/2.0" = true.
Proof.
  apply (protocol_token_prefix default_conf no_libc init_log_item
           "http/2.0" "H" EmptyString "http/2.0" EmptyString);
    reflexivity.
Defined.

Lemma toupper_tolower (c : ascii) : toupper (tolower c) = toupper c.
Proof.
  destruct c as [[] [] [] [] [] [] [] []]; vm_compute; reflexivity.
Qed.

Lemma strcasecmp_eq_strtoupper (a b : string) :
  strcasecmp_eq a b = true -> strtoupper b = strtoupper a.
Proof.
  revert b. induction a as [|x a IH]; intros [|y b]; simpl; try discriminate;
    [reflexivity|].
  intros H. apply andb_true_iff in H as [Hc Hr].
  apply Ascii.eqb_eq in Hc.
  rewrite <- (toupper_tolower x), <- (toupper_tolower y), Hc.
  f_equal. now apply IH.
Qed.

(** The words that [is_cache_hit] knows. *)
Lemma is_cache_hit_words (tkn : string) :
  is_cache_hit tkn = true <->
  exists w,
    In w ["MISS"; "BYPASS"; "EXPIRED"; "STALE"; "UPDATING"; "REVALIDATED";
          "HIT"]
    /\ strcasecmp_eq w tkn = true.
Proof.
  unfold is_cache_hit. split.
  - intros H.
    repeat match type of H with
    | (if ?b then _ else _) = true =>
        destruct b eqn:?;
        [eexists; split; [|eassumption]; simpl; tauto|]
    end.
    discriminate.
  - intros (w & Hin & Hw). simpl in Hin.
    repeat (destruct Hin as [<-|Hin]; [rewrite Hw; repeat (match goal with
      |- (if ?b then _ else _) = true => destruct b; [reflexivity|] end);
      reflexivity|]).
    contradiction.
Qed.

Lemma read_digits_nonneg (s : string) :
  forall acc, 0 <= acc -> 0 <= fst (read_digits s acc).
Proof.
  induction s as [|c s IH]; intros acc Hacc; cbn [read_digits]; [exact Hacc|].
  destruct (isdigit c) eqn:Hd; [|exact Hacc].
  apply IH. unfold isdigit in Hd. apply andb_true_iff in Hd as [Hd _].
  apply Z.leb_le in Hd. lia.
Qed.

Lemma strtoull_range (s : string) :
  0 <= strto_value (strtoull s) <= ULLONG_MAX.
Proof.
  unfold strtoull, strto_subject.
  destruct (ltrim s) as [|c r] eqn:Hl; cbn [deref].
  - cbn. unfold ULLONG_MAX. lia.
  - set (sg := match String c r with
               | String "-"%char r0 => (true, r0)
               | String "+"%char r0 => (false, r0)
               | _ => (false, String c r)
               end).
    destruct sg as [neg s2].
    destruct (isdigit (deref s2)); [|cbn; unfold ULLONG_MAX; lia].
    pose proof (read_digits_nonneg s2 0 (Z.le_refl 0)) as Hv.
    destruct (read_digits s2 0) as [v rest]. cbn [fst] in Hv.
    destruct (ULLONG_MAX <? v) eqn:Hm; cbn [strto_value].
    + unfold ULLONG_MAX. lia.
    + apply Z.ltb_ge in Hm. destruct neg; [|lia].
      unfold to_uint64, ULLONG_MAX.
      pose proof (Z.mod_pos_bound (- v) (2 ^ 64) ltac:(lia)). lia.
Qed.

Section TokenProperties.

Variable conf : GConf.
Variable libc : CLibrary.

(** X8.  A [%C] token is never an error.  A token that is, as a whole and
    whatever the case, one of the seven words MISS, BYPASS, EXPIRED, STALE,
    UPDATING, REVALIDATED and HIT is stored as it is written, so that the
    field in upper case is one of these words; any other token leaves the
    field [NULL].  Either way the handler returns 0. *)
Theorem cache_status_token (l : GLogItem) (str p e tkn str' : string) :
  deref p = "C"%char ->
  cache_status l = None ->
  parse_string str e 1 = Some (tkn, str') ->
  parse_specifier conf libc l str p e
  = Returns (0,
             (if is_cache_hit tkn then with_cache_status l (Some tkn) else l),
             str')
  /\ (is_cache_hit tkn = true <->
      In (strtoupper tkn)
        ["MISS"; "BYPASS"; "EXPIRED"; "STALE"; "UPDATING"; "REVALIDATED";
         "HIT"]).
Proof.
  intros Hp Hl Hps. split.
  - unfold parse_specifier. rewrite Hp. cbn [Ascii.eqb Bool.eqb].
    unfold spec_cache_status. rewrite Hl, Hps. cbn [is_some].
    destruct (is_cache_hit tkn); reflexivity.
  - rewrite is_cache_hit_words. split.
    + intros (w & Hin & Hw).
      rewrite (strcasecmp_eq_strtoupper _ _ Hw).
      simpl in Hin.
      repeat (destruct Hin as [<-|Hin]; [simpl; tauto|]). contradiction.
    + intros Hin.
      assert (Hself : forall w, strtoupper tkn = w -> strtoupper w = w ->
                strcasecmp_eq w tkn = true).
      { intros w <- _. clear. induction tkn as [|c s IH]; [reflexivity|].
        simpl. rewrite IH, andb_true_r. apply Ascii.eqb_eq.
        destruct c as [[] [] [] [] [] [] [] []]; vm_compute; reflexivity. }
      simpl in Hin.
      repeat (destruct Hin as [Hin|Hin];
              [eexists; split; [|apply Hself; [symmetry; exact Hin|reflexivity]];
               simpl; tauto|]).
      contradiction.
Qed.

(** X9.  A [%b] token is never an error either.  On an unset size, a token
    of decimal digits whose value fits [unsigned long long] is stored as
    that value; a token on which [strtoull] fails, a hyphen for one, stores
    0, which is how an unset size looks. *)
Theorem size_token (l : GLogItem) (str p e tkn str' : string) :
  deref p = "b"%char ->
  resp_size l = 0 ->
  parse_string str e 1 = Some (tkn, str') ->
  (exists v,
     parse_specifier conf libc l str p e
     = Returns (0, with_resp_size l v, str')
     /\ 0 <= v <= ULLONG_MAX)
  /\ (forall n,
        decimal tkn = Some n -> n <= ULLONG_MAX ->
        parse_specifier conf libc l str p e
        = Returns (0, with_resp_size l n, str'))
  /\ (strto_failed (strtoull tkn) = true ->
      parse_specifier conf libc l str p e
      = Returns (0, with_resp_size l 0, str')).
Proof.
  intros Hp Hl Hps.
  assert (Hspec :
    parse_specifier conf libc l str p e
    = Returns (0,
               with_resp_size l
                 (if strto_failed (strtoull tkn) then 0
                  else strto_value (strtoull tkn)),
               str')).
  { unfold parse_specifier. rewrite Hp. cbn [Ascii.eqb Bool.eqb].
    unfold spec_size. rewrite Hl, Hps. reflexivity. }
  rewrite Hspec. repeat split.
  - eexists. split; [reflexivity|].
    destruct (strto_failed (strtoull tkn)); [unfold ULLONG_MAX; lia|].
    apply strtoull_range.
  - intros n Hd Hn. rewrite (strtoull_decimal _ _ Hd Hn). reflexivity.
  - intros Hf. rewrite Hf. reflexivity.
Qed.

End TokenProperties.

Lemma cache_status_token_witness :
  parse_specifier default_conf no_libc init_log_item "Hit x" "C " " "
  = Returns (0,
             (if is_cache_hit "Hit"
              then with_cache_status init_log_item (Some "Hit")
              else init_log_item),
             " x")
  /\ (is_cache_hit "Hit" = true <->
      In (strtoupper "Hit")
        ["MISS"; "BYPASS"; "EXPIRED"; "STALE"; "UPDATING"; "REVALIDATED";
         "HIT"]).
Proof.
  apply (cache_status_token default_conf no_libc init_log_item
           "Hit x" "C " " " "Hit" " x"); reflexivity.
Defined.

Lemma size_token_witness :
  parse_specifier default_conf no_libc init_log_item "- x" "b " " "
  = Returns (0, with_resp_size init_log_item 0, " x").
Proof.
  apply (size_token default_conf no_libc init_log_item
           "- x" "b " " " "-" " x"); reflexivity.
Defined.

Section FrameProperties.

Variable conf : GConf.
Variable libc : CLibrary.

(** X10.  The handlers of [%u] and [%R] never fail.  On an unset agent,
    [%u] returns 0 and sets the agent: to the decoded token, or to a hyphen
    when there is no token or an empty one.  On an unset referrer, [%R]
    returns 0 and sets the referrer, to a hyphen likewise. *)
Theorem agent_and_referrer_accept_any_token (l : GLogItem)
  (str p e : string) :
  (deref p = "u"%char -> agent l = None ->
   exists a str',
     parse_specifier conf libc l str p e
     = Returns (0, with_agent l (Some a), str')
     /\ (forall tkn rest,
           parse_string str e 1 = Some (tkn, rest) -> deref tkn <> NUL ->
           Some a = decode_url conf (Some tkn))
     /\ ((parse_string str e 1 = None
          \/ exists rest, parse_string str e 1 = Some (EmptyString, rest)) ->
         a = "-"%string))
  /\ (deref p = "R"%char -> ref l = None ->
      exists l' str',
        parse_specifier conf libc l str p e = Returns (0, l', str')
        /\ is_some (ref l') = true
        /\ ((parse_string str e 1 = None
             \/ exists rest, parse_string str e 1 = Some (EmptyString, rest)) ->
            l' = with_ref l (Some "-"))).
Proof.
  split.
  - intros Hp Hl. unfold parse_specifier. rewrite Hp.
    cbn [Ascii.eqb Bool.eqb]. unfold spec_agent. rewrite Hl. cbn [is_some].
    destruct (parse_string str e 1) as [[tkn rest]|] eqn:Hps.
    + destruct (deref tkn =? NUL)%char eqn:Hnul; cbn [negb].
      * exists "-"%string, rest. split; [reflexivity|]. split; [|reflexivity].
        intros tkn0 rest0 H1 Hne. inv_ret.
        apply Ascii.eqb_eq in Hnul. congruence.
      * destruct tkn as [|c t]; [discriminate|].
        rewrite decode_url_some by discriminate.
        eexists _, rest. split; [reflexivity|]. split.
        -- intros tkn0 rest0 H1 _. inv_ret.
           now rewrite decode_url_some by discriminate.
        -- intros [H|[r H]]; discriminate.
    + exists "-"%string, str. split; [reflexivity|]. split; [|reflexivity].
      intros tkn rest H1. discriminate.
  - intros Hp Hl. unfold parse_specifier. rewrite Hp.
    cbn [Ascii.eqb Bool.eqb]. unfold spec_referrer. rewrite Hl. cbn [is_some].
    destruct (parse_string str e 1) as [[tkn rest]|] eqn:Hps.
    + destruct tkn as [|c t].
      * cbn. eexists _, rest. repeat split.
      * set (t1 := if (deref (String c t) =? NUL)%char then "-"%string
                   else String c t).
        destruct (negb (t1 =? "-")%string).
        -- destruct (extract_keyphrase conf t1 (keyphrase l)) as [[rc t2] k].
           destruct (extract_referer_site t2 (site l)) as [rc2 s2].
           eexists _, rest. split; [reflexivity|]. split; [reflexivity|].
           intros [H|[r H]]; discriminate.
        -- eexists _, rest. split; [reflexivity|]. split; [reflexivity|].
           intros [H|[r H]]; discriminate.
    + cbn. eexists _, str. repeat split.
Qed.

(** X11.  Every handler writes the members of its own specifier only.
    What a call of [parse_specifier] leaves of the record differs from what
    it found at most in: the agent for [%u]; the date and the numeric date
    for [%d] and [%x]; the host and its type for [%h]; the key phrase, the
    referrer and its site for [%R]; the method for [%m] and [%r]; the
    protocol for [%H] and [%r]; the query for [%q]; the request for [%U] and
    [%r]; the status for [%s]; the time for [%t] and [%x]; and so on for the
    virtual host, the user, the cache status, the size, the time served, the
    TLS members, the MIME type and the broken-down time.  The error message
    is written only by a call that does not return 0. *)
Theorem parse_specifier_writes_own_members (l : GLogItem)
  (str p e : string) (ret : Z) (l' : GLogItem) (str' : string) :
  parse_specifier conf libc l str p e = Returns (ret, l', str') ->
  (mem_char (deref p) "u" = false -> agent l' = agent l)
  /\ (mem_char (deref p) "dx" = false ->
      date l' = date l /\ numdate l' = numdate l)
  /\ (mem_char (deref p) "h" = false ->
      host l' = host l /\ type_ip l' = type_ip l)
  /\ (mem_char (deref p) "R" = false ->
      keyphrase l' = keyphrase l /\ ref l' = ref l /\ site l' = site l)
  /\ (mem_char (deref p) "mr" = false -> method l' = method l)
  /\ (mem_char (deref p) "Hr" = false -> protocol l' = protocol l)
  /\ (mem_char (deref p) "q" = false -> qstr l' = qstr l)
  /\ (mem_char (deref p) "Ur" = false -> req l' = req l)
  /\ (mem_char (deref p) "s" = false -> status l' = status l)
  /\ (mem_char (deref p) "tx" = false -> time l' = time l)
  /\ (mem_char (deref p) "v" = false -> vhost l' = vhost l)
  /\ (mem_char (deref p) "e" = false -> userid l' = userid l)
  /\ (mem_char (deref p) "C" = false -> cache_status l' = cache_status l)
  /\ (mem_char (deref p) "b" = false -> resp_size l' = resp_size l)
  /\ (mem_char (deref p) "LTDn" = false -> serve_time l' = serve_time l)
  /\ (mem_char (deref p) "k" = false -> tls_cypher l' = tls_cypher l)
  /\ (mem_char (deref p) "K" = false -> tls_type l' = tls_type l)
  /\ (mem_char (deref p) "M" = false -> mime_type l' = mime_type l)
  /\ (mem_char (deref p) "dtx" = false -> dt l' = dt l)
  /\ ignorelevel l' = ignorelevel l
  /\ tls_type_cypher l' = tls_type_cypher l
  /\ (ret = 0 -> errstr l' = errstr l).
Proof.
  intros H.
  switch_cases H;
    repeat match goal with
    | Hc : (_ =? _)%char = true |- _ => apply Ascii.eqb_eq in Hc; rewrite Hc
    end;
    repeat break_match; inv_ret;
    repeat split; try reflexivity; try discriminate; intros;
    try discriminate.
Qed.

End FrameProperties.

Lemma parse_specifier_writes_own_members_witness :
  host (with_resp_size init_log_item 568) = host init_log_item
  /\ type_ip (with_resp_size init_log_item 568) = type_ip init_log_item.
Proof.
  apply (parse_specifier_writes_own_members default_conf no_libc
           init_log_item "568 x" "b " " " 0
           (with_resp_size init_log_item 568) " x" eq_refl).
  reflexivity.
Defined.

(** ** Referrer and request *)

Lemma strstr_some (h n t : string) :
  strstr h n = Some t -> exists pre, h = pre ++ t /\ prefix n t = true.
Proof.
  induction h as [|c h IH]; cbn [strstr].
  - destruct (prefix n EmptyString) eqn:Hp; [|discriminate].
    intros H. inv_ret. now exists EmptyString.
  - destruct (prefix n (String c h)) eqn:Hp.
    + intros H. inv_ret. now exists EmptyString.
    + intros H. destruct (IH H) as (pre & E & Hpre).
      exists (String c pre). simpl. split; [congruence | assumption].
Qed.

Lemma prefix_split (n t : string) :
  prefix n t = true -> exists post, t = n ++ post.
Proof.
  revert t. induction n as [|a n IH]; intros t H.
  - now exists t.
  - destruct t as [|b t]; [discriminate|]. simpl in H.
    destruct (ascii_dec a b) as [->|]; [|discriminate].
    destruct (IH _ H) as (post & ->). now exists post.
Qed.

Lemma strpbrk_split (s accept e : string) :
  strpbrk s accept = Some e ->
  exists pre,
    s = pre ++ e
    /\ (forall c, mem_char c accept = true -> mem_char c pre = false)
    /\ e <> EmptyString.
Proof.
  induction s as [|a s IH]; cbn [strpbrk]; [discriminate|].
  destruct (mem_char a accept) eqn:Ha.
  - intros H. inv_ret. exists EmptyString. repeat split; auto. discriminate.
  - intros H. destruct (IH H) as (pre & E & Hpre & Hne).
    exists (String a pre). repeat split; auto; [simpl; congruence|].
    intros c Hc. simpl. rewrite (Hpre c Hc), orb_false_r.
    destruct (a =? c)%char eqn:Hac; [|reflexivity].
    apply Ascii.eqb_eq in Hac. congruence.
Qed.

Lemma strpbrk_none (s accept : string) :
  strpbrk s accept = None ->
  forall c, mem_char c accept = true -> mem_char c s = false.
Proof.
  induction s as [|a s IH]; cbn [strpbrk]; [reflexivity|].
  destruct (mem_char a accept) eqn:Ha; [discriminate|].
  intros H c Hc. simpl. rewrite (IH H c Hc), orb_false_r.
  destruct (a =? c)%char eqn:Hac; [|reflexivity].
  apply Ascii.eqb_eq in Hac. congruence.
Qed.

Lemma take_drop (n : nat) (s : string) : s = take n s ++ drop n s.
Proof.
  revert s. induction n as [|n IH]; intros [|c s]; simpl; try reflexivity.
  now rewrite <- IH.
Qed.

Lemma take_length (n : nat) (s : string) :
  String.length (take n s) = Nat.min n (String.length s).
Proof.
  revert s. induction n as [|n IH]; intros [|c s]; simpl; try reflexivity.
  now rewrite IH.
Qed.

Lemma take_app_length (a b : string) : take (String.length a) (a ++ b) = a.
Proof. induction a as [|c a IH]; simpl; [now destruct b | now rewrite IH]. Qed.

Lemma mem_char_take (c : ascii) (n : nat) (s : string) :
  mem_char c s = false -> mem_char c (take n s) = false.
Proof.
  revert s. induction n as [|n IH]; intros [|a s]; simpl; try reflexivity.
  intros H. apply orb_false_iff in H as [H1 H2]. now rewrite H1, IH.
Qed.

Lemma length_app (a b : string) :
  String.length (a ++ b) = (String.length a + String.length b)%nat.
Proof. induction a as [|c a IH]; simpl; [reflexivity | now rewrite IH]. Qed.

Lemma take_app_le (n : nat) (a b : string) :
  (n <= String.length a)%nat -> take n (a ++ b) = take n a.
Proof.
  revert n. induction a as [|c a IH]; intros [|n] Hn; simpl in *; try lia;
    try reflexivity.
  f_equal. apply IH. lia.
Qed.

Lemma take_nonempty (n : nat) (s : string) :
  (0 < n)%nat -> s <> EmptyString -> take n s <> EmptyString.
Proof. destruct n; [lia|]. destruct s; [congruence | discriminate]. Qed.

(** X12.  [extract_referer_site] returns 0 or 1.  When it returns 0 the
    site is the text behind the first [//] of the referrer up to the next
    slash or question mark, cut to 511 characters: it is not empty and
    holds neither a slash nor a question mark.  When it returns 1, which it
    does when the referrer is empty, has no [//] or has nothing behind it,
    the buffer is left as it was. *)
Theorem extract_referer_site_result (referer host : string) (rc : Z)
  (host' : string) :
  extract_referer_site referer host = (rc, host') ->
  (rc = 0 \/ rc = 1)
  /\ (rc = 1 -> host' = host)
  /\ (rc = 0 ->
      host' <> EmptyString
      /\ (String.length host' <= 511)%nat
      /\ mem_char "/" host' = false
      /\ mem_char "?" host' = false
      /\ exists pre post, referer = pre ++ "//" ++ host' ++ post)
  /\ (strstr referer "//" = None -> rc = 1).
Proof.
  unfold extract_referer_site. intros H.
  destruct (deref referer =? NUL)%char eqn:Hnul.
  { inv_ret. repeat split; auto; try lia; discriminate. }
  destruct (strstr referer "//") as [b|] eqn:Hs.
  2:{ inv_ret. repeat split; auto; try lia; discriminate. }
  destruct (strstr_some _ _ _ Hs) as (pre & E & Hpre).
  destruct (prefix_split _ _ Hpre) as (begin & Hb).
  assert (Hd : drop 2 b = begin) by (rewrite Hb; reflexivity).
  rewrite Hd in H.
  destruct (String.length begin =? 0)%nat eqn:Hl0.
  { inv_ret. repeat split; auto; try lia; discriminate. }
  apply Nat.eqb_neq in Hl0.
  assert (Hbne : begin <> EmptyString) by (destruct begin; [simpl in Hl0; lia | discriminate]).
  set (len := match strpbrk begin "/?" with
              | Some e => (String.length begin - String.length e)%nat
              | None => String.length begin
              end) in H.
  assert (Hshape :
    exists site post,
      begin = site ++ post /\ String.length site = len
      /\ mem_char "/" site = false /\ mem_char "?" site = false).
  { subst len. destruct (strpbrk begin "/?") as [e0|] eqn:Hpb.
    - destruct (strpbrk_split _ _ _ Hpb) as (site & Eb & Hno & _).
      exists site, e0. repeat split; auto.
      + rewrite Eb, length_app. lia.
    - exists begin, EmptyString. rewrite append_nil_r. repeat split.
      + exact (strpbrk_none _ _ Hpb "/"%char eq_refl).
      + exact (strpbrk_none _ _ Hpb "?"%char eq_refl). }
  destruct Hshape as (site & post & Eb & Hlen & Hsl & Hq).
  destruct (len =? 0)%nat eqn:Hlen0.
  { inv_ret. repeat split; auto; try lia; discriminate. }
  apply Nat.eqb_neq in Hlen0.
  set (n := if (REF_SITE_LEN <=? len)%nat then REF_SITE_LEN else len) in H.
  assert (Hn : (0 < n <= len)%nat /\ (n <= 511)%nat).
  { subst n. unfold REF_SITE_LEN.
    destruct (511 <=? len)%nat eqn:Hc;
      [apply Nat.leb_le in Hc | apply Nat.leb_gt in Hc]; lia. }
  clearbody n.
  assert (Htake : take n begin = take n site).
  { rewrite Eb. apply take_app_le. lia. }
  injection H as <- <-.
  split; [now left|]. split; [discriminate|]. split; [|discriminate].
  intros _.
  repeat split.
  - apply take_nonempty; [lia | assumption].
  - rewrite take_length. lia.
  - rewrite Htake. now apply mem_char_take.
  - rewrite Htake. now apply mem_char_take.
  - exists pre, (drop n begin). rewrite E, Hb.
    rewrite (take_drop n begin) at 1. reflexivity.
Qed.

Lemma extract_referer_site_result_witness :
  (0 = 0 \/ 0 = 1)
  /\ (0 = 1 -> "example.com"%string = EmptyString)
  /\ (0 = 0 ->
      "example.com"%string <> EmptyString
      /\ (String.length "example.com" <= 511)%nat
      /\ mem_char "/" "example.com" = false
      /\ mem_char "?" "example.com" = false
      /\ exists pre post,
           "http://example.com/a?b"%string
           = pre ++ "//" ++ "example.com" ++ post)
  /\ (strstr "http://example.com/a?b" "//" = None -> 0 = 1).
Proof.
  apply (extract_referer_site_result "http://example.com/a?b" EmptyString 0
           "example.com" eq_refl).
Defined.

Lemma prefix_refl (s : string) : prefix s s = true.
Proof.
  induction s as [|c s IH]; simpl; [reflexivity|].
  destruct (ascii_dec c c); [assumption | congruence].
Qed.

Lemma prefix_take (n : nat) (s : string) : prefix (take n s) s = true.
Proof.
  revert s. induction n as [|n IH]; intros [|c s]; simpl; try reflexivity.
  destruct (ascii_dec c c); [apply IH | congruence].
Qed.

Lemma mem_char_char_replace (o n : ascii) (s : string) :
  o <> n -> mem_char o (char_replace s o n) = false.
Proof.
  intros Hne. induction s as [|c s IH]; simpl; [reflexivity|].
  rewrite IH, orb_false_r.
  destruct (c =? o)%char eqn:Hc.
  - apply Ascii.eqb_neq. congruence.
  - exact Hc.
Qed.

Section ReferrerProperties.

Variable conf : GConf.

(** X13.  [extract_keyphrase] returns 0 or 1 and never lengthens the
    referrer it is given: what it leaves in the buffer is a prefix of what it
    found.  When it returns 1 the key phrase is left as it was, and it
    returns 1 with the buffer untouched whenever none of the six Google
    addresses occurs in the referrer.  When it returns 0 the key phrase is
    set to a decoded text that holds no plus sign and is trimmed. *)
Theorem extract_keyphrase_result (ref : string) (k : option string)
  (rc : Z) (ref' : string) (k' : option string) :
  extract_keyphrase conf ref k = (rc, ref', k') ->
  (rc = 0 \/ rc = 1)
  /\ prefix ref' ref = true
  /\ (rc = 1 -> k' = k)
  /\ (rc = 0 ->
      exists kp,
        k' = Some kp /\ mem_char "+" kp = false /\ trim_str kp = kp)
  /\ ((forall g,
         In g ["http://www.google.";
               "http://webcache.googleusercontent.com/";
               "http://translate.googleusercontent.com/";
               "https://www.google.";
               "https://webcache.googleusercontent.com/";
               "https://translate.googleusercontent.com/"] ->
         strstr ref g = None) ->
      rc = 1 /\ ref' = ref).
Proof.
  unfold extract_keyphrase. intros H.
  repeat break_match; inv_ret.
  all: repeat split; auto; try discriminate;
    try apply prefix_refl; try apply prefix_take.
  all: try (intros _; eexists; split; [reflexivity|]; split;
            [apply mem_char_trim_str, mem_char_char_replace; discriminate
            | apply trim_str_idem]).
  all: match goal with
       | Hg : forall g, In g _ -> strstr _ g = None |- _ =>
           repeat match goal with
           | Hb : context [strstr _ ?g] |- _ =>
               rewrite (Hg g) in Hb
                 by (repeat first [left; reflexivity | right])
           end
       end; cbn [negb is_some andb] in *; discriminate.
Qed.

End ReferrerProperties.

Lemma extract_keyphrase_result_witness :
  (0 = 0 \/ 0 = 1)
  /\ prefix "http://www.google.com/search?q=a+b" 
       "http://www.google.com/search?q=a+b&x=1" = true.
Proof.
  pose proof (extract_keyphrase_result default_conf
           "http://www.google.com/search?q=a+b&x=1" None 0
           "http://www.google.com/search?q=a+b" (Some "a b") eq_refl) as H.
  split; [exact (proj1 H) | exact (proj1 (proj2 H))].
Defined.

Lemma http_methods_lengths name len :
  In (name, len) http_methods -> (0 < len)%nat.
Proof.
  unfold http_methods. simpl. intros H.
  repeat (destruct H as [H|H]; [inv_ret; lia|]). contradiction.
Qed.

Lemma extract_method_nonempty (tkn m : string) :
  extract_method tkn = Some m -> tkn <> EmptyString.
Proof.
  intros H ->.
  destruct (first_match_some _ _ _ H) as (len & Hin & Hm).
  pose proof (http_methods_lengths _ _ Hin) as Hpos.
  destruct (http_methods_entries _ _ Hin) as [-> _].
  destruct m; [simpl in Hpos; lia | discriminate].
Qed.

Section RequestProperties.

Variable conf : GConf.
Variable libc : CLibrary.
Variable ht_json_logfmt : string -> option string.
Variable parse_json_string :
  (GLogItem -> option string -> option string -> outcome (Z * GLogItem)) ->
  GLogItem -> string -> outcome (Z * GLogItem).

(** X14.  [parse_req] takes the method and the protocol from a request
    line only together: either it leaves both members as they were, or a
    method of the table stands at the head of the line and a protocol of the
    table behind its last blank, and each of the two members is set to the
    table's spelling when its option ([append_method], [append_protocol]) is
    on.  The request it returns is empty only for an empty line; a line with
    a method but no protocol behind its last blank gives a hyphen, and so
    does one with nothing between the two. *)
Theorem parse_req_result (line : string) (m0 p0 : option string)
  (r : string) (m pr : option string) :
  parse_req conf line m0 p0 = (r, m, pr) ->
  ((m = m0 /\ pr = p0)
   \/ exists meth proto,
        extract_method line = Some meth
        /\ In meth (map fst http_methods)
        /\ In proto (map fst http_protocols)
        /\ m = (if append_method conf then Some meth else m0)
        /\ pr = (if append_protocol conf then Some proto else p0))
  /\ (r = EmptyString <-> line = EmptyString)
  /\ (forall meth,
        extract_method line = Some meth ->
        (forall sp,
           strrchr (drop (String.length meth) line) " " = Some sp ->
           extract_protocol (next sp) = None) ->
        r = "-"%string /\ m = m0 /\ pr = p0).
Proof.
  unfold parse_req. intros H.
  assert (Hfinish : forall (request : string) (m1 p1 : option string)
                      (r1 : string) (m2 p2 : option string),
    match decode_url conf (Some request) with
    | None => (request, m1, p1)
    | Some dreq =>
        if (deref dreq =? NUL)%char then (request, m1, p1)
        else (dreq, m1, p1)
    end = (r1, m2, p2) ->
    m2 = m1 /\ p2 = p1 /\ (request <> EmptyString -> r1 <> EmptyString)
    /\ (request = EmptyString -> r1 = EmptyString)).
  { intros request m1 p1 r1 m2 p2 Hf.
    destruct request as [|c t].
    - simpl in Hf. inv_ret. repeat split; auto.
    - destruct (decode_url conf (Some (String c t))) as [dreq|].
      + destruct (deref dreq =? NUL)%char eqn:Hd; inv_ret.
        * repeat split; auto; discriminate.
        * repeat split; auto; try discriminate.
          intros _ Hr1. rewrite Hr1 in Hd. discriminate.
      + inv_ret. repeat split; auto; discriminate. }
  destruct (extract_method line) as [meth|] eqn:Hm.
  - pose proof (extract_method_nonempty _ _ Hm) as Hne.
    destruct (first_match_some _ _ _ Hm) as (len & Hin & _).
    destruct (http_methods_entries _ _ Hin) as [_ Hup].
    destruct (strrchr (drop (String.length meth) line) " ") as [sp|] eqn:Hsp.
    2:{ inv_ret. repeat split; auto; try discriminate; try congruence. }
    destruct (extract_protocol (next sp)) as [proto|] eqn:Hpr.
    2:{ inv_ret. repeat split; auto; try discriminate; try congruence. }
    destruct (first_match_some _ _ _ Hpr) as (plen & Hpin & _).
    destruct (http_protocols_entries _ _ Hpin) as [_ Hpup].
    set (req := next (drop (String.length meth) line)) in H.
    set (rlen := Z.of_nat (String.length req)
                 - Z.of_nat (String.length (next sp))) in H.
    destruct (rlen <=? 0) eqn:Hrl.
    { inv_ret. repeat split; auto; try discriminate; try congruence. }
    apply Z.leb_gt in Hrl.
    destruct (Hfinish _ _ _ _ _ _ H) as (-> & -> & Hr1 & _).
    rewrite Hup, Hpup. split; [|split].
    + right. exists meth, proto. repeat split; auto.
      * change meth with (fst (meth, len)). exact (in_map fst _ _ Hin).
      * change proto with (fst (proto, plen)). exact (in_map fst _ _ Hpin).
    + split; [|congruence]. intros Hr. exfalso. apply Hr1; [|exact Hr].
      apply take_nonempty; [lia|].
      destruct req; [simpl in rlen; lia | discriminate].
    + intros meth0 Hm0 Hnone. inv_ret.
      specialize (Hnone _ Hsp). congruence.
  - destruct (Hfinish _ _ _ _ _ _ H) as (-> & -> & Hr1 & Hr2).
    split; [now left|]. split; [|discriminate].
    split; [|exact Hr2].
    intros Hr. destruct line; [reflexivity|].
    exfalso. apply Hr1; [discriminate | exact Hr].
Qed.



End RequestProperties.

Lemma parse_req_result_witness :
  ((Some "GET" = None /\ Some "HTTP/1.1" = None)
   \/ exists meth proto,
        extract_method "get /a%20b http/1.1" = Some meth
        /\ In meth (map fst http_methods)
        /\ In proto (map fst http_protocols)
        /\ Some "GET" = (if append_method default_conf then Some meth else None)
        /\ Some "HTTP/1.1"
           = (if append_protocol default_conf then Some proto else None))
  /\ ("/a b"%string = EmptyString
      <-> "get /a%20b http/1.1"%string = EmptyString).
Proof.
  pose proof (parse_req_result default_conf "get /a%20b http/1.1" None None
                "/a b" (Some "GET") (Some "HTTP/1.1") eq_refl) as H.
  split; [exact (proj1 H) | exact (proj1 (proj2 H))].
Defined.


(** ** The strings of the configuration *)

Lemma unescape_str_loop_length (s : string) :
  (String.length (unescape_str_loop s) <= String.length s)%nat.
Proof.
  remember (String.length s) as n eqn:Hn.
  assert (Hle : (String.length s <= n)%nat) by lia. clear Hn.
  revert s Hle. induction n as [|n IH]; intros s Hle.
  - destruct s; [simpl; lia | simpl in Hle; lia].
  - destruct s as [|c r]; [simpl; lia|].
    cbn [unescape_str_loop]. destruct (c =? "\")%char.
    + destruct r as [|e r']; [simpl; lia|].
      cbn [String.length] in *.
      assert (String.length (unescape_str_loop r') <= n)%nat.
      { specialize (IH r'). assert (String.length r' <= n)%nat by lia.
        specialize (IH H). lia. }
      lia.
    + cbn [String.length] in *.
      assert (String.length r <= n)%nat by lia.
      specialize (IH r H). lia.
Qed.

Lemma unescape_str_loop_plain (a : string) :
  mem_char "\" a = false -> unescape_str_loop a = a.
Proof.
  induction a as [|c r IH]; [reflexivity|].
  cbn [mem_char unescape_str_loop]. intros H.
  apply orb_false_iff in H as [Hc Hr]. rewrite Hc, (IH Hr). reflexivity.
Qed.

Lemma unescape_str_loop_app (a b : string) :
  mem_char "\" a = false ->
  unescape_str_loop (a ++ b) = a ++ unescape_str_loop b.
Proof.
  induction a as [|c r IH]; [reflexivity|].
  cbn [mem_char]. intros H. apply orb_false_iff in H as [Hc Hr].
  change (String c r ++ b) with (String c (r ++ b)).
  cbn [unescape_str_loop]. rewrite Hc, (IH Hr). reflexivity.
Qed.

(** X16.  [unescape_str] returns [NULL] exactly for the empty string.
    Otherwise the text it returns is not longer than its argument, so that
    the buffer of [strlen (src) + 1] bytes holds it.  The text in front of
    the first backslash is copied as it is; the backslash and the character
    behind it become one character, a line feed for [n], a carriage return
    for [r], a tab for [t] and the character itself for any other; a
    backslash that ends the argument ends the text. *)
Theorem unescape_str_result (s : string) :
  (unescape_str (Some s) = None <-> s = EmptyString)
  /\ (forall d,
        unescape_str (Some s) = Some d ->
        (String.length d <= String.length s)%nat
        /\ (mem_char "\" s = false -> d = s)
        /\ (forall a e b,
              mem_char "\" a = false ->
              s = a ++ String "\" (String e b) ->
              d = a ++ String (if (e =? "n")%char then "010"%char
                               else if (e =? "r")%char then "013"%char
                               else if (e =? "t")%char then "009"%char
                               else e)
                        (unescape_str_loop b))
        /\ (forall a,
              mem_char "\" a = false -> s = a ++ "\" -> d = a)).
Proof.
  split.
  - destruct s; simpl; split; congruence.
  - intros d Hd.
    assert (Hl : d = unescape_str_loop s).
    { unfold unescape_str in Hd.
      destruct s; [discriminate | now injection Hd as <-]. }
    subst d. split; [apply unescape_str_loop_length|].
    split; [apply unescape_str_loop_plain|]. split.
    + intros a e b Ha ->. now rewrite (unescape_str_loop_app _ _ Ha).
    + intros a Ha ->. rewrite (unescape_str_loop_app _ _ Ha).
      cbn. clear. induction a; simpl; congruence.
Qed.

(** ** The date and time formats *)

Lemma clean_loop_idem (p : string) (special : bool) :
  Config.clean_date_time_format_loop
    (Config.clean_date_time_format_loop p special) special
  = Config.clean_date_time_format_loop p special.
Proof.
  revert special. induction p as [|c r IH]; intros special; [reflexivity|].
  cbn [Config.clean_date_time_format_loop].
  destruct ((c =? "%")%char || special) eqn:E.
  - cbn [Config.clean_date_time_format_loop]. rewrite E, IH. reflexivity.
  - apply IH.
Qed.

Lemma clean_loop_length (p : string) (special : bool) :
  (String.length (Config.clean_date_time_format_loop p special)
   <= String.length p)%nat.
Proof.
  revert special. induction p as [|c r IH]; intros special; [simpl; lia|].
  cbn [Config.clean_date_time_format_loop].
  destruct ((c =? "%")%char || special).
  - cbn [String.length]. specialize (IH (negb special)). lia.
  - cbn [String.length]. specialize (IH special). lia.
Qed.

Lemma clean_loop_skip (a b : string) :
  mem_char "%" a = false ->
  Config.clean_date_time_format_loop (a ++ b) false
  = Config.clean_date_time_format_loop b false.
Proof.
  induction a as [|c r IH]; [reflexivity|].
  cbn [mem_char]. intros H. apply orb_false_iff in H as [Hc Hr].
  change (String c r ++ b) with (String c (r ++ b)).
  cbn [Config.clean_date_time_format_loop]. rewrite Hc. cbn [orb].
  exact (IH Hr).
Qed.

Lemma clean_loop_mem (c : ascii) (p : string) (special : bool) :
  mem_char c (Config.clean_date_time_format_loop p special) = true ->
  mem_char c p = true.
Proof.
  revert special. induction p as [|a r IH]; intros special; [discriminate|].
  cbn [Config.clean_date_time_format_loop].
  destruct ((a =? "%")%char || special).
  - cbn [mem_char]. intros H. apply orb_true_iff in H as [H|H].
    + now rewrite H.
    + rewrite (IH _ H). apply orb_true_r.
  - intros H. cbn [mem_char]. rewrite (IH _ H). apply orb_true_r.
Qed.

(** X17.  [clean_date_time_format] returns [NULL] exactly for the empty
    format.  Otherwise it keeps the specifiers and drops the text between
    them: the text in front of a percent sign is dropped, the percent sign
    and the character behind it are kept.  The result is not longer than
    the format, holds no character that the format does not hold, starts
    with a percent sign unless it is empty, and is left as it is by a second
    cleaning. *)
Theorem clean_date_time_format_result (f : string) :
  (Config.clean_date_time_format (Some f) = None <-> f = EmptyString)
  /\ (forall g,
        Config.clean_date_time_format (Some f) = Some g ->
        (String.length g <= String.length f)%nat
        /\ (forall c, mem_char c g = true -> mem_char c f = true)
        /\ (g <> EmptyString -> deref g = "%"%char)
        /\ (forall a x b,
              mem_char "%" a = false ->
              f = a ++ String "%" (String x b) ->
              g = String "%"
                    (String x (Config.clean_date_time_format_loop b false)))
        /\ (mem_char "%" f = false -> g = EmptyString)
        /\ (g <> EmptyString ->
            Config.clean_date_time_format (Some g) = Some g)).
Proof.
  split.
  - destruct f; simpl; split; congruence.
  - intros g Hg.
    assert (Hl : g = Config.clean_date_time_format_loop f false).
    { unfold Config.clean_date_time_format in Hg.
      destruct f; [discriminate | now injection Hg as <-]. }
    clear Hg. subst g. split; [apply clean_loop_length|].
    split; [intros c; apply clean_loop_mem|]. split.
    { clear. induction f as [|c r IH]; [simpl; congruence|].
      cbn [Config.clean_date_time_format_loop]. rewrite orb_false_r.
      destruct (c =? "%")%char eqn:E.
      - intros _. apply Ascii.eqb_eq in E. now subst c.
      - exact IH. }
    split.
    { intros a x b Ha ->. rewrite (clean_loop_skip _ _ Ha).
      cbn [Config.clean_date_time_format_loop]. rewrite Ascii.eqb_refl.
      cbn [orb negb]. rewrite orb_true_r. reflexivity. }
    split.
    { intros H. rewrite <- (append_nil_r f), (clean_loop_skip _ _ H).
      reflexivity. }
    intros Hne.
    destruct (Config.clean_date_time_format_loop f false) as [|c g] eqn:E;
      [congruence|].
    unfold Config.clean_date_time_format. rewrite <- E, clean_loop_idem.
    reflexivity.
Qed.

Lemma take_all (n : nat) (s : string) :
  (String.length s <= n)%nat -> take n s = s.
Proof.
  revert n. induction s as [|c r IH]; intros n H.
  - destruct n; reflexivity.
  - destruct n; [simpl in H; lia|]. cbn [take]. rewrite IH; [reflexivity|].
    simpl in H. lia.
Qed.

Lemma snprintf_at_fits (buf : string) (flen buflen : Z) (s : string) :
  buflen + Z.of_nat (String.length s) < flen ->
  Config.snprintf_at buf flen buflen s
  = Returns (buf ++ s, buflen + Z.of_nat (String.length s)).
Proof.
  intros H. unfold Config.snprintf_at.
  destruct (flen - buflen <? 0) eqn:E1; [apply Z.ltb_lt in E1; lia|].
  destruct (flen - buflen =? 0) eqn:E2; [apply Z.eqb_eq in E2; lia|].
  rewrite take_all; [reflexivity|]. lia.
Qed.

Lemma set_date_num_format_some (c : Config.conf.t) (fdate : string) :
  Config.set_format_date c = Returns (Some fdate) ->
  exists v,
    Config.set_date_num_format c
    = Returns (0, Config.conf.mk (Config.conf.date_format c) (Some v)
                    (Config.conf.time_format c)
                    (Config.conf.spec_date_time_format c)
                    (Config.conf.spec_date_time_num_format c)
                    (Config.conf.log_format c)
                    (Config.conf.is_json_log_format c)
                    (Config.conf.bandwidth c) (Config.conf.date_spec_hr c)
                    (Config.conf.serve_usecs c))
    /\ In v ["%Y"; "%Y%m"; "%Y%d"; "%Y%m%d"].
Proof.
  intros H. unfold Config.set_date_num_format. rewrite H. cbn [bind].
  destruct (Config.is_date_abbreviated fdate).
  { eexists. split; [reflexivity|]. simpl. tauto. }
  set (flen := Z.max Config.MIN_DATENUM_FMT_LEN
                 (Z.of_nat (String.length fdate) + 1)).
  assert (Hflen : 7 <= flen) by (unfold flen, Config.MIN_DATENUM_FMT_LEN; lia).
  rewrite (snprintf_at_fits "" flen 0 "%Y") by (simpl; lia).
  cbn [bind append String.length Z.of_nat Pos.of_succ_nat Pos.succ Z.add
       Pos.add].
  destruct (is_some (strpbrk fdate "hbmBf*"));
    destruct (is_some (strpbrk fdate "def*")).
  - rewrite (snprintf_at_fits "%Y" flen 2 "%m") by (simpl; lia).
    cbn [bind]. rewrite (snprintf_at_fits _ flen _ "%d") by (simpl; lia).
    cbn [bind]. eexists. split; [reflexivity|]. simpl. tauto.
  - rewrite (snprintf_at_fits "%Y" flen 2 "%m") by (simpl; lia).
    cbn [bind]. eexists. split; [reflexivity|]. simpl. tauto.
  - cbn [bind]. rewrite (snprintf_at_fits "%Y" flen 2 "%d") by (simpl; lia).
    cbn [bind]. eexists. split; [reflexivity|]. simpl. tauto.
  - cbn [bind]. eexists. split; [reflexivity|]. simpl. tauto.
Qed.

(** X18.  [set_date_num_format] on a configuration with a date format
    returns 1 and leaves the configuration alone when the format is empty.
    For every other date format it returns 0 and sets the numeric date
    format, and nothing else, to one of [%Y], [%Y%m], [%Y%d] and [%Y%m%d]:
    the three [snprintf] always have room in the buffer. *)
Theorem set_date_num_format_result (c : Config.conf.t) (df : string) :
  Config.conf.date_format c = Some df ->
  (df = EmptyString -> Config.set_date_num_format c = Returns (1, c))
  /\ (df <> EmptyString ->
      exists v,
        Config.set_date_num_format c
        = Returns (0, Config.conf.mk (Config.conf.date_format c) (Some v)
                        (Config.conf.time_format c)
                        (Config.conf.spec_date_time_format c)
                        (Config.conf.spec_date_time_num_format c)
                        (Config.conf.log_format c)
                        (Config.conf.is_json_log_format c)
                        (Config.conf.bandwidth c)
                        (Config.conf.date_spec_hr c)
                        (Config.conf.serve_usecs c))
        /\ In v ["%Y"; "%Y%m"; "%Y%d"; "%Y%m%d"]).
Proof.
  intros Hdf. split.
  - intros ->. unfold Config.set_date_num_format, Config.set_format_date.
    rewrite Hdf. reflexivity.
  - intros Hne.
    assert (exists fdate, Config.set_format_date c = Returns (Some fdate))
      as [fdate Hf].
    { unfold Config.set_format_date. rewrite Hdf.
      destruct (has_timestamp df); [eexists; reflexivity|].
      destruct df; [congruence|]. eexists. reflexivity. }
    exact (set_date_num_format_some c fdate Hf).
Qed.

Lemma set_date_num_format_result_witness :
  exists v,
    Config.set_date_num_format
      (Config.with_date_format Config.init (Some "%d/%b/%Y"))
    = Returns (0, Config.conf.mk (Some "%d/%b/%Y") (Some v) None None None
                    None 0 0 0 0)
    /\ In v ["%Y"; "%Y%m"; "%Y%d"; "%Y%m%d"].
Proof.
  apply (proj2 (set_date_num_format_result
                  (Config.with_date_format Config.init (Some "%d/%b/%Y"))
                  "%d/%b/%Y" eq_refl)).
  discriminate.
Defined.

(** ** The predefined formats *)

Lemma toupper_idem (c : ascii) : toupper (toupper c) = toupper c.
Proof.
  destruct c as [[] [] [] [] [] [] [] []]; vm_compute; reflexivity.
Qed.

Lemma strtoupper_idem (s : string) : strtoupper (strtoupper s) = strtoupper s.
Proof.
  induction s as [|c r IH]; [reflexivity|].
  cbn [strtoupper]. now rewrite toupper_idem, IH.
Qed.

(** The names of [LOGTYPE] are in upper case, and [str2enum] finds the item
    of a name that is in the table. *)
Lemma str2enum_LOGTYPE (s : string) :
  (Config.str2enum Config.LOGTYPE s = -1
   /\ ~ In s (map fst Config.LOGTYPE))
  \/ (In (s, Config.str2enum Config.LOGTYPE s) Config.LOGTYPE
      /\ strtoupper s = s
      /\ 0 <= Config.str2enum Config.LOGTYPE s <= 12).
Proof.
  unfold Config.LOGTYPE. cbn [Config.str2enum map fst].
  repeat match goal with
         | |- context [(s =? ?n)%string] =>
             destruct (String.eqb_spec s n) as [->|];
             [right; split;
              [cbn [In]; repeat first [left; reflexivity | right]
              |split; [reflexivity | vm_compute; split; discriminate]]|]
         end.
  left. split; [reflexivity|]. cbn [In]. intros H.
  repeat match type of H with
         | _ \/ _ => destruct H as [H|H]; [congruence|]
         end.
  exact H.
Qed.

(** X19.  [get_log_format_item_enum] finds the name of a predefined format
    whatever its case: its result is that of [str2enum] on the name in upper
    case, and is the same for the name and for the name in upper case.  It is
    -1 exactly when the name in upper case is none of [LOGTYPE], and
    otherwise the item that [LOGTYPE] gives for it, from 0 to 12. *)
Theorem get_log_format_item_enum_case (s : string) :
  Config.get_log_format_item_enum s
  = Config.str2enum Config.LOGTYPE (strtoupper s)
  /\ Config.get_log_format_item_enum (strtoupper s)
     = Config.get_log_format_item_enum s
  /\ (Config.get_log_format_item_enum s = -1 <->
      ~ In (strtoupper s) (map fst Config.LOGTYPE))
  /\ (Config.get_log_format_item_enum s <> -1 ->
      In (strtoupper s, Config.get_log_format_item_enum s) Config.LOGTYPE
      /\ 0 <= Config.get_log_format_item_enum s <= 12).
Proof.
  assert (H1 : forall t, Config.get_log_format_item_enum t
                         = Config.str2enum Config.LOGTYPE (strtoupper t)).
  { intros t. unfold Config.get_log_format_item_enum.
    destruct (str2enum_LOGTYPE t) as [[E _]|(_ & Hu & Hr)].
    - rewrite E. reflexivity.
    - rewrite Hu.
      destruct (0 <=? Config.str2enum Config.LOGTYPE t) eqn:E;
        [reflexivity | apply Z.leb_gt in E; lia]. }
  split; [apply H1|]. split.
  { rewrite (H1 (strtoupper s)), strtoupper_idem. symmetry. apply H1. }
  rewrite H1.
  destruct (str2enum_LOGTYPE (strtoupper s)) as [[E Hn]|(Hin & _ & Hr)].
  - rewrite E. split; [tauto | congruence].
  - split; [|intros _; split; assumption].
    split; [lia|]. intros Hn. exfalso. apply Hn.
    change (strtoupper s)
      with (fst (strtoupper s,
                 Config.str2enum Config.LOGTYPE (strtoupper s))).
    exact (in_map fst _ _ Hin).
Qed.

(** X20.  [set_log_format_str] with the name of a predefined format, in
    any case, sets the three formats together: the log format to the
    predefined one, unescaped, and the date and the time format to the ones
    that belong to it, so that [verify_formats] finds nothing missing.  The
    JSON flag is raised for CADDY, the one predefined format that
    [is_json_log_format] accepts, and left as it was for the others; the
    numeric and the spec formats and the hour setting are not touched. *)
Theorem set_log_format_str_preset (oarg : string) (c : Config.conf.t) :
  Config.get_log_format_item_enum oarg <> -1 ->
  exists fmt df tf,
    Config.get_selected_format_str (Config.get_log_format_item_enum oarg)
    = Some fmt
    /\ Config.get_selected_date_str (Config.get_log_format_item_enum oarg)
       = Some df
    /\ Config.get_selected_time_str (Config.get_log_format_item_enum oarg)
       = Some tf
    /\ Config.is_json_log_format fmt
       = (if Config.get_log_format_item_enum oarg =? Config.CADDY
          then 1 else 0)
    /\ Config.conf.log_format (Config.set_log_format_str oarg c)
       = unescape_str (Some fmt)
    /\ Config.conf.date_format (Config.set_log_format_str oarg c) = Some df
    /\ Config.conf.time_format (Config.set_log_format_str oarg c) = Some tf
    /\ Config.conf.is_json_log_format (Config.set_log_format_str oarg c)
       = (if Config.get_log_format_item_enum oarg =? Config.CADDY
          then 1 else Config.conf.is_json_log_format c)
    /\ Config.verify_formats (Config.set_log_format_str oarg c) = None
    /\ Config.conf.date_num_format (Config.set_log_format_str oarg c)
       = Config.conf.date_num_format c
    /\ Config.conf.spec_date_time_format (Config.set_log_format_str oarg c)
       = Config.conf.spec_date_time_format c
    /\ Config.conf.spec_date_time_num_format
         (Config.set_log_format_str oarg c)
       = Config.conf.spec_date_time_num_format c
    /\ Config.conf.date_spec_hr (Config.set_log_format_str oarg c)
       = Config.conf.date_spec_hr c.
Proof.
  intros Hne.
  destruct (get_log_format_item_enum_case oarg) as (_ & _ & _ & Hin).
  destruct (Hin Hne) as [Hi _]. clear Hin.
  unfold Config.set_log_format_str, Config.set_time_format_str,
    Config.set_date_format_str.
  destruct c as [df0 dn0 tf0 sf0 sn0 lf0 j0 bw0 hr0 su0].
  remember (Config.get_log_format_item_enum oarg) as idx eqn:Hidx.
  clear Hidx Hne. unfold Config.LOGTYPE in Hi. cbn [In] in Hi.
  repeat match type of Hi with
         | _ \/ _ => destruct Hi as [Hi|Hi]
         end;
    try contradiction;
    injection Hi as _ <-;
    eexists; eexists; eexists;
    (split; [vm_compute; reflexivity|]);
    (split; [vm_compute; reflexivity|]);
    (split; [vm_compute; reflexivity|]);
    (split; [vm_compute; reflexivity|]);
    vm_compute; repeat split.
Qed.

Lemma set_log_format_str_preset_witness :
  exists fmt df tf,
    Config.get_selected_format_str (Config.get_log_format_item_enum "w3c")
    = Some fmt
    /\ Config.get_selected_date_str (Config.get_log_format_item_enum "w3c")
       = Some df
    /\ Config.get_selected_time_str (Config.get_log_format_item_enum "w3c")
       = Some tf.
Proof.
  destruct (set_log_format_str_preset "w3c" Config.init)
    as (fmt & df & tf & H1 & H2 & H3 & _); [vm_compute; discriminate|].
  exists fmt, df, tf. repeat split; assumption.
Defined.

(** X21.  On a configuration in which [verify_formats] finds the three
    formats and whose JSON flag is down, [set_spec_date_format] returns
    without touching the table and sets the three derived formats, and
    nothing else: the numeric date format to one of [%Y], [%Y%m], [%Y%d]
    and [%Y%m%d]; the numeric spec format to that, followed by [%H] (only
    with [date_spec_hr] 1) or [%H%M] (only with [date_spec_hr] 2) or nothing;
    and the spec format to the day, the month and the year of the numeric
    date format, separated by slashes, followed by the hour and the minute
    of that ending, each behind a colon.  No [snprintf] of the three
    functions runs out of room. *)
Theorem set_spec_date_format_literal (c : Config.conf.t) (hash : ss32) :
  Config.verify_formats c = None ->
  Config.conf.is_json_log_format c = 0 ->
  exists dn sd hr sh,
    Config.set_spec_date_format c hash
    = Returns (Config.conf.mk (Config.conf.date_format c) (Some dn)
                 (Config.conf.time_format c) (Some (sd ++ sh))
                 (Some (dn ++ hr)) (Config.conf.log_format c) 0
                 (Config.conf.bandwidth c) (Config.conf.date_spec_hr c)
                 (Config.conf.serve_usecs c),
               hash)
    /\ In (dn, sd) [("%Y", "%Y"); ("%Y%m", "%b/%Y"); ("%Y%d", "%d/%Y");
                    ("%Y%m%d", "%d/%b/%Y")]
    /\ In (hr, sh) [("", ""); ("%H", ":%H"); ("%H%M", ":%H:%M")]
    /\ (hr = "%H" -> Config.conf.date_spec_hr c = 1)
    /\ (hr = "%H%M" -> Config.conf.date_spec_hr c = 2).
Proof.
  intros Hv Hj. destruct c as [df dn0 tf sf0 sn0 lf j bw hr0 su].
  cbn [Config.conf.is_json_log_format] in Hj. subst j.
  cbn [Config.conf.date_format Config.conf.time_format
       Config.conf.log_format Config.conf.bandwidth Config.conf.date_spec_hr
       Config.conf.serve_usecs].
  unfold Config.set_spec_date_format. rewrite Hv.
  cbn [is_some Config.conf.is_json_log_format Z.eqb negb bind].
  unfold Config.verify_formats in Hv.
  cbn [Config.conf.date_format Config.conf.time_format
       Config.conf.log_format] in Hv.
  destruct tf as [tf|]; [|discriminate].
  destruct df as [df|];
    [|destruct (Config.null_or_empty (Some tf)); discriminate].
  assert (Htf : tf <> EmptyString).
  { intros ->. discriminate. }
  assert (Hdf : df <> EmptyString).
  { intros ->. destruct (Config.null_or_empty (Some tf)); discriminate. }
  clear Hv.
  destruct (proj2 (set_date_num_format_result
                     (Config.conf.mk (Some df) dn0 (Some tf) sf0 sn0 lf 0 bw
                        hr0 su) df eq_refl) Hdf) as (dn & Hset & Hdn).
  rewrite Hset. clear Hset.
  cbn [Config.conf.date_format Config.conf.time_format
       Config.conf.log_format Config.conf.bandwidth Config.conf.date_spec_hr
       Config.conf.serve_usecs Config.conf.spec_date_time_format
       Config.conf.spec_date_time_num_format Config.conf.is_json_log_format
       bind Z.eqb].
  unfold Config.set_spec_date_time_num_format, Config.set_format_time.
  cbn [Config.conf.date_format Config.conf.time_format
       Config.conf.date_num_format Config.conf.date_spec_hr].
  assert (exists tf',
             (if has_timestamp df || (tf =? "%T")%string
              then Returns (Some "%H%M%S")
              else Returns (Config.clean_date_time_format (Some tf)))
             = Returns (Some tf')) as [tf' ->].
  { destruct (has_timestamp df || (tf =? "%T")%string);
      [eexists; reflexivity|].
    destruct tf; [congruence|]. eexists. reflexivity. }
  cbn [bind].
  assert (Hsd : exists sd,
             In (dn, sd) [("%Y", "%Y"); ("%Y%m", "%b/%Y"); ("%Y%d", "%d/%Y");
                          ("%Y%m%d", "%d/%b/%Y")]).
  { cbn [In] in Hdn. destruct Hdn as [<-|[<-|[<-|[<-|[]]]]];
      eexists; cbn [In]; repeat first [left; reflexivity | right]. }
  destruct Hsd as [sd Hsd]. clear Hdn. exists dn, sd.
  destruct ((hr0 =? 1) && is_some (strchr tf' "H")) eqn:E1;
    [|destruct ((hr0 =? 2) && is_some (strchr tf' "M")) eqn:E2].
  - apply andb_true_iff in E1 as [E1 _]. apply Z.eqb_eq in E1. subst hr0.
    exists "%H", ":%H". cbn [In] in Hsd.
    split; [|split; [exact Hsd|split; [cbn [In]; tauto|]];
             split; [reflexivity | discriminate]].
    cbn [In] in Hsd.
    destruct Hsd as [H|[H|[H|[H|[]]]]]; injection H as <- <-;
      vm_compute; reflexivity.
  - apply andb_true_iff in E2 as [E2 _]. apply Z.eqb_eq in E2. subst hr0.
    exists "%H%M", ":%H:%M".
    split; [|split; [exact Hsd|split; [cbn [In]; tauto|]];
             split; [discriminate | reflexivity]].
    cbn [In] in Hsd.
    destruct Hsd as [H|[H|[H|[H|[]]]]]; injection H as <- <-;
      vm_compute; reflexivity.
  - exists "", "".
    split; [|split; [exact Hsd|split; [cbn [In]; tauto|]];
             split; discriminate].
    cbn [In] in Hsd.
    destruct Hsd as [H|[H|[H|[H|[]]]]]; injection H as <- <-;
      vm_compute; reflexivity.
Qed.

Lemma set_spec_date_format_literal_witness :
  exists dn sd hr sh,
    Config.set_spec_date_format
      (Config.set_log_format_str "COMBINED" Config.init) []
    = Returns (Config.conf.mk (Some "%d/%b/%Y") (Some dn) (Some "%H:%M:%S")
                 (Some (sd ++ sh)) (Some (dn ++ hr))
                 (unescape_str (Some Config.logs.combined)) 0 1 0 0,
               [])
    /\ In (dn, sd) [("%Y", "%Y"); ("%Y%m", "%b/%Y"); ("%Y%d", "%d/%Y");
                    ("%Y%m%d", "%d/%b/%Y")]
    /\ In (hr, sh) [("", ""); ("%H", ":%H"); ("%H%M", ":%H:%M")].
Proof.
  destruct (set_spec_date_format_literal
              (Config.set_log_format_str "COMBINED" Config.init) []
              eq_refl eq_refl) as (dn & sd & hr & sh & H1 & H2 & H3 & _).
  exists dn, sd, hr, sh. repeat split; assumption.
Defined.

(** ** The JSON reader *)

Lemma reads_on_refl (json : Json.json_stream) : reads_on json json.
Proof.
  unfold reads_on. repeat split; auto. now exists EmptyString.
Qed.

Lemma reads_on_trans (a b c : Json.json_stream) :
  reads_on b c -> reads_on a b -> reads_on a c.
Proof.
  intros (S2 & N2 & F2 & E2 & p2 & P2) (S1 & N1 & F1 & E1 & p1 & P1).
  unfold reads_on. repeat split; try congruence; auto.
  exists (p1 ++ p2). rewrite P1, P2. symmetry. apply append_assoc.
Qed.

Lemma reads_on_error (a json : Json.json_stream) :
  reads_on a json -> reads_on a (Json.json_error json).
Proof.
  intros (S1 & N1 & F1 & E1 & P1). unfold reads_on. repeat split; auto.
Qed.

Lemma reads_on_with_data (a json : Json.json_stream) (d : string) :
  reads_on a json -> reads_on a (Json.with_data json d).
Proof.
  intros (S1 & N1 & F1 & E1 & P1). unfold reads_on. repeat split; auto.
Qed.

Lemma reads_on_pushchar (a json : Json.json_stream) (c : Z) :
  reads_on a json -> reads_on a (Json.pushchar json c).
Proof. apply reads_on_with_data. Qed.

Lemma reads_on_init_string (a json : Json.json_stream) :
  reads_on a json -> reads_on a (Json.init_string json).
Proof. apply reads_on_with_data. Qed.

Lemma reads_on_with_source (json : Json.json_stream) (pre src : string) :
  Json.source json = pre ++ src -> reads_on json (Json.with_source json src).
Proof.
  intros H. unfold reads_on. repeat split; auto. now exists pre.
Qed.

Lemma reads_on_fold_pushchar (l : list Z) (a json : Json.json_stream) :
  reads_on a json -> reads_on a (fold_left Json.pushchar l json).
Proof.
  revert json. induction l as [|c l IH]; intros json H; [exact H|].
  cbn [fold_left]. apply IH. now apply reads_on_pushchar.
Qed.

Lemma reads_on_buffer_get (json : Json.json_stream) (c : Z)
  (json' : Json.json_stream) :
  Json.buffer_get json = (c, json') -> reads_on json json'.
Proof.
  unfold Json.buffer_get. destruct (Json.source json) as [|a r] eqn:E;
    intros H; injection H as <- <-.
  - apply reads_on_refl.
  - apply (reads_on_with_source _ (String a EmptyString)). exact E.
Qed.

Create HintDb reads.
#[export] Hint Resolve reads_on_buffer_get : reads.

(** [reads_on a b], from the calls that lead from [a] to [b]. *)
Ltac ro :=
  lazymatch goal with
  | |- reads_on ?a ?a => apply reads_on_refl
  | |- reads_on _ (Json.json_error _) => apply reads_on_error; ro
  | |- reads_on _ (Json.pushchar _ _) => apply reads_on_pushchar; ro
  | |- reads_on _ (Json.init_string _) => apply reads_on_init_string; ro
  | |- reads_on _ (Json.with_data _ _) => apply reads_on_with_data; ro
  | |- reads_on _ (fold_left Json.pushchar _ _) =>
      apply reads_on_fold_pushchar; ro
  | H : reads_on ?a ?b |- reads_on ?a ?b => exact H
  | |- reads_on _ _ =>
      eapply reads_on_trans; [solve [eauto with reads] | ro]
  end.

Ltac reads_cases H :=
  repeat (inv_ret; break_match); inv_ret; try discriminate; try ro.

Lemma reads_on_is_match (pattern : string) (t : Json.json_type)
  (json : Json.json_stream) (r : Json.json_type) (json' : Json.json_stream) :
  Json.is_match json pattern t = (r, json') -> reads_on json json'.
Proof.
  revert json. induction pattern as [|p rest IH]; intros json H.
  - injection H as <- <-. ro.
  - cbn [Json.is_match] in H.
    destruct (Json.buffer_get json) as [c j1] eqn:G.
    destruct (negb (Json.int_of_char p =? c)).
    + injection H as <- <-. ro.
    + apply IH in H. ro.
Qed.

Lemma reads_on_encode_utf8 (json : Json.json_stream) (c r : Z)
  (json' : Json.json_stream) :
  Json.encode_utf8 json c = (r, json') -> reads_on json json'.
Proof.
  unfold Json.encode_utf8. intros H. reads_cases H.
Qed.

#[export] Hint Resolve reads_on_is_match reads_on_encode_utf8 : reads.

Lemma reads_on_read_unicode_cp_loop (n : nat) (shift cp : Z)
  (json : Json.json_stream) (r : Z) (json' : Json.json_stream) :
  Json.read_unicode_cp_loop n shift cp json = (r, json') ->
  reads_on json json'.
Proof.
  revert shift cp json. induction n as [|n IH]; intros shift cp json H.
  - injection H as <- <-. ro.
  - cbn [Json.read_unicode_cp_loop] in H.
    destruct (Json.buffer_get json) as [c j1] eqn:G.
    destruct (c =? Json.EOF); [injection H as <- <-; ro|].
    destruct (Json.hexchar c =? -1); [injection H as <- <-; ro|].
    apply IH in H. ro.
Qed.

Lemma reads_on_read_unicode_cp (json : Json.json_stream) (r : Z)
  (json' : Json.json_stream) :
  Json.read_unicode_cp json = (r, json') -> reads_on json json'.
Proof. apply reads_on_read_unicode_cp_loop. Qed.

#[export] Hint Resolve reads_on_read_unicode_cp : reads.

Lemma reads_on_read_unicode (json : Json.json_stream) (r : Z)
  (json' : Json.json_stream) :
  Json.read_unicode json = (r, json') -> reads_on json json'.
Proof.
  unfold Json.read_unicode. intros H. reads_cases H.
Qed.

#[export] Hint Resolve reads_on_read_unicode : reads.

Lemma reads_on_read_escaped (json : Json.json_stream) (r : Z)
  (json' : Json.json_stream) :
  Json.read_escaped json = (r, json') -> reads_on json json'.
Proof.
  unfold Json.read_escaped. intros H. reads_cases H.
Qed.

Lemma reads_on_read_utf8_bytes (n : nat) (json : Json.json_stream)
  (l : list Z) (json' : Json.json_stream) :
  Json.read_utf8_bytes n json = (l, json') -> reads_on json json'.
Proof.
  revert json l. induction n as [|n IH]; intros json l H.
  - injection H as <- <-. ro.
  - cbn [Json.read_utf8_bytes] in H.
    destruct (Json.buffer_get json) as [c j1] eqn:G.
    destruct (Json.read_utf8_bytes n j1) as [rest j2] eqn:R.
    injection H as <- <-. apply IH in R. ro.
Qed.

#[export] Hint Resolve reads_on_read_escaped reads_on_read_utf8_bytes : reads.

Lemma reads_on_read_utf8 (json : Json.json_stream) (c r : Z)
  (json' : Json.json_stream) :
  Json.read_utf8 json c = (r, json') -> reads_on json json'.
Proof.
  unfold Json.read_utf8. intros H. reads_cases H.
Qed.

#[export] Hint Resolve reads_on_read_utf8 : reads.

Lemma reads_on_read_string_loop (fuel : nat) (json : Json.json_stream)
  (t : Json.json_type) (json' : Json.json_stream) :
  Json.read_string_loop fuel json = Some (t, json') -> reads_on json json'.
Proof.
  revert json. induction fuel as [|fuel IH]; intros json H; [discriminate|].
  cbn [Json.read_string_loop] in H.
  destruct (Json.buffer_get json) as [c j1] eqn:G.
  destruct (c =? Json.EOF); [inv_ret; ro|].
  destruct (c =? 34); [inv_ret; ro|].
  destruct (c =? code "\").
  { destruct (Json.read_escaped j1) as [r j2] eqn:R.
    destruct (negb (r =? 0)); [inv_ret; ro|]. apply IH in H. ro. }
  destruct (128 <=? to_uint32 c).
  { destruct (Json.read_utf8 j1 c) as [r j2] eqn:R.
    destruct (negb (r =? 0)); [inv_ret; ro|]. apply IH in H. ro. }
  destruct (Json.char_needs_escaping c); [inv_ret; ro|].
  apply IH in H.
  eapply reads_on_trans; [exact H|]. ro.
Qed.

Lemma reads_on_read_string (json : Json.json_stream) (t : Json.json_type)
  (json' : Json.json_stream) :
  Json.read_string json = (t, json') -> reads_on json json'.
Proof.
  unfold Json.read_string. intros H.
  destruct (Json.read_string_loop _ _) as [[t1 j1]|] eqn:R.
  - injection H as <- <-. apply reads_on_read_string_loop in R.
    eapply reads_on_trans; [exact R|]. ro.
  - injection H as <- <-. ro.
Qed.

Lemma reads_on_read_digits_loop (src : string) (json : Json.json_stream)
  (n : Z) (pre : string) (r : Z) (json' : Json.json_stream) :
  Json.source json = pre ++ src ->
  Json.read_digits_loop src json n = (r, json') -> reads_on json json'.
Proof.
  revert json n pre. induction src as [|c src IH]; intros json n pre Hs H.
  - injection H as <- <-. now apply (reads_on_with_source _ pre).
  - cbn [Json.read_digits_loop] in H.
    destruct (Json.is_digit (Json.int_of_char c)).
    + apply (IH _ _ (pre ++ String c EmptyString)) in H.
      * eapply reads_on_trans; [exact H|]. ro.
      * cbn [Json.pushchar Json.with_data Json.source]. rewrite Hs.
        rewrite append_assoc. reflexivity.
    + injection H as <- <-. now apply (reads_on_with_source _ pre).
Qed.

Lemma reads_on_read_digits (json : Json.json_stream) (r : Z)
  (json' : Json.json_stream) :
  Json.read_digits json = (r, json') -> reads_on json json'.
Proof.
  unfold Json.read_digits. intros H.
  destruct (Json.read_digits_loop _ _ _) as [n j1] eqn:R.
  apply (reads_on_read_digits_loop _ _ _ EmptyString) in R; [|reflexivity].
  destruct (n =? 0); injection H as <- <-; ro.
Qed.

#[export] Hint Resolve reads_on_read_string reads_on_read_digits : reads.

Lemma reads_on_read_number_digits (json : Json.json_stream) (c : Z)
  (t : Json.json_type) (json' : Json.json_stream) :
  Json.read_number_digits json c = (t, json') -> reads_on json json'.
Proof.
  unfold Json.read_number_digits. intros H. reads_cases H.
Qed.

#[export] Hint Resolve reads_on_read_number_digits : reads.

Lemma reads_on_read_number (json : Json.json_stream) (c : Z)
  (t : Json.json_type) (json' : Json.json_stream) :
  Json.read_number json c = (t, json') -> reads_on json json'.
Proof.
  unfold Json.read_number. intros H. reads_cases H.
Qed.

#[export] Hint Resolve reads_on_read_number : reads.

(** A reader that fails leaves the error flag up. *)

Lemma hexchar_range (c : Z) :
  Json.hexchar c = -1 \/ 0 <= Json.hexchar c <= 15.
Proof.
  unfold Json.hexchar.
  repeat match goal with
         | |- context [match ?x with _ => _ end] => destruct x
         end; lia.
Qed.

Create HintDb fails.

Ltac closed_test :=
  match goal with
  | H : negb (?a =? ?b) = true |- _ =>
      is_var a; fail 1
  | H : negb (?a =? ?b) = true |- _ => vm_compute in H; discriminate H
  | H : (?a =? ?b) = true |- _ =>
      is_var a; fail 1
  | H : (?a =? ?b) = true |- _ => vm_compute in H; discriminate H
  end.

Ltac fails_cases :=
  repeat (inv_ret; break_match); inv_ret;
  try discriminate; try reflexivity; try closed_test;
  eauto with fails.

Lemma encode_utf8_fails (json : Json.json_stream) (c r : Z)
  (json' : Json.json_stream) :
  Json.encode_utf8 json c = (r, json') ->
  negb (r =? 0) = true -> Json.flag_error json' = true.
Proof.
  unfold Json.encode_utf8. intros H Hr. fails_cases.
Qed.

#[export] Hint Resolve encode_utf8_fails : fails.

Lemma read_unicode_cp_loop_fails (n : nat) (shift cp : Z)
  (json : Json.json_stream) (r : Z) (json' : Json.json_stream) :
  0 <= cp ->
  Json.read_unicode_cp_loop n shift cp json = (r, json') ->
  (r =? -1) = true -> Json.flag_error json' = true.
Proof.
  revert shift cp json. induction n as [|n IH]; intros shift cp json Hcp H Hr.
  - injection H as <- <-. apply Z.eqb_eq in Hr. lia.
  - cbn [Json.read_unicode_cp_loop] in H.
    destruct (Json.buffer_get json) as [c j1] eqn:G.
    destruct (c =? Json.EOF); [injection H as <- <-; reflexivity|].
    destruct (Json.hexchar c =? -1) eqn:Eh;
      [injection H as <- <-; reflexivity|].
    apply IH in H; [exact H| |exact Hr].
    apply Z.eqb_neq in Eh. pose proof (hexchar_range c) as Hh.
    pose proof (Z.shiftl_nonneg 1 shift) as Hs.
    assert (0 <= Z.shiftl 1 shift) by (apply Hs; lia). nia.
Qed.

Lemma read_unicode_cp_fails (json : Json.json_stream) (r : Z)
  (json' : Json.json_stream) :
  Json.read_unicode_cp json = (r, json') ->
  (r =? -1) = true -> Json.flag_error json' = true.
Proof. apply read_unicode_cp_loop_fails. lia. Qed.

#[export] Hint Resolve read_unicode_cp_fails : fails.

Lemma read_unicode_fails (json : Json.json_stream) (r : Z)
  (json' : Json.json_stream) :
  Json.read_unicode json = (r, json') ->
  negb (r =? 0) = true -> Json.flag_error json' = true.
Proof.
  unfold Json.read_unicode. intros H Hr. fails_cases.
Qed.

#[export] Hint Resolve read_unicode_fails : fails.

Lemma read_escaped_fails (json : Json.json_stream) (r : Z)
  (json' : Json.json_stream) :
  Json.read_escaped json = (r, json') ->
  negb (r =? 0) = true -> Json.flag_error json' = true.
Proof.
  unfold Json.read_escaped. intros H Hr. fails_cases.
Qed.

Lemma read_utf8_fails (json : Json.json_stream) (c r : Z)
  (json' : Json.json_stream) :
  Json.read_utf8 json c = (r, json') ->
  negb (r =? 0) = true -> Json.flag_error json' = true.
Proof.
  unfold Json.read_utf8. intros H Hr. fails_cases.
Qed.

#[export] Hint Resolve read_escaped_fails read_utf8_fails : fails.

Lemma read_string_loop_fails (fuel : nat) (json : Json.json_stream)
  (json' : Json.json_stream) :
  Json.read_string_loop fuel json = Some (Json.JSON_ERROR, json') ->
  Json.flag_error json' = true.
Proof.
  revert json. induction fuel as [|fuel IH]; intros json H; [discriminate|].
  cbn [Json.read_string_loop] in H.
  destruct (Json.buffer_get json) as [c j1] eqn:G.
  destruct (c =? Json.EOF); [inv_ret; reflexivity|].
  destruct (c =? 34); [discriminate|].
  destruct (c =? code "\").
  { destruct (Json.read_escaped j1) as [r j2] eqn:R.
    destruct (negb (r =? 0)) eqn:E; [inv_ret; eauto with fails|].
    now apply IH in H. }
  destruct (128 <=? to_uint32 c).
  { destruct (Json.read_utf8 j1 c) as [r j2] eqn:R.
    destruct (negb (r =? 0)) eqn:E; [inv_ret; eauto with fails|].
    now apply IH in H. }
  destruct (Json.char_needs_escaping c); [inv_ret; reflexivity|].
  now apply IH in H.
Qed.

Lemma read_string_fails (json json' : Json.json_stream) :
  Json.read_string json = (Json.JSON_ERROR, json') ->
  Json.flag_error json' = true.
Proof.
  unfold Json.read_string. intros H.
  destruct (Json.read_string_loop _ _) as [[t1 j1]|] eqn:R.
  - injection H as -> ->. now apply read_string_loop_fails in R.
  - injection H as <-. reflexivity.
Qed.

Lemma is_match_fails (pattern : string) (t : Json.json_type)
  (json json' : Json.json_stream) :
  t <> Json.JSON_ERROR ->
  Json.is_match json pattern t = (Json.JSON_ERROR, json') ->
  Json.flag_error json' = true.
Proof.
  intros Ht. revert json. induction pattern as [|p rest IH]; intros json H.
  - injection H as E _. congruence.
  - cbn [Json.is_match] in H.
    destruct (Json.buffer_get json) as [c j1] eqn:G.
    destruct (negb (Json.int_of_char p =? c)).
    + injection H as <-. reflexivity.
    + now apply IH in H.
Qed.

Lemma read_digits_fails (json : Json.json_stream) (r : Z)
  (json' : Json.json_stream) :
  Json.read_digits json = (r, json') ->
  negb (r =? 0) = true -> Json.flag_error json' = true.
Proof.
  unfold Json.read_digits. intros H Hr. fails_cases.
Qed.

#[export] Hint Resolve read_string_fails read_digits_fails : fails.

Lemma read_number_digits_fails (json : Json.json_stream) (c : Z)
  (json' : Json.json_stream) :
  Json.read_number_digits json c = (Json.JSON_ERROR, json') ->
  Json.flag_error json' = true.
Proof.
  unfold Json.read_number_digits. intros H. fails_cases.
Qed.

#[export] Hint Resolve read_number_digits_fails : fails.

Lemma read_number_fails (json : Json.json_stream) (c : Z)
  (json' : Json.json_stream) :
  Json.read_number json c = (Json.JSON_ERROR, json') ->
  Json.flag_error json' = true.
Proof.
  unfold Json.read_number. intros H. fails_cases.
Qed.

Lemma read_value_fails (json : Json.json_stream) (c : Z)
  (json' : Json.json_stream) :
  Json.read_value json c = (Json.JSON_ERROR, json') ->
  Json.flag_error json' = true.
Proof.
  unfold Json.read_value, Json.push. intros H.
  repeat (inv_ret; break_match); inv_ret; try discriminate;
    try reflexivity;
    eauto using read_number_fails, read_string_fails.
  all: eapply is_match_fails; [|eassumption]; discriminate.
Qed.

Lemma pop_fails (json : Json.json_stream) (c : Z) (expected : Json.json_type)
  (json' : Json.json_stream) :
  Json.pop json c expected = (Json.JSON_ERROR, json') ->
  Json.flag_error json' = true.
Proof.
  unfold Json.pop. intros H. fails_cases.
Qed.

#[export] Hint Resolve read_value_fails pop_fails : fails.

Lemma json_next_fails (json json' : Json.json_stream) :
  Json.json_next json = (Json.JSON_ERROR, json') ->
  Json.flag_error json' = true.
Proof.
  unfold Json.json_next. intros H. fails_cases.
Qed.

(** The position only moves on. *)

Lemma moves_on_refl (json : Json.json_stream) : moves_on json json.
Proof. split; [reflexivity | now exists EmptyString]. Qed.

Lemma moves_on_trans (a b c : Json.json_stream) :
  moves_on b c -> moves_on a b -> moves_on a c.
Proof.
  intros (F2 & p2 & P2) (F1 & p1 & P1). split; [congruence|].
  exists (p1 ++ p2). rewrite P1, P2. symmetry. apply append_assoc.
Qed.

Lemma moves_on_reads (a b : Json.json_stream) : reads_on a b -> moves_on a b.
Proof. intros (_ & _ & F & _ & P). split; assumption. Qed.

Lemma moves_on_error (a json : Json.json_stream) :
  moves_on a json -> moves_on a (Json.json_error json).
Proof. intros H. exact H. Qed.

Lemma moves_on_with_stack (a json : Json.json_stream)
  (v : list Json.json_stack) :
  moves_on a json -> moves_on a (Json.with_stack json v).
Proof. intros H. exact H. Qed.

Lemma moves_on_with_ntokens (a json : Json.json_stream) (v : Z) :
  moves_on a json -> moves_on a (Json.with_ntokens json v).
Proof. intros H. exact H. Qed.

Lemma moves_on_count_incr (a json : Json.json_stream) :
  moves_on a json -> moves_on a (Json.count_incr json).
Proof.
  intros H. unfold Json.count_incr. destruct (Json.stack json); exact H.
Qed.

Lemma moves_on_left_over (a b : Json.json_stream) :
  moves_on a b -> (left_over b <= left_over a)%nat.
Proof.
  intros (_ & pre & P). unfold left_over. rewrite P, length_app. lia.
Qed.

Lemma next_loop_moves (src : string) (json : Json.json_stream) (pre : string)
  (c : Z) (json' : Json.json_stream) :
  Json.source json = pre ++ src ->
  Json.next_loop src json = (c, json') ->
  reads_on json json'
  /\ ((c =? Json.EOF) = false ->
      (left_over json' < String.length src)%nat).
Proof.
  revert pre. induction src as [|a src IH]; intros pre Hs H.
  - injection H as <- <-. split; [now apply (reads_on_with_source _ pre)|].
    discriminate.
  - cbn [Json.next_loop] in H.
    destruct (Json.json_isspace (Json.int_of_char a)).
    + apply (IH (pre ++ String a EmptyString)) in H.
      * destruct H as [H1 H2]. split; [exact H1|].
        intros Hc. specialize (H2 Hc). cbn [String.length]. lia.
      * rewrite Hs, append_assoc. reflexivity.
    + injection H as <- <-. split.
      * apply (reads_on_with_source _ (pre ++ String a EmptyString)).
        rewrite Hs, append_assoc. reflexivity.
      * intros _. unfold left_over. cbn [Json.with_source Json.source
                                         String.length]. lia.
Qed.

Lemma next_moves (json : Json.json_stream) (c : Z)
  (json' : Json.json_stream) :
  Json.next json = (c, json') ->
  reads_on json json'
  /\ ((c =? Json.EOF) = false -> (left_over json' < left_over json)%nat).
Proof.
  unfold Json.next. apply (next_loop_moves _ _ EmptyString). reflexivity.
Qed.

Lemma reads_on_next (json : Json.json_stream) (c : Z)
  (json' : Json.json_stream) :
  Json.next json = (c, json') -> reads_on json json'.
Proof. intros H. exact (proj1 (next_moves _ _ _ H)). Qed.

Lemma reads_on_trailing_space (src : string) (json : Json.json_stream)
  (pre : string) (c : Z) (json' : Json.json_stream) :
  Json.source json = pre ++ src ->
  Json.trailing_space src json = (c, json') -> reads_on json json'.
Proof.
  revert pre. induction src as [|a src IH]; intros pre Hs H.
  - injection H as <- <-. now apply (reads_on_with_source _ pre).
  - cbn [Json.trailing_space] in H.
    destruct (Json.json_isspace (Json.int_of_char a)).
    + apply (IH (pre ++ String a EmptyString)) in H; [exact H|].
      rewrite Hs, append_assoc. reflexivity.
    + injection H as <- <-. now apply (reads_on_with_source _ pre).
Qed.

Lemma moves_on_with_data (a json : Json.json_stream) (d : string) :
  moves_on a json -> moves_on a (Json.with_data json d).
Proof. intros H. exact H. Qed.

Create HintDb moves.
#[export] Hint Resolve moves_on_reads : moves.

(** [moves_on a b], from the calls that lead from [a] to [b]. *)
Ltac mo :=
  lazymatch goal with
  | |- moves_on ?a ?a => apply moves_on_refl
  | |- moves_on _ (Json.json_error _) => apply moves_on_error; mo
  | |- moves_on _ (Json.count_incr _) => apply moves_on_count_incr; mo
  | |- moves_on _ (Json.with_stack _ _) => apply moves_on_with_stack; mo
  | |- moves_on _ (Json.with_ntokens _ _) => apply moves_on_with_ntokens; mo
  | |- moves_on _ (Json.init_string _) => apply moves_on_with_data; mo
  | |- moves_on _ (Json.with_data _ _) => apply moves_on_with_data; mo
  | H : moves_on ?a ?b |- moves_on ?a ?b => exact H
  | |- moves_on _ _ =>
      eapply moves_on_trans; [solve [eauto with moves reads] | mo]
  end.

Lemma moves_on_read_value (json : Json.json_stream) (c : Z)
  (t : Json.json_type) (json' : Json.json_stream) :
  Json.read_value json c = (t, json') -> moves_on json json'.
Proof.
  unfold Json.read_value, Json.push. intros H. cbv zeta in H.
  change (moves_on (Json.with_ntokens json (Json.ntokens json + 1)) json').
  remember (Json.with_ntokens json (Json.ntokens json + 1)) as j0 eqn:E.
  clear E. repeat break_match; inv_ret; mo.
Qed.

Lemma moves_on_pop (json : Json.json_stream) (c : Z)
  (expected : Json.json_type) (t : Json.json_type)
  (json' : Json.json_stream) :
  Json.pop json c expected = (t, json') -> moves_on json json'.
Proof.
  unfold Json.pop. intros H.
  repeat (inv_ret; break_match); inv_ret; mo.
Qed.

Lemma moves_on_next (json : Json.json_stream) (c : Z)
  (json' : Json.json_stream) :
  Json.next json = (c, json') -> moves_on json json'.
Proof. intros H. apply moves_on_reads. exact (reads_on_next _ _ _ H). Qed.

Lemma moves_on_trailing_space (json : Json.json_stream) (c : Z)
  (json' : Json.json_stream) :
  Json.trailing_space (Json.source json) json = (c, json') ->
  moves_on json json'.
Proof.
  intros H. apply moves_on_reads.
  now apply (reads_on_trailing_space _ _ EmptyString) in H.
Qed.

#[export] Hint Resolve moves_on_read_value moves_on_pop moves_on_next
  moves_on_trailing_space : moves.

Lemma json_next_moves (json : Json.json_stream) (t : Json.json_type)
  (json' : Json.json_stream) :
  Json.json_next json = (t, json') -> moves_on json json'.
Proof.
  unfold Json.json_next. intros H.
  repeat (inv_ret; break_match); inv_ret; mo.
Qed.

Lemma read_value_eof (json : Json.json_stream) :
  Json.read_value json Json.EOF
  = (Json.JSON_ERROR,
     Json.json_error (Json.with_ntokens json (Json.ntokens json + 1))).
Proof. reflexivity. Qed.

Lemma json_next_strict (json : Json.json_stream) (t : Json.json_type)
  (json' : Json.json_stream) :
  Json.json_next json = (t, json') ->
  t <> Json.JSON_ERROR -> t <> Json.JSON_DONE ->
  (left_over json' < left_over json)%nat.
Proof.
  unfold Json.json_next. intros H Ht1 Ht2.
  destruct (Json.flag_error json); [inv_ret; congruence|].
  destruct (Json.stack json) as [|top rest] eqn:Hst.
  - destruct (0 <? Json.ntokens json).
    + repeat break_match; inv_ret; congruence.
    + destruct (Json.next json) as [c j1] eqn:Hn.
      destruct (next_moves _ _ _ Hn) as [_ Hs].
      destruct (c =? Json.EOF) eqn:Ee.
      * apply Z.eqb_eq in Ee. subst c. cbn [andb] in H.
        rewrite read_value_eof in H.
        destruct (Json.flag_streaming j1); inv_ret; congruence.
      * specialize (Hs eq_refl). cbn [andb] in H.
        apply moves_on_read_value, moves_on_left_over in H. lia.
  - destruct (Json.next json) as [c j1] eqn:Hn.
    destruct (next_moves _ _ _ Hn) as [_ Hs].
    destruct (c =? Json.EOF) eqn:Ee.
    + apply Z.eqb_eq in Ee. subst c.
      change (Json.EOF =? code "]") with false in H.
      change (Json.EOF =? code "}") with false in H.
      change (Json.EOF =? code ",") with false in H.
      change (Json.EOF =? code ":") with false in H.
      cbn [negb andb] in H. rewrite !read_value_eof in H.
      repeat break_match; inv_ret; congruence.
    + specialize (Hs eq_refl).
      assert (Hm : moves_on j1 json').
      { clear Hs Hn Ht1 Ht2. repeat (inv_ret; break_match); inv_ret; mo. }
      apply moves_on_left_over in Hm. lia.
Qed.

(** X22.  [json_next] only moves forward in the buffer: what is left of
    the buffer behind a call is an end of what was left in front of it, and
    a call that returns a token other than [JSON_ERROR] and [JSON_DONE] has
    taken at least one character.  The streaming flag is not touched.  A
    call that returns [JSON_ERROR] leaves the error flag up, and from then
    on every call returns [JSON_ERROR] and leaves the stream as it is. *)
Theorem json_next_advances (json : Json.json_stream) (t : Json.json_type)
  (json' : Json.json_stream) :
  Json.json_next json = (t, json') ->
  (exists pre,
     Json.source json = pre ++ Json.source json'
     /\ (t <> Json.JSON_ERROR -> t <> Json.JSON_DONE -> pre <> EmptyString))
  /\ Json.flag_streaming json' = Json.flag_streaming json
  /\ (t = Json.JSON_ERROR ->
      Json.flag_error json' = true
      /\ Json.json_next json' = (Json.JSON_ERROR, json')).
Proof.
  intros H. destruct (json_next_moves _ _ _ H) as (Hf & pre & Hp).
  split; [|split; [exact Hf|]].
  - exists pre. split; [exact Hp|]. intros Ht1 Ht2 ->.
    pose proof (json_next_strict _ _ _ H Ht1 Ht2) as Hs.
    unfold left_over in Hs. rewrite Hp in Hs. simpl in Hs. lia.
  - intros ->. pose proof (json_next_fails _ _ H) as He.
    split; [exact He|]. unfold Json.json_next. rewrite He. reflexivity.
Qed.

(** ** The loops of the JSON mode end *)

Lemma reads_on_left_over (a b : Json.json_stream) :
  reads_on a b -> (left_over b <= left_over a)%nat.
Proof. intros H. apply moves_on_left_over, moves_on_reads, H. Qed.

Lemma buffer_get_left_over (json : Json.json_stream) (c : Z)
  (json' : Json.json_stream) :
  Json.buffer_get json = (c, json') ->
  Json.source json <> EmptyString ->
  (S (left_over json') = left_over json)%nat.
Proof.
  unfold Json.buffer_get, left_over.
  destruct (Json.source json) as [|a r]; [congruence|].
  intros H _. injection H as <- <-. reflexivity.
Qed.

Lemma buffer_get_empty (json : Json.json_stream) :
  Json.source json = EmptyString ->
  Json.buffer_get json = (Json.EOF, json).
Proof. unfold Json.buffer_get. now intros ->. Qed.

Lemma read_string_loop_ends (fuel : nat) (json : Json.json_stream) :
  (left_over json < fuel)%nat ->
  exists r, Json.read_string_loop fuel json = Some r.
Proof.
  revert json. induction fuel as [|fuel IH]; intros json Hf; [lia|].
  cbn [Json.read_string_loop].
  destruct (Json.source json) as [|a s] eqn:Hs.
  { rewrite (buffer_get_empty _ Hs). cbn. eexists. reflexivity. }
  destruct (Json.buffer_get json) as [c j1] eqn:G.
  pose proof (buffer_get_left_over _ _ _ G) as Hl.
  rewrite Hs in Hl. specialize (Hl ltac:(discriminate)).
  destruct (c =? Json.EOF); [eexists; reflexivity|].
  destruct (c =? 34); [eexists; reflexivity|].
  destruct (c =? code "\").
  { destruct (Json.read_escaped j1) as [r j2] eqn:R.
    destruct (negb (r =? 0)); [eexists; reflexivity|].
    apply IH. apply reads_on_read_escaped, reads_on_left_over in R. lia. }
  destruct (128 <=? to_uint32 c).
  { destruct (Json.read_utf8 j1 c) as [r j2] eqn:R.
    destruct (negb (r =? 0)); [eexists; reflexivity|].
    apply IH. apply reads_on_read_utf8, reads_on_left_over in R. lia. }
  destruct (Json.char_needs_escaping c); [eexists; reflexivity|].
  apply IH. unfold left_over in *. simpl. lia.
Qed.

Ltac break_goal :=
  match goal with
  | |- context [match ?x with _ => _ end] =>
      lazymatch x with
      | context [match _ with _ => _ end] => fail
      | _ => destruct x eqn:?
      end
  end.

(** With more turns than characters left, the loop of [parse_json_string]
    ends, and its result does not depend on the number of turns. *)
Lemma parse_json_loop_ends {A : Type} (fuel : nat)
  (cb : A -> option string -> option string -> outcome (Z * A))
  (d : A) (key : option string) (has_dot level : Z)
  (json : Json.json_stream) :
  (left_over json < fuel)%nat ->
  exists r, parse_json_loop fuel cb d key has_dot level json = Some r.
Proof.
  revert d key has_dot level json.
  induction fuel as [|fuel IH]; intros d key has_dot level json Hf; [lia|].
  cbn [parse_json_loop].
  destruct (Json.json_next json) as [t j1] eqn:Hn.
  destruct t; try (eexists; reflexivity);
    (assert (Hlt : (left_over j1 < left_over json)%nat)
      by (apply (json_next_strict _ _ _ Hn); discriminate));
    repeat first [ apply IH; lia | eexists; reflexivity | break_goal ].
Qed.

Lemma parse_json_loop_fuel {A : Type} (fuel fuel' : nat)
  (cb : A -> option string -> option string -> outcome (Z * A))
  (d : A) (key : option string) (has_dot level : Z)
  (json : Json.json_stream) :
  (left_over json < fuel)%nat -> (left_over json < fuel')%nat ->
  parse_json_loop fuel cb d key has_dot level json
  = parse_json_loop fuel' cb d key has_dot level json.
Proof.
  revert fuel' d key has_dot level json.
  induction fuel as [|fuel IH]; intros fuel' d key has_dot level json Hf Hf';
    [lia|].
  destruct fuel' as [|fuel']; [lia|].
  cbn [parse_json_loop].
  destruct (Json.json_next json) as [t j1] eqn:Hn.
  destruct t; try reflexivity;
    (assert (Hlt : (left_over j1 < left_over json)%nat)
      by (apply (json_next_strict _ _ _ Hn); discriminate));
    repeat first [ apply IH; lia | reflexivity | break_goal ].
Qed.

Lemma is_json_log_format_loop_ends (fuel : nat) (json : Json.json_stream) :
  (left_over json < fuel)%nat ->
  exists r,
    Config.is_json_log_format_loop fuel json = Some r /\ (r = 0 \/ r = 1).
Proof.
  revert json. induction fuel as [|fuel IH]; intros json Hf; [lia|].
  cbn [Config.is_json_log_format_loop].
  destruct (Json.json_next json) as [t j1] eqn:Hn.
  destruct t; try (eexists; split; [reflexivity | lia]);
    (assert (Hlt : (left_over j1 < left_over json)%nat)
      by (apply (json_next_strict _ _ _ Hn); discriminate));
    apply IH; lia.
Qed.

Lemma is_json_log_format_loop_fuel (fuel fuel' : nat)
  (json : Json.json_stream) :
  (left_over json < fuel)%nat -> (left_over json < fuel')%nat ->
  Config.is_json_log_format_loop fuel json
  = Config.is_json_log_format_loop fuel' json.
Proof.
  revert fuel' json.
  induction fuel as [|fuel IH]; intros fuel' json Hf Hf'; [lia|].
  destruct fuel' as [|fuel']; [lia|].
  cbn [Config.is_json_log_format_loop].
  destruct (Json.json_next json) as [t j1] eqn:Hn.
  destruct t; try reflexivity;
    (assert (Hlt : (left_over j1 < left_over json)%nat)
      by (apply (json_next_strict _ _ _ Hn); discriminate));
    apply IH; lia.
Qed.

(** X23.  The loops of the JSON mode end.  The loop of [read_string] ends
    within one turn more than there are characters left in the buffer, that
    of [parse_json_string] within one call of [json_next] more than the line
    has characters, and that of [is_json_log_format] likewise; the results,
    which the three functions return, are the same for any larger number of
    turns, and [is_json_log_format] returns 0 or 1. *)
Theorem json_loops_end {A : Type}
  (cb : A -> option string -> option string -> outcome (Z * A))
  (d : A) (str : string) (json : Json.json_stream) :
  (exists r,
     Json.read_string_loop (S (left_over json)) (Json.init_string json)
     = Some r
     /\ Json.read_string json = r)
  /\ (exists r,
        parse_json_string cb d str = r
        /\ forall fuel,
             (String.length str < fuel)%nat ->
             parse_json_loop fuel cb d None 0 0 (Json.json_open_string str)
             = Some r)
  /\ (exists r,
        Config.is_json_log_format str = r
        /\ (r = 0 \/ r = 1)
        /\ forall fuel,
             (String.length str < fuel)%nat ->
             Config.is_json_log_format_loop fuel
               (Json.json_set_streaming (Json.json_open_string str) false)
             = Some r).
Proof.
  split; [|split].
  - destruct (read_string_loop_ends (S (left_over json))
                (Json.init_string json)) as [r Hr].
    { unfold left_over. simpl. lia. }
    exists r. split; [exact Hr|]. unfold Json.read_string.
    change (String.length (Json.source (Json.init_string json)))
      with (left_over json).
    rewrite Hr. reflexivity.
  - destruct (parse_json_loop_ends (S (String.length str)) cb d None 0 0
                (Json.json_open_string str)) as [r Hr].
    { unfold left_over. simpl. lia. }
    exists r. split.
    + unfold parse_json_string. rewrite Hr. reflexivity.
    + intros fuel Hf. rewrite <- Hr. apply parse_json_loop_fuel;
        unfold left_over; simpl; lia.
  - destruct (is_json_log_format_loop_ends (S (String.length str))
                (Json.json_set_streaming (Json.json_open_string str) false))
      as (r & Hr & Hv).
    { unfold left_over. simpl. lia. }
    exists r. split; [|split; [exact Hv|]].
    + unfold Config.is_json_log_format. rewrite Hr. reflexivity.
    + intros fuel Hf. rewrite <- Hr. apply is_json_log_format_loop_fuel;
        unfold left_over; simpl; lia.
Qed.

(** ** The stack of the JSON reader *)

Lemma json_type_eqb_eq (a b : Json.json_type) :
  Json.json_type_eqb a b = true <-> a = b.
Proof. destruct a, b; simpl; split; congruence. Qed.

Lemma is_match_type (pattern : string) (t0 : Json.json_type)
  (json : Json.json_stream) (t : Json.json_type) (json' : Json.json_stream) :
  Json.is_match json pattern t0 = (t, json') ->
  t = t0 \/ t = Json.JSON_ERROR.
Proof.
  revert json. induction pattern as [|p rest IH]; intros json H.
  - injection H as <- _. now left.
  - cbn [Json.is_match] in H.
    destruct (Json.buffer_get json) as [c j1].
    destruct (negb (Json.int_of_char p =? c)).
    + injection H as <- _. now right.
    + exact (IH _ H).
Qed.

Lemma read_string_loop_type (fuel : nat) (json : Json.json_stream)
  (t : Json.json_type) (json' : Json.json_stream) :
  Json.read_string_loop fuel json = Some (t, json') ->
  t = Json.JSON_STRING \/ t = Json.JSON_ERROR.
Proof.
  revert json. induction fuel as [|fuel IH]; intros json H; [discriminate|].
  cbn [Json.read_string_loop] in H.
  repeat break_match; inv_ret; auto; eauto.
Qed.

Lemma read_string_type (json : Json.json_stream) (t : Json.json_type)
  (json' : Json.json_stream) :
  Json.read_string json = (t, json') ->
  t = Json.JSON_STRING \/ t = Json.JSON_ERROR.
Proof.
  unfold Json.read_string. intros H.
  destruct (Json.read_string_loop _ _) as [[t1 j1]|] eqn:R.
  - injection H as <- _. exact (read_string_loop_type _ _ _ _ R).
  - injection H as <- _. now right.
Qed.

Lemma read_number_digits_type (json : Json.json_stream) (c : Z)
  (t : Json.json_type) (json' : Json.json_stream) :
  Json.read_number_digits json c = (t, json') ->
  t = Json.JSON_NUMBER \/ t = Json.JSON_ERROR.
Proof.
  unfold Json.read_number_digits. intros H.
  repeat (inv_ret; break_match); inv_ret; auto.
Qed.

Lemma read_number_type (json : Json.json_stream) (c : Z)
  (t : Json.json_type) (json' : Json.json_stream) :
  Json.read_number json c = (t, json') ->
  t = Json.JSON_NUMBER \/ t = Json.JSON_ERROR.
Proof.
  unfold Json.read_number. intros H.
  repeat (inv_ret; break_match); inv_ret; auto;
    eauto using read_number_digits_type.
Qed.

(** [read_value] counts the token; it opens an object or an array, or
    reads a value and leaves the stack alone. *)
Lemma read_value_effect (json : Json.json_stream) (c : Z)
  (t : Json.json_type) (json' : Json.json_stream) :
  Json.read_value json c = (t, json') ->
  t = Json.JSON_ERROR
  \/ (Json.ntokens json' = Json.ntokens json + 1
      /\ (((t = Json.JSON_OBJECT \/ t = Json.JSON_ARRAY)
           /\ Json.stack json' = Json.mk_stack t 0 :: Json.stack json)
          \/ (In t [Json.JSON_STRING; Json.JSON_NUMBER; Json.JSON_TRUE;
                    Json.JSON_FALSE; Json.JSON_NULL]
              /\ Json.stack json' = Json.stack json))).
Proof.
  unfold Json.read_value, Json.push. intros H. cbv zeta in H.
  destruct (c =? Json.EOF); [inv_ret; now left|].
  destruct (c =? code "{"); [inv_ret; right; split; [reflexivity|]; left;
                             split; [now left | reflexivity]|].
  destruct (c =? code "["); [inv_ret; right; split; [reflexivity|]; left;
                             split; [now right | reflexivity]|].
  destruct (c =? 34).
  { destruct (read_string_type _ _ _ H) as [->| ->]; [|now left].
    apply reads_on_read_string in H. destruct H as (Hs & Hn & _).
    right. split; [exact Hn|]. right. split; [cbn; tauto | exact Hs]. }
  destruct (c =? code "n").
  { destruct (is_match_type _ _ _ _ _ H) as [->| ->]; [|now left].
    apply reads_on_is_match in H. destruct H as (Hs & Hn & _).
    right. split; [exact Hn|]. right. split; [cbn; tauto | exact Hs]. }
  destruct (c =? code "f").
  { destruct (is_match_type _ _ _ _ _ H) as [->| ->]; [|now left].
    apply reads_on_is_match in H. destruct H as (Hs & Hn & _).
    right. split; [exact Hn|]. right. split; [cbn; tauto | exact Hs]. }
  destruct (c =? code "t").
  { destruct (is_match_type _ _ _ _ _ H) as [->| ->]; [|now left].
    apply reads_on_is_match in H. destruct H as (Hs & Hn & _).
    right. split; [exact Hn|]. right. split; [cbn; tauto | exact Hs]. }
  destruct (Json.is_digit c || (c =? code "-")); [|inv_ret; now left].
  destruct (read_number_type _ _ _ _ H) as [->| ->]; [|now left].
  apply reads_on_read_number in H. destruct H as (Hs & Hn & _).
  right. split; [exact Hn|]. right. split; [cbn; tauto | exact Hs].
Qed.

Lemma reads_on_trailing_space0 (json : Json.json_stream) (c : Z)
  (json' : Json.json_stream) :
  Json.trailing_space (Json.source json) json = (c, json') ->
  reads_on json json'.
Proof. apply (reads_on_trailing_space _ _ EmptyString). reflexivity. Qed.

Lemma stack_count_incr (json : Json.json_stream) :
  Json.stack (Json.count_incr json) = bump (Json.stack json).
Proof.
  unfold Json.count_incr. destruct (Json.stack json) eqn:E;
    [exact E | reflexivity].
Qed.

Lemma ntokens_count_incr (json : Json.json_stream) :
  Json.ntokens (Json.count_incr json) = Json.ntokens json.
Proof. unfold Json.count_incr. destruct (Json.stack json); reflexivity. Qed.

Ltac effects :=
  repeat match goal with
         | H : Json.next _ = (_, _) |- _ =>
             apply reads_on_next in H; destruct H as (? & ? & _)
         | H : Json.trailing_space _ _ = (_, _) |- _ =>
             apply reads_on_trailing_space0 in H; destruct H as (? & ? & _)
         | H : Json.read_value _ _ = (_, _) |- _ =>
             apply read_value_effect in H;
             destruct H as [?|(? & [([?|?] & ?)|(? & ?)])]
         | H : negb (Json.json_type_eqb _ _) = false |- _ =>
             apply negb_false_iff, json_type_eqb_eq in H
         | H : Json.json_type_eqb _ _ = true |- _ =>
             apply json_type_eqb_eq in H
         | H : (0 <? _) = false |- _ => apply Z.ltb_ge in H
         end.

(** What [json_next] does to the stack and to the number of tokens. *)
Lemma json_next_stack (json : Json.json_stream) (t : Json.json_type)
  (json' : Json.json_stream) :
  Json.json_next json = (t, json') ->
  json_next_effect t (Json.stack json) (Json.ntokens json)
    (Json.stack json') (Json.ntokens json').
Proof.
  unfold Json.json_next, Json.pop. intros H.
  repeat (inv_ret; break_match); inv_ret; try exact I.
  all: effects; subst; try exact I.
  all: rewrite ?stack_count_incr, ?ntokens_count_incr in *.
  all: cbn [Json.stack Json.ntokens Json.with_stack Json.json_error
            Json.with_ntokens] in *.
  all: unfold json_next_effect.
  all: change (bump []) with (@nil Json.json_stack) in *.
  all: repeat match goal with
              | H : In _ _ |- _ => cbn [In] in H
              | H : _ \/ _ |- _ => destruct H
              | H : False |- _ => destruct H
              end; subst; try discriminate;
         repeat split; try congruence; try lia; try (intros; discriminate).
  all: match goal with
       | |- exists top, ?a :: _ = top :: _ /\ _ =>
           exists a; split; congruence
       end.
Qed.

(** ** The loop of [parse_json_string] *)

Lemma Forall_bump (P : Json.json_type -> Prop) (st : list Json.json_stack) :
  Forall (fun e => P (Json.type e)) st ->
  Forall (fun e => P (Json.type e)) (bump st).
Proof.
  intros H. destruct st as [|e r]; [exact H|].
  inversion H; subst. constructor; assumption.
Qed.

Lemma dec_json_key_some (k : string) (has_dot : Z) :
  exists k', dec_json_key (Some k) has_dot = Some k'.
Proof.
  unfold dec_json_key. destruct (has_dot <? 0); eexists; reflexivity.
Qed.

(** The invariant of the loop behind a token. *)
Lemma parse_json_inv_step (key : option string) (level : Z)
  (json : Json.json_stream) (t : Json.json_type) (j1 : Json.json_stream)
  (key' : option string) (level' : Z) :
  parse_json_inv key level json ->
  Json.json_next json = (t, j1) ->
  t <> Json.JSON_ERROR -> t <> Json.JSON_DONE ->
  (key' = None -> key = None /\ t <> Json.JSON_OBJECT) ->
  parse_json_inv key' level' j1.
Proof.
  intros (Hn & H0 & Hk) Hj Ht1 Ht2 Hk'.
  pose proof (json_next_stack _ _ _ Hj) as He.
  assert (Hpos : 0 < Json.ntokens j1).
  { destruct t; cbn [json_next_effect] in He; try congruence;
      try (destruct He as (_ & -> & _); lia).
    all: destruct He as (Hn1 & top & Hs & _); rewrite Hn1;
      destruct (Z.eq_dec (Json.ntokens json) 0) as [E|E]; [|lia];
      destruct (H0 E) as [_ Hs']; congruence. }
  split; [lia|]. split; [lia|].
  intros Hnone. destruct (Hk' Hnone) as [-> Hobj]. specialize (Hk eq_refl).
  destruct t; cbn [json_next_effect] in He; try congruence.
  - destruct He as (_ & top & Hs & _). rewrite Hs in Hk.
    now inversion Hk.
  - destruct He as (-> & _). constructor; [reflexivity|].
    now apply (Forall_bump (fun t => t = Json.JSON_ARRAY)).
  - destruct He as (_ & top & Hs & _). rewrite Hs in Hk.
    now inversion Hk.
  - destruct He as (-> & _).
    now apply (Forall_bump (fun t => t = Json.JSON_ARRAY)).
  - destruct He as (-> & _).
    now apply (Forall_bump (fun t => t = Json.JSON_ARRAY)).
  - destruct He as (-> & _).
    now apply (Forall_bump (fun t => t = Json.JSON_ARRAY)).
  - destruct He as (-> & _).
    now apply (Forall_bump (fun t => t = Json.JSON_ARRAY)).
  - destruct He as (-> & _).
    now apply (Forall_bump (fun t => t = Json.JSON_ARRAY)).
Qed.

(** With no object open, a string or a number is not taken for the name of
    a member. *)
Lemma parse_json_no_name (level : Z) (json : Json.json_stream)
  (t : Json.json_type) (j1 : Json.json_stream) :
  parse_json_inv None level json ->
  Json.json_next json = (t, j1) ->
  t = Json.JSON_STRING \/ t = Json.JSON_NUMBER ->
  negb (Z.rem (snd (Json.json_get_context j1 level)) 2 =? 0)
  && negb (Json.json_type_eqb (fst (Json.json_get_context j1 level))
             Json.JSON_ARRAY) = false.
Proof.
  intros (Hn & H0 & Hk) Hj Ht. specialize (Hk eq_refl).
  pose proof (json_next_stack _ _ _ Hj) as He.
  assert (Hs : Json.stack j1 = bump (Json.stack json)
               /\ (Json.stack json = [] -> Json.ntokens json <= 0)).
  { destruct Ht as [-> | ->]; cbn [json_next_effect] in He; tauto. }
  destruct Hs as [Hs Hz]. unfold Json.json_get_context. rewrite Hs.
  destruct (Json.stack json) as [|e r] eqn:E.
  - cbn [bump fst snd]. assert (Json.ntokens json = 0) by (specialize (Hz eq_refl); lia).
    destruct (H0 H) as [-> _]. reflexivity.
  - cbn [bump fst snd Json.type]. inversion Hk as [|? ? Ha _]; subst.
    rewrite Ha. cbn. apply andb_false_r.
Qed.

Lemma parse_json_loop_safe {A : Type} (fuel : nat)
  (cb : A -> option string -> option string -> outcome (Z * A))
  (d : A) (key : option string) (has_dot level : Z)
  (json : Json.json_stream) :
  (forall d k v, cb d (Some k) (Some v) <> Undefined) ->
  parse_json_inv key level json ->
  parse_json_loop fuel cb d key has_dot level json <> Some Undefined.
Proof.
  intros Hcb. revert d key has_dot level json.
  induction fuel as [|fuel IH]; intros d key has_dot level json Hinv;
    [discriminate|].
  cbn [parse_json_loop].
  destruct (Json.json_next json) as [t j1] eqn:Hn.
  assert (Hstep : forall key' level',
             t <> Json.JSON_ERROR -> t <> Json.JSON_DONE ->
             (key' = None -> key = None /\ t <> Json.JSON_OBJECT) ->
             parse_json_inv key' level' j1).
  { intros key' level' H1 H2 H3.
    exact (parse_json_inv_step _ _ _ _ _ _ _ Hinv Hn H1 H2 H3). }
  destruct t; try discriminate.
  - (* JSON_OBJECT *)
    apply IH, Hstep; try discriminate. destruct key; discriminate.
  - (* JSON_OBJECT_END *)
    apply IH, Hstep; try discriminate.
    destruct key as [k|]; [|split; [reflexivity | discriminate]].
    destruct (dec_json_key_some k 0) as [k' ->]. discriminate.
  - (* JSON_ARRAY *)
    apply IH, Hstep; try discriminate. intros ->. split; [reflexivity|].
    discriminate.
  - (* JSON_ARRAY_END *)
    apply IH, Hstep; try discriminate.
    destruct key as [k|]; [|split; [reflexivity | discriminate]].
    destruct (dec_json_key_some k 0) as [k' ->]. discriminate.
  - (* JSON_STRING *)
    destruct (Json.json_get_context j1 level) as [ctx level'] eqn:Hc.
    destruct key as [k|].
    + repeat first
        [ apply IH, Hstep; try discriminate;
          try (destruct (dec_json_key_some k has_dot) as [k' ->]);
          discriminate
        | discriminate
        | break_goal ].
      all: exfalso; eapply Hcb; eassumption.
    + pose proof (parse_json_no_name _ _ _ _ Hinv Hn (or_introl eq_refl))
        as Hno.
      rewrite Hc in Hno. cbn [fst snd] in Hno. rewrite Hno.
      cbn [is_some andb]. apply IH, Hstep; try discriminate.
      intros _. split; [reflexivity | discriminate].
  - (* JSON_NUMBER *)
    destruct (Json.json_get_context j1 level) as [ctx level'] eqn:Hc.
    destruct key as [k|].
    + repeat first
        [ apply IH, Hstep; try discriminate;
          try (destruct (dec_json_key_some k has_dot) as [k' ->]);
          discriminate
        | discriminate
        | break_goal ].
      all: exfalso; eapply Hcb; eassumption.
    + pose proof (parse_json_no_name _ _ _ _ Hinv Hn (or_intror eq_refl))
        as Hno.
      rewrite Hc in Hno. cbn [fst snd] in Hno. rewrite Hno.
      cbn [is_some andb]. apply IH, Hstep; try discriminate.
      intros _. split; [reflexivity | discriminate].
  - (* JSON_TRUE *)
    destruct key as [k|]; [|discriminate].
    repeat first
      [ apply IH, Hstep; try discriminate;
        try (destruct (dec_json_key_some k 0) as [k' ->]); discriminate
      | discriminate
      | break_goal ].
    all: exfalso; eapply Hcb; eassumption.
  - (* JSON_FALSE *)
    destruct key as [k|]; [|discriminate].
    repeat first
      [ apply IH, Hstep; try discriminate;
        try (destruct (dec_json_key_some k 0) as [k' ->]); discriminate
      | discriminate
      | break_goal ].
    all: exfalso; eapply Hcb; eassumption.
  - (* JSON_NULL *)
    destruct key as [k|]; [|discriminate].
    repeat first
      [ apply IH, Hstep; try discriminate;
        try (destruct (dec_json_key_some k 0) as [k' ->]); discriminate
      | discriminate
      | break_goal ].
    all: exfalso; eapply Hcb; eassumption.
Qed.

Lemma parse_json_loop_ext {A : Type} (fuel : nat)
  (cb cb' : A -> option string -> option string -> outcome (Z * A))
  (d : A) (key : option string) (has_dot level : Z)
  (json : Json.json_stream) :
  (forall d k v, cb' d (Some k) (Some v) = cb d (Some k) (Some v)) ->
  parse_json_loop fuel cb' d key has_dot level json
  = parse_json_loop fuel cb d key has_dot level json.
Proof.
  intros Hcb. revert d key has_dot level json.
  induction fuel as [|fuel IH]; intros d key has_dot level json;
    [reflexivity|].
  cbn [parse_json_loop].
  destruct (Json.json_next json) as [t j1] eqn:Hn.
  destruct t; try reflexivity; try apply IH.
  - destruct (Json.json_get_context j1 level) as [ctx level'].
    destruct key as [k|]; [|repeat first [apply IH | reflexivity | break_goal]].
    rewrite Hcb. repeat first [apply IH | reflexivity | break_goal].
  - destruct (Json.json_get_context j1 level) as [ctx level'].
    destruct key as [k|]; [|repeat first [apply IH | reflexivity | break_goal]].
    rewrite Hcb. repeat first [apply IH | reflexivity | break_goal].
  - destruct key as [k|]; [|reflexivity].
    rewrite Hcb. repeat first [apply IH | reflexivity | break_goal].
  - destruct key as [k|]; [|reflexivity].
    rewrite Hcb. repeat first [apply IH | reflexivity | break_goal].
  - destruct key as [k|]; [|reflexivity].
    rewrite Hcb. repeat first [apply IH | reflexivity | break_goal].
Qed.

(** X25.  [parse_json_string] is as safe as the callback it is given.  It
    calls the callback with a key and a value of which none is [NULL]: two
    callbacks that agree on such calls give the same result.  And it never
    reaches the [strlen (key)] of the branch for the name of a member with a
    [key] that is [NULL]: when no call of the callback is undefined, the
    call of [parse_json_string] is not. *)
Theorem parse_json_string_safe {A : Type}
  (cb cb' : A -> option string -> option string -> outcome (Z * A))
  (d : A) (str : string) :
  ((forall d k v, cb' d (Some k) (Some v) = cb d (Some k) (Some v)) ->
   parse_json_string cb' d str = parse_json_string cb d str)
  /\ ((forall d k v, cb d (Some k) (Some v) <> Undefined) ->
      parse_json_string cb d str <> Undefined).
Proof.
  split.
  - intros H. unfold parse_json_string.
    now rewrite (parse_json_loop_ext _ cb cb' _ _ _ _ _ H).
  - intros H.
    destruct (parse_json_loop_ends (S (String.length str)) cb d None 0 0
                (Json.json_open_string str)) as [r Hr].
    { unfold left_over. simpl. lia. }
    unfold parse_json_string. rewrite Hr. intros ->.
    apply (parse_json_loop_safe (S (String.length str)) cb d None 0 0
             (Json.json_open_string str) H); [|exact Hr].
    unfold parse_json_inv. cbn. repeat split; auto; lia.
Qed.

(** X24.  [json_next] keeps the stack in step with the nesting of the
    text.  A call that returns [JSON_OBJECT] or [JSON_ARRAY] counts up the
    entry on top of the stack and pushes an entry of that type with count 0;
    a call that returns [JSON_OBJECT_END] or [JSON_ARRAY_END] pops an entry
    of that type; a call that returns a string, a number, [true], [false] or
    [null] counts up the entry on top.  [JSON_DONE] is returned only with an
    empty stack, which it leaves empty.  The tokens other than the two ends
    and [JSON_DONE] are counted in [ntokens], and with an empty stack they
    are returned only as long as [ntokens] is not positive. *)
Theorem json_next_nesting (json : Json.json_stream) (t : Json.json_type)
  (json' : Json.json_stream) :
  Json.json_next json = (t, json') ->
  match t with
  | Json.JSON_ERROR => True
  | Json.JSON_DONE =>
      Json.stack json = [] /\ Json.stack json' = []
      /\ Json.ntokens json' = Json.ntokens json
  | Json.JSON_OBJECT | Json.JSON_ARRAY =>
      Json.stack json' = Json.mk_stack t 0 :: bump (Json.stack json)
      /\ Json.ntokens json' = Json.ntokens json + 1
      /\ (Json.stack json = [] -> Json.ntokens json <= 0)
  | Json.JSON_OBJECT_END | Json.JSON_ARRAY_END =>
      Json.ntokens json' = Json.ntokens json
      /\ exists top,
           Json.stack json = top :: Json.stack json'
           /\ (t = Json.JSON_OBJECT_END -> Json.type top = Json.JSON_OBJECT)
           /\ (t = Json.JSON_ARRAY_END -> Json.type top = Json.JSON_ARRAY)
  | _ =>
      Json.stack json' = bump (Json.stack json)
      /\ Json.ntokens json' = Json.ntokens json + 1
      /\ (Json.stack json = [] -> Json.ntokens json <= 0)
  end.
Proof.
  intros H. pose proof (json_next_stack _ _ _ H) as He.
  destruct t; cbn [json_next_effect] in He; try exact He.
  - destruct He as (Hn & top & Hs & Ht). split; [exact Hn|].
    exists top. repeat split; auto; discriminate.
  - destruct He as (Hn & top & Hs & Ht). split; [exact Hn|].
    exists top. repeat split; auto; discriminate.
Qed.

Lemma parse_json_loop_fold {A : Type} (P : A -> Prop) (fuel : nat)
  (cb : A -> option string -> option string -> outcome (Z * A))
  (d : A) (key : option string) (has_dot level : Z)
  (json : Json.json_stream) (ret : Z) (d' : A) :
  (forall d k v r d',
     P d -> cb d (Some k) (Some v) = Returns (r, d') -> P d') ->
  P d ->
  parse_json_loop fuel cb d key has_dot level json = Some (Returns (ret, d')) ->
  P d'
  /\ (ret = 0 \/ ret = -1
      \/ (ret <> 0
          /\ exists d0 k v,
               P d0 /\ cb d0 (Some k) (Some v) = Returns (ret, d'))).
Proof.
  intros Hcb. revert d key has_dot level json.
  induction fuel as [|fuel IH]; intros d key has_dot level json Hd H;
    [discriminate|].
  cbn [parse_json_loop] in H.
  destruct (Json.json_next json) as [t j1] eqn:Hn.
  destruct key as [k|]; destruct t;
    try (injection H as <- <-; split; [exact Hd | auto]);
    try (eapply IH; [exact Hd | exact H]).
  all: repeat first
         [ discriminate
         | eapply IH; [|exact H]; first [exact Hd | eapply Hcb; eassumption]
         | match type of H with
           | Some (Returns _) = Some (Returns _) =>
               injection H as <- <-
           end
         | match type of H with
           | context [match ?x with _ => _ end] =>
               lazymatch x with
               | context [match _ with _ => _ end] => fail
               | _ => destruct x eqn:?
               end
           end ].
  all: try (split; [exact Hd | auto]).
  all: split; [eapply Hcb; eassumption|].
  all: right; right; split;
    [ match goal with
      | Hz : negb (_ =? 0) = true |- _ =>
          apply negb_true_iff, Z.eqb_neq in Hz; exact Hz
      end
    | eexists; eexists; eexists; split; [exact Hd | eassumption] ].
Qed.

Lemma parse_json_string_returns {A : Type} (P : A -> Prop)
  (cb : A -> option string -> option string -> outcome (Z * A))
  (d : A) (str : string) (ret : Z) (d' : A) :
  (forall d k v r d',
     P d -> cb d (Some k) (Some v) = Returns (r, d') -> P d') ->
  P d ->
  parse_json_string cb d str = Returns (ret, d') ->
  P d'
  /\ (ret = 0 \/ ret = -1
      \/ (ret <> 0
          /\ exists d0 k v,
               P d0 /\ cb d0 (Some k) (Some v) = Returns (ret, d'))).
Proof.
  intros Hcb Hd H. unfold parse_json_string in H.
  destruct (parse_json_loop _ _ _ _ _ _ _) as [r|] eqn:E; [|discriminate].
  subst r. exact (parse_json_loop_fold P _ _ _ _ _ _ _ _ _ Hcb Hd E).
Qed.

(** X26.  [parse_json_string] changes the data behind [ptr_data] by calls
    of the callback only, and stops at the first call that does not return
    0.  Whatever the calls of the callback keep true of the data is true of
    the data that [parse_json_string] leaves; the value it returns is 0, or
    -1, or the value other than 0 that a call of the callback returned
    together with the data left. *)
Theorem parse_json_string_fold {A : Type} (P : A -> Prop)
  (cb : A -> option string -> option string -> outcome (Z * A))
  (d : A) (str : string) (ret : Z) (d' : A) :
  (forall d k v r d',
     P d -> cb d (Some k) (Some v) = Returns (r, d') -> P d') ->
  P d ->
  parse_json_string cb d str = Returns (ret, d') ->
  P d'
  /\ (ret = 0 \/ ret = -1
      \/ (ret <> 0
          /\ exists d0 k v,
               P d0 /\ cb d0 (Some k) (Some v) = Returns (ret, d'))).
Proof. apply parse_json_string_returns. Qed.

Lemma json_next_advances_witness :
  (exists pre,
     "[1]" = pre ++ "1]"
     /\ (Json.JSON_ARRAY <> Json.JSON_ERROR ->
         Json.JSON_ARRAY <> Json.JSON_DONE -> pre <> EmptyString))
  /\ true = true
  /\ (Json.JSON_ARRAY = Json.JSON_ERROR ->
      false = true
      /\ Json.json_next (snd (Json.json_next (Json.init "[1]")))
         = (Json.JSON_ERROR, snd (Json.json_next (Json.init "[1]")))).
Proof.
  exact (json_next_advances (Json.init "[1]") Json.JSON_ARRAY
           (snd (Json.json_next (Json.init "[1]"))) eq_refl).
Defined.

Lemma json_next_nesting_witness :
  Json.stack (snd (Json.json_next (Json.init "[1]")))
  = [Json.mk_stack Json.JSON_ARRAY 0]
  /\ Json.ntokens (snd (Json.json_next (Json.init "[1]"))) = 0 + 1
  /\ (@nil Json.json_stack = [] -> 0 <= 0).
Proof.
  exact (json_next_nesting (Json.init "[1]") Json.JSON_ARRAY
           (snd (Json.json_next (Json.init "[1]"))) eq_refl).
Defined.

Lemma parse_json_string_fold_witness :
  (1 <= Z.of_nat (List.length [("a", "%h")]))
  /\ (0 = 0 \/ 0 = -1
      \/ (0 <> 0
          /\ exists d0 k v,
               (1 <= Z.of_nat (List.length d0))
               /\ ht_insert_json_logfmt d0 (Some k) (Some v)
                  = Returns (0, [("a", "%h")]))).
Proof.
  apply (parse_json_string_fold
           (fun d => 1 <= Z.of_nat (List.length d))
           ht_insert_json_logfmt [("a", "-")]
           (String "{" (String "034" (String "a" (String "034"
              (String ":" (String "034" (String "%" (String "h"
                 (String "034" (String "}" EmptyString))))))))))
           0 [("a", "%h")]).
  - intros d k v r d' Hd H. unfold ht_insert_json_logfmt in H.
    destruct (get_ss32 d k); injection H as _ <-.
    + destruct d as [|[k0 v0] d]; [simpl in Hd; lia|].
      simpl. destruct (k0 =? k)%string; simpl; lia.
    + simpl. lia.
  - simpl. lia.
  - reflexivity.
Defined.

(** ** The record assembler in the JSON mode *)



